(** * The ipvsdr provider of the loadbalancer controller

    A shallow embedding of [provider/providers/ipvsdr/ipvsdr.go] and the
    properties its design document states about it.

    The Go code works on pointers to deployments that live in the informer
    cache, copies them before it changes them and sends the copies to the
    API server.  The embedding keeps these three places apart:

    - [heap]: the memory of the controller process; a cell holds one
      deployment together with everything it owns (label map, container
      array, affinity), a [*extensions.Deployment] is a location;
    - [objects]: the deployments as the API server stores them;
    - [calls], [logs], [queue]: what the pass sent to the API server, what it
      logged and what is pending in the work queue.

    Code runs in the monad [M], whose outcomes are a normal return or a Go
    run-time panic. *)

From Stdlib Require Import ZArith String List Bool.
From stdpp Require Import base option numbers gmap strings list fin_maps.

Local Open Scope string_scope.
Local Open Scope Z_scope.
Local Open Scope list_scope.

(** ** Go errors *)

(** [k8s.io/apimachinery/pkg/api/errors]: the reason carried by a status
    error.  [errors.IsNotFound] looks at nothing else. *)
Inductive StatusReason :=
  | StatusReasonNotFound
  | StatusReasonAlreadyExists
  | StatusReasonConflict
  | StatusReasonUnknown.

Inductive Err :=
  | StatusError (reason : StatusReason) (message : string)
  | PlainError (message : string).

(** A value of Go's [error] interface; [None] is [nil]. *)
Definition error := option Err.

Definition Error (e : Err) : string :=
  match e with
  | StatusError _ m => m
  | PlainError m => m
  end.

Definition IsNotFound (e : Err) : bool :=
  match e with
  | StatusError StatusReasonNotFound _ => true
  | _ => false
  end.

Global Instance StatusReason_eq_dec : EqDecision StatusReason.
Proof. solve_decision. Defined.
Global Instance Err_eq_dec : EqDecision Err.
Proof. solve_decision. Defined.

(** ** Kubernetes API types, restricted to the fields the provider touches *)

Module metav1.

Record OwnerReference := {
  APIVersion : string;
  Kind : string;
  OwnerName : string;
  OwnerUID : string;
  Controller : option bool;
  BlockOwnerDeletion : option bool
}.

(** [Labels] is a Go map: [None] is the nil map, which can be read but
    not written. *)
Record ObjectMeta := {
  Name : string;
  Namespace : string;
  UID : string;
  Labels : option (gmap string string);
  OwnerReferences : list OwnerReference;
  DeletionTimestamp : option Z
}.

Inductive DeletionPropagation :=
  | DeletePropagationOrphan
  | DeletePropagationBackground
  | DeletePropagationForeground.

Record DeleteOptions := {
  GracePeriodSeconds : option Z;
  PropagationPolicy : option DeletionPropagation
}.

Definition LabelHostname : string := "kubernetes.io/hostname".

Global Instance OwnerReference_eq_dec : EqDecision OwnerReference.
Proof. solve_decision. Defined.
Global Instance ObjectMeta_eq_dec : EqDecision ObjectMeta.
Proof. solve_decision. Defined.
Global Instance DeletionPropagation_eq_dec : EqDecision DeletionPropagation.
Proof. solve_decision. Defined.
Global Instance DeleteOptions_eq_dec : EqDecision DeleteOptions.
Proof. solve_decision. Defined.

End metav1.

Module v1.

Record NodeSelectorRequirement := {
  Key : string;
  Operator : string;
  Values : list string
}.

Record NodeSelectorTerm := {
  MatchExpressions : list NodeSelectorRequirement
}.

Record NodeSelector := {
  NodeSelectorTerms : list NodeSelectorTerm
}.

Record PreferredSchedulingTerm := {
  Weight : Z;
  Preference : NodeSelectorTerm
}.

Record NodeAffinity := {
  RequiredDuringSchedulingIgnoredDuringExecution : option NodeSelector;
  PreferredDuringSchedulingIgnoredDuringExecution : list PreferredSchedulingTerm
}.

Record PodAffinityTerm := {
  MatchLabels : option (gmap string string);
  TopologyKey : string
}.

Record PodAntiAffinity := {
  AntiRequiredDuringSchedulingIgnoredDuringExecution : list PodAffinityTerm
}.

Record Affinity := {
  NodeAffinity_ : option NodeAffinity;
  PodAntiAffinity_ : option PodAntiAffinity
}.

Record Toleration := {
  TolerationKey : string;
  TolerationOperator : string;
  TolerationValue : string;
  TolerationEffect : string
}.

Record EnvVar := {
  EnvName : string;
  Value : string;
  FieldPath : option string
}.

Record VolumeMount := {
  MountName : string;
  MountPath : string;
  ReadOnly : bool
}.

Record Container := {
  ContainerName : string;
  Image : string;
  ImagePullPolicy : string;
  Limits : list (string * string);
  Privileged : option bool;
  Env : list EnvVar;
  VolumeMounts : list VolumeMount
}.

Record Volume := {
  VolumeName : string;
  HostPath : option string
}.

Record PodSpec := {
  HostNetwork : bool;
  TerminationGracePeriodSeconds : option Z;
  Affinity_ : option Affinity;
  Tolerations : list Toleration;
  Containers : list Container;
  Volumes : list Volume
}.

Record PodTemplateSpec := {
  TemplateMeta : metav1.ObjectMeta;
  TemplateSpec : PodSpec
}.

Definition NodeSelectorOpIn : string := "In".
Definition PullAlways : string := "Always".
Definition ResourceCPU : string := "cpu".
Definition ResourceMemory : string := "memory".

Global Instance NodeSelectorRequirement_eq_dec : EqDecision NodeSelectorRequirement.
Proof. solve_decision. Defined.
Global Instance NodeSelectorTerm_eq_dec : EqDecision NodeSelectorTerm.
Proof. solve_decision. Defined.
Global Instance NodeSelector_eq_dec : EqDecision NodeSelector.
Proof. solve_decision. Defined.
Global Instance PreferredSchedulingTerm_eq_dec : EqDecision PreferredSchedulingTerm.
Proof. solve_decision. Defined.
Global Instance NodeAffinity_eq_dec : EqDecision NodeAffinity.
Proof. solve_decision. Defined.
Global Instance PodAffinityTerm_eq_dec : EqDecision PodAffinityTerm.
Proof. solve_decision. Defined.
Global Instance PodAntiAffinity_eq_dec : EqDecision PodAntiAffinity.
Proof. solve_decision. Defined.
Global Instance Affinity_eq_dec : EqDecision Affinity.
Proof. solve_decision. Defined.
Global Instance Toleration_eq_dec : EqDecision Toleration.
Proof. solve_decision. Defined.
Global Instance EnvVar_eq_dec : EqDecision EnvVar.
Proof. solve_decision. Defined.
Global Instance VolumeMount_eq_dec : EqDecision VolumeMount.
Proof. solve_decision. Defined.
Global Instance Container_eq_dec : EqDecision Container.
Proof. solve_decision. Defined.
Global Instance Volume_eq_dec : EqDecision Volume.
Proof. solve_decision. Defined.
Global Instance PodSpec_eq_dec : EqDecision PodSpec.
Proof. solve_decision. Defined.
Global Instance PodTemplateSpec_eq_dec : EqDecision PodTemplateSpec.
Proof. solve_decision. Defined.

End v1.

Module extensions.

(** [Replicas] is a [*int32]: [None] is the nil pointer. *)
Record DeploymentSpec := {
  Replicas : option Z;
  Template : v1.PodTemplateSpec
}.

Record Deployment := {
  Meta : metav1.ObjectMeta;
  Spec : DeploymentSpec
}.

Global Instance DeploymentSpec_eq_dec : EqDecision DeploymentSpec.
Proof. solve_decision. Defined.
Global Instance Deployment_eq_dec : EqDecision Deployment.
Proof. solve_decision. Defined.

End extensions.

(** [pkg/apis/networking/v1alpha1] is not part of the sources at hand; the
    record keeps the fields of a load balancer that the provider reads. *)
Module netv1alpha1.

Record IpvsdrProvider := {
  Vip : string;
  Scheduler : string
}.

Record ProvidersSpec := {
  Ipvsdr : option IpvsdrProvider
}.

Record LoadBalancerSpec := {
  Type_ : string;
  Providers : ProvidersSpec
}.

Record LoadBalancer := {
  Meta : metav1.ObjectMeta;
  Spec : LoadBalancerSpec
}.

Global Instance IpvsdrProvider_eq_dec : EqDecision IpvsdrProvider.
Proof. solve_decision. Defined.
Global Instance ProvidersSpec_eq_dec : EqDecision ProvidersSpec.
Proof. solve_decision. Defined.
Global Instance LoadBalancerSpec_eq_dec : EqDecision LoadBalancerSpec.
Proof. solve_decision. Defined.
Global Instance LoadBalancer_eq_dec : EqDecision LoadBalancer.
Proof. solve_decision. Defined.

End netv1alpha1.

Abbreviation Deployment := extensions.Deployment.
Abbreviation LoadBalancer := netv1alpha1.LoadBalancer.

(** Field paths of a deployment, as the Go code spells them. *)
Definition dName (d : Deployment) : string := metav1.Name (extensions.Meta d).
Definition dNamespace (d : Deployment) : string := metav1.Namespace (extensions.Meta d).
Definition dLabels (d : Deployment) : option (gmap string string) :=
  metav1.Labels (extensions.Meta d).
Definition dReplicas (d : Deployment) : option Z :=
  extensions.Replicas (extensions.Spec d).
Definition dPodSpec (d : Deployment) : v1.PodSpec :=
  v1.TemplateSpec (extensions.Template (extensions.Spec d)).
Definition dContainers (d : Deployment) : list v1.Container :=
  v1.Containers (dPodSpec d).
Definition dAffinity (d : Deployment) : option v1.Affinity :=
  v1.Affinity_ (dPodSpec d).

Definition lbName (lb : LoadBalancer) : string := metav1.Name (netv1alpha1.Meta lb).
Definition lbNamespace (lb : LoadBalancer) : string := metav1.Namespace (netv1alpha1.Meta lb).
Definition lbUID (lb : LoadBalancer) : string := metav1.UID (netv1alpha1.Meta lb).

(** Assignments to one field of a deployment. *)
Definition with_PodSpec (g : v1.PodSpec → v1.PodSpec) (d : Deployment) : Deployment :=
  let s := extensions.Spec d in
  let t := extensions.Template s in
  {| extensions.Meta := extensions.Meta d;
     extensions.Spec :=
       {| extensions.Replicas := extensions.Replicas s;
          extensions.Template :=
            {| v1.TemplateMeta := v1.TemplateMeta t;
               v1.TemplateSpec := g (v1.TemplateSpec t) |} |} |}.

Definition set_Labels (l : option (gmap string string)) (d : Deployment) : Deployment :=
  let m := extensions.Meta d in
  {| extensions.Meta :=
       {| metav1.Name := metav1.Name m;
          metav1.Namespace := metav1.Namespace m;
          metav1.UID := metav1.UID m;
          metav1.Labels := l;
          metav1.OwnerReferences := metav1.OwnerReferences m;
          metav1.DeletionTimestamp := metav1.DeletionTimestamp m |};
     extensions.Spec := extensions.Spec d |}.

Definition set_Replicas (r : option Z) (d : Deployment) : Deployment :=
  {| extensions.Meta := extensions.Meta d;
     extensions.Spec :=
       {| extensions.Replicas := r;
          extensions.Template := extensions.Template (extensions.Spec d) |} |}.

Definition set_Containers (cs : list v1.Container) : Deployment → Deployment :=
  with_PodSpec (λ ps,
    {| v1.HostNetwork := v1.HostNetwork ps;
       v1.TerminationGracePeriodSeconds := v1.TerminationGracePeriodSeconds ps;
       v1.Affinity_ := v1.Affinity_ ps;
       v1.Tolerations := v1.Tolerations ps;
       v1.Containers := cs;
       v1.Volumes := v1.Volumes ps |}).

Definition set_Affinity (a : option v1.Affinity) : Deployment → Deployment :=
  with_PodSpec (λ ps,
    {| v1.HostNetwork := v1.HostNetwork ps;
       v1.TerminationGracePeriodSeconds := v1.TerminationGracePeriodSeconds ps;
       v1.Affinity_ := a;
       v1.Tolerations := v1.Tolerations ps;
       v1.Containers := v1.Containers ps;
       v1.Volumes := v1.Volumes ps |}).

Definition set_Image (image : string) (c : v1.Container) : v1.Container :=
  {| v1.ContainerName := v1.ContainerName c;
     v1.Image := image;
     v1.ImagePullPolicy := v1.ImagePullPolicy c;
     v1.Limits := v1.Limits c;
     v1.Privileged := v1.Privileged c;
     v1.Env := v1.Env c;
     v1.VolumeMounts := v1.VolumeMounts c |}.

Definition set_NodeAffinity (na : option v1.NodeAffinity) (a : v1.Affinity) : v1.Affinity :=
  {| v1.NodeAffinity_ := na; v1.PodAntiAffinity_ := v1.PodAntiAffinity_ a |}.

(** ** The state a reconcile pass runs in *)

(** A [*extensions.Deployment]. *)
Abbreviation loc := positive.

Inductive Level := Debug | Info | Warn | ErrorLevel.

(** One record of the [logdog] logger: level, message and fields. *)
Record LogRecord := {
  level : Level;
  msg : string;
  fields : list (string * string)
}.

(** A request to the API server.  [PatchStatus] is the write that
    [syncStatus] ends in. *)
Inductive Call :=
  | UpdateDeployment (namespace : string) (d : Deployment)
  | CreateDeployment (namespace : string) (d : Deployment)
  | DeleteDeployment (namespace name : string) (options : metav1.DeleteOptions)
  | PatchStatus (namespace name : string) (activeDeploy : Deployment).

Global Instance Level_eq_dec : EqDecision Level.
Proof. solve_decision. Defined.
Global Instance LogRecord_eq_dec : EqDecision LogRecord.
Proof. solve_decision. Defined.
Global Instance Call_eq_dec : EqDecision Call.
Proof. solve_decision. Defined.

Record World := {
  heap : gmap loc Deployment;
  objects : gmap (string * string) Deployment;
  calls : list Call;
  logs : list LogRecord;
  queue : list LoadBalancer;
  draws : nat
}.

Definition with_heap (g : gmap loc Deployment → gmap loc Deployment) (w : World) : World :=
  {| heap := g (heap w); objects := objects w; calls := calls w;
     logs := logs w; queue := queue w; draws := draws w |}.

Definition with_objects
    (g : gmap (string * string) Deployment → gmap (string * string) Deployment)
    (w : World) : World :=
  {| heap := heap w; objects := g (objects w); calls := calls w;
     logs := logs w; queue := queue w; draws := draws w |}.

Definition with_calls (g : list Call → list Call) (w : World) : World :=
  {| heap := heap w; objects := objects w; calls := g (calls w);
     logs := logs w; queue := queue w; draws := draws w |}.

Definition with_logs (g : list LogRecord → list LogRecord) (w : World) : World :=
  {| heap := heap w; objects := objects w; calls := calls w;
     logs := g (logs w); queue := queue w; draws := draws w |}.

Definition with_queue (g : list LoadBalancer → list LoadBalancer) (w : World) : World :=
  {| heap := heap w; objects := objects w; calls := calls w;
     logs := logs w; queue := g (queue w); draws := draws w |}.

Definition with_draws (g : nat → nat) (w : World) : World :=
  {| heap := heap w; objects := objects w; calls := calls w;
     logs := logs w; queue := queue w; draws := g (draws w) |}.

(** ** The monad of Go code: state, and panics that unwind *)

Inductive PanicKind :=
  | NilPointerDereference
  | IndexOutOfRange
  | AssignmentToNilMap.

Inductive Outcome (A : Type) :=
  | Ret (a : A) (w : World)
  | Panic (k : PanicKind) (w : World).

Arguments Ret {A} a w.
Arguments Panic {A} k w.

Definition M (A : Type) : Type := World → Outcome A.

Definition ret {A} (a : A) : M A := λ w, Ret a w.

Definition bind {A B} (m : M A) (k : A → M B) : M B :=
  λ w, match m w with
       | Ret a w' => k a w'
       | Panic p w' => Panic p w'
       end.

Definition panic {A} (k : PanicKind) : M A := λ w, Panic k w.

Notation "'let*' x ':=' c1 'in' c2" := (bind c1 (λ x, c2))
  (at level 10, x pattern, c1 at level 100, c2 at level 200).

(** The world an outcome leaves behind. *)
Definition world_of {A} (o : Outcome A) : World :=
  match o with
  | Ret _ w => w
  | Panic _ w => w
  end.

Definition is_panic {A} (o : Outcome A) : bool :=
  match o with
  | Ret _ _ => false
  | Panic _ _ => true
  end.

(** [defer body]: the deferred call runs when the function returns and
    also while a panic unwinds. *)
Definition defer {A} (deferred : M unit) (body : M A) : M A :=
  λ w, match body w with
       | Ret a w' =>
           match deferred w' with
           | Ret _ w'' => Ret a w''
           | Panic p w'' => Panic p w''
           end
       | Panic p w' => Panic p (world_of (deferred w'))
       end.

(** *** Memory *)

(** Reading through a pointer. *)
Definition load (p : loc) : M Deployment :=
  λ w, match heap w !! p with
       | Some d => Ret d w
       | None => Panic NilPointerDereference w
       end.

(** Writing through a pointer. *)
Definition store (p : loc) (d : Deployment) : M unit :=
  λ w, match heap w !! p with
       | Some _ => Ret tt (with_heap (<[p := d]>) w)
       | None => Panic NilPointerDereference w
       end.

(** [p.field = v] *)
Definition assign (p : loc) (g : Deployment → Deployment) : M unit :=
  let* d := load p in store p (g d).

(** [&T{...}]: a new cell at an address not in use. *)
Definition alloc (d : Deployment) : M loc :=
  λ w, let p := fresh (dom (heap w)) in Ret p (with_heap (<[p := d]>) w).

(** [*p] for a pointer held in a field. *)
Definition deref {A} (o : option A) : M A :=
  match o with
  | Some a => ret a
  | None => panic NilPointerDereference
  end.

(** [s[0]] *)
Definition index0 {A} (s : list A) : M A :=
  match s with
  | a :: _ => ret a
  | [] => panic IndexOutOfRange
  end.

(** *** Logging *)

Definition log (lv : Level) (message : string) (fs : list (string * string)) : M unit :=
  λ w, Ret tt (with_logs (λ l, l ++ [{| level := lv; msg := message; fields := fs |}]) w).

Definition fmt_bool (b : bool) : string := if b then "true" else "false".

(** [for _, a := range l { body }] without [break] or [return]. *)
Fixpoint for_each {A} (l : list A) (body : A → M unit) : M unit :=
  match l with
  | [] => ret tt
  | a :: l' => let* _ := body a in for_each l' body
  end.

(** [for k, v := range m { body }]; ranging over the nil map runs no
    iteration.  Go leaves the order open; the model takes the order of
    [map_to_list]. *)
Definition range_map (m : option (gmap string string)) (body : string → string → M unit)
    : M unit :=
  for_each (map_to_list (default ∅ m)) (λ kv, body kv.1 kv.2).

(** ** The collaborators of the provider *)

(** [kubernetes.Interface], as far as the provider uses it: a client of an
    API server that stores what it accepts.  [reactor] decides which
    requests fail, from the requests made so far and the request at hand;
    a request that is not made to fail is served from [objects]. *)
Record Clientset := {
  reactor : list Call → Call → error
}.

Definition request (c : Clientset) (call : Call)
    (serve : gmap (string * string) Deployment → gmap (string * string) Deployment + Err)
    : M error :=
  λ w, let w1 := with_calls (λ l, l ++ [call]) w in
       match reactor c (calls w) call with
       | Some e => Ret (Some e) w1
       | None =>
           match serve (objects w) with
           | inl o => Ret None (with_objects (λ _, o) w1)
           | inr e => Ret (Some e) w1
           end
       end.

(** [c.ExtensionsV1beta1().Deployments(namespace).Update(p)]; the provider
    never looks at the object that comes back, the model returns the error
    alone. *)
Definition Update (c : Clientset) (namespace : string) (p : loc) : M error :=
  let* d := load p in
  request c (UpdateDeployment namespace d) (λ o,
    match o !! (namespace, dName d) with
    | Some _ => inl (<[(namespace, dName d) := d]> o)
    | None => inr (StatusError StatusReasonNotFound (dName d +:+ " not found"))
    end).

(** [c.ExtensionsV1beta1().Deployments(namespace).Create(p)] *)
Definition Create (c : Clientset) (namespace : string) (p : loc) : M error :=
  let* d := load p in
  request c (CreateDeployment namespace d) (λ o,
    match o !! (namespace, dName d) with
    | Some _ => inr (StatusError StatusReasonAlreadyExists (dName d +:+ " already exists"))
    | None => inl (<[(namespace, dName d) := d]> o)
    end).

(** [c.ExtensionsV1beta1().Deployments(namespace).Delete(name, options)].
    The grace period and the propagation policy are on record in the
    request.  A real API server keeps the object stored while they run;
    this one takes an accepted delete as completed, and no property below
    looks at the stored objects after an accepted delete. *)
Definition Delete (c : Clientset) (namespace name : string)
    (options : metav1.DeleteOptions) : M error :=
  request c (DeleteDeployment namespace name options) (λ o,
    match o !! (namespace, name) with
    | Some _ => inl (delete (namespace, name) o)
    | None => inr (StatusError StatusReasonNotFound (name +:+ " not found"))
    end).

(** [netlisters.LoadBalancerLister]: [LoadBalancers(namespace).Get(name)]. *)
Record LoadBalancerLister := {
  Get : string → string → World → LoadBalancer + Err
}.

(** [extensionslisters.DeploymentLister]:
    [Deployments(namespace).List(selector)]. *)
Record DeploymentLister := {
  ListDeployments : string → gmap string string → World → list loc * error
}.

(** Constants and functions of packages of the repository that are not
    among the sources at hand: [netv1alpha1], [validation],
    [controllerutil], [lbutil] and [toleration].  [RandStringBytesRmndr n i]
    is the string of the [i]-th draw; [Claim c lb selector dList] stands for
    [controllerutil.NewDeploymentControllerRefManager(c, lb, selector,
    controllerKind, canAdoptFunc).Claim(dList)]. *)
Record Imports := {
  LoadBalancerTypeExternal : string;
  LoadBalancerKind : string;
  SchemeGroupVersion : string;
  LabelKeyCreatedBy : string;
  LabelKeyProvider : string;
  LabelValueFormatCreateby : string → string → string;
  UniqueLabelKeyFormat : string → string → string;
  ValidateLoadBalancer : LoadBalancer → error;
  KeyFunc : LoadBalancer → string * error;
  CalculateReplicas : LoadBalancer → Z * error;
  RandStringBytesRmndr : nat → nat → string;
  GenerateTolerations : list v1.Toleration;
  Claim : Clientset → LoadBalancer → gmap string string → list loc → M (list loc * error)
}.

(** Modelled from the spec: [lbutil.DeploymentDeepCopy], which is not among
    the sources at hand.  The design notes describe it as an explicit clone
    operation, "clone on read from cache, mutate only the clone": the clone
    is a new cell with the same contents, and the error is nil. *)
Definition DeploymentDeepCopy (p : loc) : M (loc + Err) :=
  let* d := load p in
  let* c := alloc d in
  ret (inl c).

(** ** The provider *)

Definition providerNameSuffix : string := "-provider-ipvsdr".
Definition providerName : string := "ipvsdr".

Record ipvsdr := {
  initialized : bool;
  image : string;
  client : Clientset;
  lbLister : LoadBalancerLister;
  dLister : DeploymentLister
}.

(** Modelled from the spec: [syncStatus], which lives in another file of the
    package.  "After create/update, the active workload is used to
    recompute and persist LogicalResource status": it reads the active
    deployment and ends in one write of the load balancer's status, which
    the API server may reject. *)
Definition syncStatus (f : ipvsdr) (lb : LoadBalancer) (activeDeploy : loc) : M error :=
  let* d := load activeDeploy in
  request (client f) (PatchStatus (lbNamespace lb) (lbName lb) d) (λ o, inl o).

(** Modelled from the spec: [Enqueue] of [controllerutil.Helper], which is
    not among the sources at hand.  "Queue insertion is idempotent —
    multiple notifications mapping to the same key coalesce into a single
    pending reconcile." *)
Definition Enqueue (lb : LoadBalancer) : M unit :=
  λ w, let same (x : LoadBalancer) :=
         bool_decide (lbNamespace x = lbNamespace lb ∧ lbName x = lbName lb) in
       if existsb same (queue w) then Ret tt w
       else Ret tt (with_queue (λ q, q ++ [lb]) w).

(** What the work queue hands to [syncLoadBalancer]: an [interface{}]. *)
Inductive Obj :=
  | LoadBalancerObj (lb : LoadBalancer)
  | OtherObj (repr : string).

(** How an iteration of the [for] loop of [sync] ends: with [return err],
    which ends the pass, or with [continue] or the end of the body, which
    hand the loop variables [updated] and [activeDeploy] on. *)
Inductive Flow :=
  | Return (err : error)
  | Next (updated : bool) (activeDeploy : loc).

Section Provider.

Context (pkg : Imports).

Definition controllerKind : string * string :=
  (SchemeGroupVersion pkg, LoadBalancerKind pkg).

Definition selector (lb : LoadBalancer) : gmap string string :=
  <[LabelKeyProvider pkg := providerName]>
    (<[LabelKeyCreatedBy pkg := LabelValueFormatCreateby pkg (lbNamespace lb) (lbName lb)]> ∅).

(** [lbutil.RandStringBytesRmndr(n)]: the next draw. *)
Definition rand (n : nat) : M string :=
  λ w, Ret (RandStringBytesRmndr pkg n (draws w)) (with_draws S w).

Definition OnSync (f : ipvsdr) (lb : LoadBalancer) : M unit :=
  if negb (String.eqb (netv1alpha1.Type_ (netv1alpha1.Spec lb)) (LoadBalancerTypeExternal pkg))
     && bool_decide (netv1alpha1.Ipvsdr (netv1alpha1.Providers (netv1alpha1.Spec lb)) ≠ None)
  then
    (* It is not my responsible *)
    ret tt
  else
    let* _ := log Info "Syncing providers, triggered by lb controller"
                  [("lb", lbName lb); ("namespace", lbNamespace lb)] in
    Enqueue lb.

Definition getDeploymentsForLoadBalancer (f : ipvsdr) (lb : LoadBalancer)
    : M (list loc * error) :=
  (* construct selector *)
  let selector := selector lb in
  (* list all *)
  let* listed := (λ w, Ret (ListDeployments (dLister f) (lbNamespace lb) selector w) w) in
  match listed with
  | (_, Some err) => ret ([], Some err)
  | (dList, None) => Claim pkg (client f) lb selector dList
  end.

(** The struct literal that [generateDeployment] builds; [suffix] is the
    result of [lbutil.RandStringBytesRmndr(5)]. *)
Definition desiredDeployment (f : ipvsdr) (lb : LoadBalancer) (suffix : string)
    : Deployment :=
  let terminationGracePeriodSeconds := 30 in
  let hostNetwork := true in
  let replicas := (CalculateReplicas pkg lb).1 in
  let privileged := true in
  let labels := selector lb in
  (* run in this node *)
  let nodeAffinity :=
    {| v1.RequiredDuringSchedulingIgnoredDuringExecution := Some
         {| v1.NodeSelectorTerms :=
              [ {| v1.MatchExpressions :=
                     [ {| v1.Key := UniqueLabelKeyFormat pkg (lbNamespace lb) (lbName lb);
                          v1.Operator := v1.NodeSelectorOpIn;
                          v1.Values := ["true"] |} ] |} ] |};
       v1.PreferredDuringSchedulingIgnoredDuringExecution := [] |} in
  (* do not run with this pod *)
  let podAffinity :=
    {| v1.AntiRequiredDuringSchedulingIgnoredDuringExecution :=
         [ {| v1.MatchLabels := Some {[ LabelKeyProvider pkg := providerName ]};
              v1.TopologyKey := metav1.LabelHostname |} ] |} in
  let t := true in
  {| extensions.Meta :=
       {| metav1.Name := lbName lb +:+ providerNameSuffix +:+ "-" +:+ suffix;
          metav1.Namespace := "";
          metav1.UID := "";
          metav1.Labels := Some labels;
          metav1.OwnerReferences :=
            [ {| metav1.APIVersion := controllerKind.1;
                 metav1.Kind := controllerKind.2;
                 metav1.OwnerName := lbName lb;
                 metav1.OwnerUID := lbUID lb;
                 metav1.Controller := Some t;
                 metav1.BlockOwnerDeletion := Some t |} ];
          metav1.DeletionTimestamp := None |};
     extensions.Spec :=
       {| extensions.Replicas := Some replicas;
          extensions.Template :=
            {| v1.TemplateMeta :=
                 {| metav1.Name := "";
                    metav1.Namespace := "";
                    metav1.UID := "";
                    metav1.Labels := Some labels;
                    metav1.OwnerReferences := [];
                    metav1.DeletionTimestamp := None |};
               v1.TemplateSpec :=
                 {| v1.HostNetwork := hostNetwork;
                    v1.TerminationGracePeriodSeconds := Some terminationGracePeriodSeconds;
                    v1.Affinity_ := Some
                      {| v1.NodeAffinity_ := Some nodeAffinity;
                         v1.PodAntiAffinity_ := Some podAffinity |};
                    v1.Tolerations := GenerateTolerations pkg;
                    v1.Containers :=
                      [ {| v1.ContainerName := providerName;
                           v1.Image := image f;
                           v1.ImagePullPolicy := v1.PullAlways;
                           v1.Limits := [ (v1.ResourceCPU, "200m");
                                          (v1.ResourceMemory, "50Mi") ];
                           v1.Privileged := Some privileged;
                           v1.Env :=
                             [ {| v1.EnvName := "POD_NAME"; v1.Value := "";
                                  v1.FieldPath := Some "metadata.name" |};
                               {| v1.EnvName := "POD_NAMESPACE"; v1.Value := "";
                                  v1.FieldPath := Some "metadata.namespace" |};
                               {| v1.EnvName := "LOADBALANCER_NAMESPACE";
                                  v1.Value := lbNamespace lb; v1.FieldPath := None |};
                               {| v1.EnvName := "LOADBALANCER_NAME";
                                  v1.Value := lbName lb; v1.FieldPath := None |} ];
                           v1.VolumeMounts :=
                             [ {| v1.MountName := "modules";
                                  v1.MountPath := "/lib/modules";
                                  v1.ReadOnly := true |} ] |} ];
                    v1.Volumes :=
                      [ {| v1.VolumeName := "modules";
                           v1.HostPath := Some "/lib/modules" |} ] |} |} |} |}.

Definition generateDeployment (f : ipvsdr) (lb : LoadBalancer) : M loc :=
  let* suffix := rand 5 in
  alloc (desiredDeployment f lb suffix).

(** [copyDp.Labels[k] = v] *)
Definition map_assign (p : loc) (k v : string) : M unit :=
  let* d := load p in
  match dLabels d with
  | Some m => store p (set_Labels (Some (<[k := v]> m)) d)
  | None => panic AssignmentToNilMap
  end.

Definition ensureDeployment (f : ipvsdr) (desiredDeploy oldDeploy : loc)
    : M (loc * bool + Err) :=
  let* copied := DeploymentDeepCopy oldDeploy in
  match copied with
  | inr err => ret (inr err)
  | inl copyDp =>
    (* ensure labels *)
    let* desired := load desiredDeploy in
    let* _ := range_map (dLabels desired) (λ k v, map_assign copyDp k v) in
    (* ensure replicas *)
    let* desired := load desiredDeploy in
    let* _ := assign copyDp (set_Replicas (dReplicas desired)) in
    (* ensure image *)
    let* c := load copyDp in
    let* desired := load desiredDeploy in
    let* c0 := index0 (dContainers c) in
    let* d0 := index0 (dContainers desired) in
    let* _ := store copyDp (set_Containers (set_Image (v1.Image d0) c0 :: tail (dContainers c)) c) in
    (* ensure nodeaffinity *)
    let* c := load copyDp in
    let* ca := deref (dAffinity c) in
    let* desired := load desiredDeploy in
    let* da := deref (dAffinity desired) in
    let* _ := store copyDp (set_Affinity (Some (set_NodeAffinity (v1.NodeAffinity_ da) ca)) c) in
    (* check if changed *)
    let* c := load copyDp in
    let* old := load oldDeploy in
    let* ca := deref (dAffinity c) in
    let* oa := deref (dAffinity old) in
    let nodeAffinityChanged := negb (bool_decide (v1.NodeAffinity_ ca = v1.NodeAffinity_ oa)) in
    let* c0 := index0 (dContainers c) in
    let* o0 := index0 (dContainers old) in
    let imageChanged := negb (String.eqb (v1.Image c0) (v1.Image o0)) in
    let labelChanged := negb (bool_decide (dLabels c = dLabels old)) in
    let* cr := deref (dReplicas c) in
    let* or := deref (dReplicas old) in
    let replicasChanged := negb (cr =? or) in
    let changed := labelChanged || replicasChanged || nodeAffinityChanged || imageChanged in
    let* _ :=
      if changed then
        log Info "Abount to correct ipvsdr provider"
          [ ("dp.name", dName c);
            ("labelChanged", fmt_bool labelChanged);
            ("replicasChanged", fmt_bool replicasChanged);
            ("nodeAffinityChanged", fmt_bool nodeAffinityChanged);
            ("imageChanged", fmt_bool imageChanged) ]
      else ret tt in
    ret (inl (copyDp, changed))
  end.

(** [strings.HasPrefix(name, lb.Name+providerNameSuffix)] *)
Definition prefixed (lb : LoadBalancer) (name : string) : bool :=
  String.prefix (lbName lb +:+ providerNameSuffix) name.

(** The body of the [for] loop of [sync], run for [dp]. *)
Definition sync_body (f : ipvsdr) (lb : LoadBalancer) (desiredDeploy : loc)
    (dp : loc) (updated : bool) (activeDeploy : loc) : M Flow :=
  let* d := load dp in
  (* two conditions will trigger controller to scale down deployment
     1. deployment does not have auto-generated prefix
     2. if there are more than one active controllers, there may be many
        valid deployments.  But we only need one. *)
  if negb (prefixed lb (dName d)) || updated then
    let* replicas := deref (dReplicas d) in
    if replicas =? 0 then
      ret (Next updated activeDeploy)
    else
      (* scale unexpected deployment replicas to zero *)
      let* _ := log Info "Scale unexpected provider replicas to zero"
                    [("d.name", dName d); ("lb.name", lbName lb)] in
      let* copied := DeploymentDeepCopy dp in
      let* copy := match copied with
                   | inl c => ret c
                   | inr _ => panic NilPointerDereference
                   end in
      let replica := 0 in
      let* _ := assign copy (set_Replicas (Some replica)) in
      let* _ := Update (client f) (lbNamespace lb) copy in
      ret (Next updated activeDeploy)
  else
    let updated := true in
    let* ensured := ensureDeployment f desiredDeploy dp in
    match ensured with
    | inr _ => ret (Next updated activeDeploy)
    | inl (copyDp, changed) =>
      let* err :=
        if changed then
          let* _ := log Info "Sync ipvsdr for lb"
                        [("d.name", dName d); ("lb.name", lbName lb)] in
          Update (client f) (lbNamespace lb) copyDp
        else ret None in
      match err with
      | Some e => ret (Return (Some e))
      | None =>
        let activeDeploy := copyDp in
        ret (Next updated activeDeploy)
      end
    end.

(** The [for] loop of [sync]: the body runs for each element in list
    order until one iteration returns. *)
Fixpoint sync_loop (f : ipvsdr) (lb : LoadBalancer) (desiredDeploy : loc)
    (dps : list loc) (updated : bool) (activeDeploy : loc) : M Flow :=
  match dps with
  | [] => ret (Next updated activeDeploy)
  | dp :: dps =>
    let* flow := sync_body f lb desiredDeploy dp updated activeDeploy in
    match flow with
    | Return err => ret (Return err)
    | Next updated activeDeploy => sync_loop f lb desiredDeploy dps updated activeDeploy
    end
  end.

(** sync generate desired deployment from lb and compare it with existing
    deployment *)
Definition sync (f : ipvsdr) (lb : LoadBalancer) (dps : list loc) : M error :=
  let* desiredDeploy := generateDeployment f lb in
  (* update *)
  let* flow := sync_loop f lb desiredDeploy dps false desiredDeploy in
  match flow with
  | Return err => ret err
  | Next updated activeDeploy =>
    (* len(dps) == 0 or no deployment's name match desired deployment *)
    let* err :=
      if negb updated then
        (* create deployment *)
        let* desired := load desiredDeploy in
        let* _ := log Info "Create ipvsdr for lb"
                      [("d.name", dName desired); ("lb.name", lbName lb)] in
        Create (client f) (lbNamespace lb) desiredDeploy
      else ret None in
    match err with
    | Some e => ret (Some e)
    | None => syncStatus f lb activeDeploy
    end
  end.

(** cleanup deployment and other resource controlled by ipvsdr provider *)
Definition cleanup (f : ipvsdr) (lb : LoadBalancer) : M error :=
  let* claimed := getDeploymentsForLoadBalancer f lb in
  match claimed with
  | (_, Some err) => ret (Some err)
  | (ds, None) =>
    let policy := metav1.DeletePropagationForeground in
    let gracePeriodSeconds := 30 in
    let* _ := for_each ds (λ d,
      let* dv := load d in
      let* _ := Delete (client f) (dNamespace dv) (dName dv)
                  {| metav1.GracePeriodSeconds := Some gracePeriodSeconds;
                     metav1.PropagationPolicy := Some policy |} in
      ret tt) in
    ret None
  end.

(** [utilruntime.HandleError] *)
Definition HandleError (e : Err) : M unit := log ErrorLevel (Error e) [].

Definition syncLoadBalancer (f : ipvsdr) (obj : Obj) : M error :=
  match obj with
  | OtherObj repr => ret (Some (PlainError ("expect loadbalancer, got " +:+ repr)))
  | LoadBalancerObj lb =>
    (* Validate loadbalancer scheme *)
    match ValidateLoadBalancer pkg lb with
    | Some err =>
      let* _ := log Debug "invalid loadbalancer scheme" [("err", Error err)] in
      ret (Some err)
    | None =>
      let key := (KeyFunc pkg lb).1 in
      defer (log Debug "Finished syncing ipvsdr provider" [("lb", key)])
        (let* got := (λ w, Ret (Get (lbLister f) (lbNamespace lb) (lbName lb) w) w) in
         match got with
         | inr err =>
           if IsNotFound err then
             let* _ := log Warn "LoadBalancer has been deleted, clean up provider"
                           [("lb", key)] in
             cleanup f lb
           else
             let* _ := HandleError (PlainError
               ("Unable to retrieve LoadBalancer " +:+ key +:+ " from store: " +:+ Error err)) in
             ret (Some err)
         | inl nlb =>
           (* fresh lb *)
           if negb (String.eqb (lbUID lb) (lbUID nlb)) then ret None
           else
             let lb := nlb in
             let* claimed := getDeploymentsForLoadBalancer f lb in
             match claimed with
             | (_, Some err) => ret (Some err)
             | (ds, None) =>
               match metav1.DeletionTimestamp (netv1alpha1.Meta lb) with
               | Some _ =>
                 (* TODO sync status only *)
                 ret None
               | None => sync f lb ds
               end
             end
         end)
    end
  end.

(** Modelled from the spec: the worker of [controllerutil.Helper], which is
    not among the sources at hand.  "State machine per dequeued key,
    terminal outcomes are "requeue with backoff" (on error) or "done"
    (success, including no-op)".  The worker takes the first pending item,
    runs [syncLoadBalancer] on it and, when that returns an error, puts
    the item back into the queue. *)
Definition processNextWorkItem (f : ipvsdr) : M bool :=
  λ w, match queue w with
       | [] => Ret false w
       | lb :: pending =>
         match syncLoadBalancer f (LoadBalancerObj lb) (with_queue (λ _, pending) w) with
         | Ret (Some _) w' => Ret true (world_of (Enqueue lb w'))
         | Ret None w' => Ret true w'
         | Panic k w' => Panic k w'
         end
       end.

End Provider.

(** ** Concrete values, used to run the definitions *)

Module Demo.

Definition pkg : Imports := {|
  LoadBalancerTypeExternal := "external";
  LoadBalancerKind := "LoadBalancer";
  SchemeGroupVersion := "net.alpha.caicloud.io/v1alpha1";
  LabelKeyCreatedBy := "kubernetes.io/created-by";
  LabelKeyProvider := "loadbalancer.alpha.caicloud.io/provider";
  LabelValueFormatCreateby := λ ns n, "loadbalancer." +:+ ns +:+ "." +:+ n;
  UniqueLabelKeyFormat := λ ns n, "loadbalancer.alpha.caicloud.io/" +:+ ns +:+ "." +:+ n;
  ValidateLoadBalancer := λ lb,
    if String.eqb (lbName lb) "" then Some (PlainError "name is required") else None;
  KeyFunc := λ lb, (lbNamespace lb +:+ "/" +:+ lbName lb, None);
  CalculateReplicas := λ lb, (2, None);
  RandStringBytesRmndr := λ n i, "abcde";
  GenerateTolerations := [];
  Claim := λ c lb sel dList, ret (dList, None)
|}.

Definition mkLoadBalancer (name type : string)
    (provider : option netv1alpha1.IpvsdrProvider) : LoadBalancer :=
  {| netv1alpha1.Meta :=
       {| metav1.Name := name; metav1.Namespace := "default"; metav1.UID := "uid-1";
          metav1.Labels := None; metav1.OwnerReferences := [];
          metav1.DeletionTimestamp := None |};
     netv1alpha1.Spec :=
       {| netv1alpha1.Type_ := type;
          netv1alpha1.Providers := {| netv1alpha1.Ipvsdr := provider |} |} |}.

Definition vip : netv1alpha1.IpvsdrProvider :=
  {| netv1alpha1.Vip := "10.0.0.1"; netv1alpha1.Scheduler := "rr" |}.

(** An external load balancer served by ipvsdr. *)
Definition lb1 : LoadBalancer := mkLoadBalancer "lb1" "external" (Some vip).

(** An internal load balancer with no ipvsdr block. *)
Definition lb_internal : LoadBalancer := mkLoadBalancer "lb2" "internal" None.

(** A load balancer that [ValidateLoadBalancer] of [pkg] rejects. *)
Definition lb_invalid : LoadBalancer := mkLoadBalancer "" "external" (Some vip).

Definition container (image : string) : v1.Container :=
  {| v1.ContainerName := "ipvsdr"; v1.Image := image; v1.ImagePullPolicy := "Always";
     v1.Limits := []; v1.Privileged := Some true; v1.Env := []; v1.VolumeMounts := [] |}.

Definition affinity : v1.Affinity :=
  {| v1.NodeAffinity_ := None; v1.PodAntiAffinity_ := None |}.

Definition mkDeployment (name : string) (labels : option (gmap string string))
    (replicas : option Z) (containers : list v1.Container)
    (aff : option v1.Affinity) : Deployment :=
  {| extensions.Meta :=
       {| metav1.Name := name; metav1.Namespace := "default"; metav1.UID := "";
          metav1.Labels := labels; metav1.OwnerReferences := [];
          metav1.DeletionTimestamp := None |};
     extensions.Spec :=
       {| extensions.Replicas := replicas;
          extensions.Template :=
            {| v1.TemplateMeta :=
                 {| metav1.Name := ""; metav1.Namespace := ""; metav1.UID := "";
                    metav1.Labels := labels; metav1.OwnerReferences := [];
                    metav1.DeletionTimestamp := None |};
               v1.TemplateSpec :=
                 {| v1.HostNetwork := true; v1.TerminationGracePeriodSeconds := None;
                    v1.Affinity_ := aff; v1.Tolerations := [];
                    v1.Containers := containers; v1.Volumes := [] |} |} |} |}.

(** A workload with the generated prefix, one label of its own, an old
    image and three replicas. *)
Definition d_old : Deployment :=
  mkDeployment "lb1-provider-ipvsdr-zzzzz" (Some {[ "team" := "net" ]}) (Some 3)
    [container "ipvsdr:v0"] (Some affinity).

(** A second workload with the generated prefix. *)
Definition d_twin : Deployment :=
  mkDeployment "lb1-provider-ipvsdr-yyyyy" (Some ∅) (Some 1)
    [container "ipvsdr:v0"] (Some affinity).

(** A workload with the generated prefix and no container. *)
Definition d_hollow : Deployment :=
  mkDeployment "lb1-provider-ipvsdr-zzzzz" (Some ∅) (Some 1) [] (Some affinity).

(** A workload without the generated prefix, three replicas. *)
Definition d_stray : Deployment :=
  mkDeployment "stray" (Some ∅) (Some 3) [container "other"] (Some affinity).

(** A stopped workload without the generated prefix, with no container
    and no affinity. *)
Definition d_bare : Deployment := mkDeployment "bare" None (Some 0) [] None.

Definition no_lister : LoadBalancerLister :=
  {| Get := λ _ _ _, inr (StatusError StatusReasonNotFound "not found") |}.

Definition lister_of (ds : list loc) : DeploymentLister :=
  {| ListDeployments := λ _ _ _, (ds, None) |}.

Definition provider (r : list Call → Call → error) (ds : list loc) : ipvsdr :=
  {| initialized := true; image := "ipvsdr:v1"; client := {| reactor := r |};
     lbLister := no_lister; dLister := lister_of ds |}.

(** An API server that accepts every request. *)
Definition accept : list Call → Call → error := λ _ _, None.

(** An API server that rejects every update and every delete. *)
Definition reject_writes : list Call → Call → error := λ _ c,
  match c with
  | UpdateDeployment _ _ => Some (StatusError StatusReasonConflict "conflict")
  | DeleteDeployment _ _ _ => Some (StatusError StatusReasonUnknown "server error")
  | _ => None
  end.

(** A cache that holds [ds] at the addresses 1, 2, ..., in step with the
    API server. *)
Definition world_of_list (ds : list Deployment) : World :=
  {| heap := list_to_map (zip (Pos.of_nat <$> seq 1 (length ds)) ds);
     objects := list_to_map ((λ d, (("default", dName d), d)) <$> ds);
     calls := []; logs := []; queue := []; draws := 0 |}.

(** The cache [world_of_list [d_old]] after [generateDeployment] has put
    the desired deployment for [lb1] at address 2. *)
Definition w_generated : World :=
  world_of (generateDeployment pkg (provider accept []) lb1 (world_of_list [d_old])).

Definition desired : Deployment := desiredDeployment pkg (provider accept []) lb1 "abcde".

End Demo.

(** ** The rest of the provider: event filters, set-up, virtual router ids *)

(** [v1.Pod], as far as the provider looks at it. *)
Record Pod := {
  PodMeta : metav1.ObjectMeta;
  PodSpec_ : v1.PodSpec
}.

(** [metav1.ObjectMetaAccessor]: the interface that [filteredByLabel]
    takes; deployments and pods implement it. *)
Class ObjectMetaAccessor (A : Type) := GetObjectMeta : A → metav1.ObjectMeta.

Global Instance Deployment_ObjectMetaAccessor : ObjectMetaAccessor Deployment :=
  extensions.Meta.
Global Instance Pod_ObjectMetaAccessor : ObjectMetaAccessor Pod := PodMeta.

Definition GetLabels (m : metav1.ObjectMeta) : option (gmap string string) :=
  metav1.Labels m.

(** [s.AsSelector().Matches(labels.Set(ls))] for a set [s] of well-formed
    labels: the selector holds one requirement [key = value] per label of
    [s], and it matches when [ls] has every key with that value.  A nil map
    has no label. *)
Definition Matches (s : gmap string string) (ls : option (gmap string string)) : bool :=
  forallb (λ kv, bool_decide (default ∅ ls !! kv.1 = Some kv.2)) (map_to_list s).

(** [config.Configuration], as far as [Init] reads it. *)
Module config.
Record Configuration := {
  ProvidersIpvsdrImage : string;
  Client : Clientset
}.
End config.

(** [informers.SharedInformerFactory]: the listers that it hands out and the
    event handlers that were added to its deployment informer and to its
    pod informer. *)
Module informers.
Inductive DeploymentEventHandler :=
  | NewEventHandlerForDeployment (lbLister : LoadBalancerLister) (dLister : DeploymentLister)
      (filtered : Deployment → bool).
Inductive PodEventHandler :=
  | NewEventHandlerForSyncStatusWithPod (lbLister : LoadBalancerLister)
      (filtered : Pod → bool).
Record SharedInformerFactory := {
  LoadBalancerLister_ : LoadBalancerLister;
  DeploymentLister_ : DeploymentLister;
  DeploymentHandlers : list DeploymentEventHandler;
  PodHandlers : list PodEventHandler
}.
End informers.

Section Lifecycle.

Context (pkg : Imports).

(** filter Deployment that controller does not care *)
Definition filteredByLabel {A} `{ObjectMetaAccessor A} (obj : A) : bool :=
  (* obj.Labels *)
  let selector : gmap string string := {[ LabelKeyProvider pkg := providerName ]} in
  let match_ := Matches selector (GetLabels (GetObjectMeta obj)) in
  negb match_.

Definition deploymentFiltered (obj : Deployment) : bool := filteredByLabel obj.

Definition podFiltered (obj : Pod) : bool := filteredByLabel obj.

(** [Init] changes the provider behind its pointer and adds event handlers
    to the informers of the factory; the model hands both back.  The work
    queue that [Init] makes is new, and so it is empty.  The fields that
    the record [ipvsdr] does not carry ([tprclient], [podLister], [helper])
    are not written. *)
Definition Init (cfg : config.Configuration) (sif : informers.SharedInformerFactory)
    (f : ipvsdr) : M (ipvsdr * informers.SharedInformerFactory) :=
  if initialized f then ret (f, sif)
  else
    let initialized := true in
    let* _ := log Info "Initialize the ipvsdr provider" [] in
    (* set config *)
    let image := config.ProvidersIpvsdrImage cfg in
    let client := config.Client cfg in
    (* initialize controller *)
    let lbLister := informers.LoadBalancerLister_ sif in
    let dLister := informers.DeploymentLister_ sif in
    let* _ := (λ w, Ret tt (with_queue (λ _, []) w)) in
    let f := {| initialized := initialized; image := image; client := client;
                lbLister := lbLister; dLister := dLister |} in
    ret (f,
         {| informers.LoadBalancerLister_ := informers.LoadBalancerLister_ sif;
            informers.DeploymentLister_ := informers.DeploymentLister_ sif;
            informers.DeploymentHandlers :=
              informers.DeploymentHandlers sif
              ++ [informers.NewEventHandlerForDeployment lbLister dLister deploymentFiltered];
            informers.PodHandlers :=
              informers.PodHandlers sif
              ++ [informers.NewEventHandlerForSyncStatusWithPod lbLister podFiltered] |}).

End Lifecycle.

Section Rand.

(** The shared generator of [math/rand]: [Uint64 i] is the [i]-th 64-bit
    value that it produces. *)
Context (Uint64 : nat → Z).

(** [Rand.Int63]: the next value of the generator without its top
    bit. *)
Definition Int63 : M Z :=
  λ w, Ret (Z.land (Uint64 (draws w)) (2 ^ 63 - 1)) (with_draws S w).

(** [Rand.Int31]: [int32(r.Int63() >> 32)]. *)
Definition Int31 : M Z :=
  let* v := Int63 in
  ret (Z.shiftr v 32).

(** [for v > max { v = next() }]: the loop draws again as long as the
    value is above [max].  Nothing bounds the number of rounds in the Go
    code; [fuel] bounds it here, and [None] says that the fuel ran out. *)
Fixpoint redraw (fuel : nat) (next : M Z) (max v : Z) : M (option Z) :=
  if v >? max then
    match fuel with
    | O => ret None
    | S fuel => let* v := next in redraw fuel next max v
    end
  else ret (Some v).

(** [Rand.Int31n(n)] for a positive [n]. *)
Definition Int31n (fuel : nat) (n : Z) : M (option Z) :=
  if Z.land n (n - 1) =? 0 then
    (* n is power of two, can mask *)
    let* v := Int31 in
    ret (Some (Z.land v (n - 1)))
  else
    let max := 2 ^ 31 - 1 - 2 ^ 31 mod n in
    let* v := Int31 in
    let* v := redraw fuel Int31 max v in
    ret ((λ v, Z.rem v n) <$> v).

(** [Rand.Int63n(n)] for a positive [n]. *)
Definition Int63n (fuel : nat) (n : Z) : M (option Z) :=
  if Z.land n (n - 1) =? 0 then
    (* n is power of two, can mask *)
    let* v := Int63 in
    ret (Some (Z.land v (n - 1)))
  else
    let max := 2 ^ 63 - 1 - 2 ^ 63 mod n in
    let* v := Int63 in
    let* v := redraw fuel Int63 max v in
    ret ((λ v, Z.rem v n) <$> v).

(** [rand.Intn(n)] for a positive [n], the only way the provider calls
    it. *)
Definition Intn (fuel : nat) (n : positive) : M (option Z) :=
  if Z.pos n <=? 2 ^ 31 - 1 then Int31n fuel (Z.pos n)
  else Int63n fuel (Z.pos n).

Definition getValidVRID (fuel : nat) (f : ipvsdr) : M (option Z) :=
  let* r := Intn fuel 254 in
  ret ((λ r, r + 1) <$> r).

End Rand.

(** ** More concrete values *)

Module Cases.

(** The cache of load balancers holds [lb]. *)
Definition lister_with (lb : LoadBalancer) : LoadBalancerLister :=
  {| Get := λ _ _ _, inl lb |}.

(** The cache of load balancers cannot be read. *)
Definition broken_lister : LoadBalancerLister :=
  {| Get := λ _ _ _, inr (PlainError "cache is down") |}.

(** The cache of deployments cannot be listed. *)
Definition broken_list : DeploymentLister :=
  {| ListDeployments := λ _ _ _, ([], Some (PlainError "list failed")) |}.

Definition provider_with (lbs : LoadBalancerLister) (ds : DeploymentLister)
    (r : list Call → Call → error) : ipvsdr :=
  {| initialized := true; image := "ipvsdr:v1"; client := {| reactor := r |};
     lbLister := lbs; dLister := ds |}.

(** [Demo.lb1] after it was deleted and made again under the same name. *)
Definition lb1_remade : LoadBalancer :=
  {| netv1alpha1.Meta :=
       {| metav1.Name := "lb1"; metav1.Namespace := "default"; metav1.UID := "uid-2";
          metav1.Labels := None; metav1.OwnerReferences := [];
          metav1.DeletionTimestamp := None |};
     netv1alpha1.Spec := netv1alpha1.Spec Demo.lb1 |}.

(** [Demo.lb1] while it is being deleted. *)
Definition lb1_terminating : LoadBalancer :=
  {| netv1alpha1.Meta :=
       {| metav1.Name := "lb1"; metav1.Namespace := "default"; metav1.UID := "uid-1";
          metav1.Labels := None; metav1.OwnerReferences := [];
          metav1.DeletionTimestamp := Some 1501545600 |};
     netv1alpha1.Spec := netv1alpha1.Spec Demo.lb1 |}.

(** An API server that rejects every create. *)
Definition reject_creates : list Call → Call → error := λ _ c,
  match c with
  | CreateDeployment _ _ => Some (StatusError StatusReasonUnknown "quota exceeded")
  | _ => None
  end.

(** A generator whose first value is the largest there is and whose later
    values have 5 in their upper half. *)
Definition source (i : nat) : Z :=
  match i with
  | O => 2 ^ 64 - 1
  | S _ => Z.shiftl 5 32
  end.

Definition new_provider : ipvsdr :=
  {| initialized := false; image := ""; client := {| reactor := Demo.accept |};
     lbLister := Demo.no_lister; dLister := Demo.lister_of [] |}.

Definition cfg : config.Configuration :=
  {| config.ProvidersIpvsdrImage := "ipvsdr:v1";
     config.Client := {| reactor := Demo.accept |} |}.

Definition sif : informers.SharedInformerFactory :=
  {| informers.LoadBalancerLister_ := lister_with Demo.lb1;
     informers.DeploymentLister_ := Demo.lister_of [];
     informers.DeploymentHandlers := [];
     informers.PodHandlers := [] |}.

End Cases.
(** ** Notions the properties are stated with *)

(** The design's reading of "not this provider's responsibility": the type
    of the load balancer or its provider block excludes ipvsdr. *)
Definition spec_excludes_provider (pkg : Imports) (lb : LoadBalancer) : Prop :=
  netv1alpha1.Type_ (netv1alpha1.Spec lb) ≠ LoadBalancerTypeExternal pkg
  ∨ netv1alpha1.Ipvsdr (netv1alpha1.Providers (netv1alpha1.Spec lb)) = None.

(** The delete that [cleanup] issues for a claimed workload. *)
Definition cleanup_call (d : Deployment) : Call :=
  DeleteDeployment (dNamespace d) (dName d)
    {| metav1.GracePeriodSeconds := Some 30;
       metav1.PropagationPolicy := Some metav1.DeletePropagationForeground |}.

(** The body of the loop of [cleanup]. *)
Definition cleanup_body (c : Clientset) (d : loc) : M unit :=
  let* dv := load d in
  let* _ := Delete c (dNamespace dv) (dName dv)
              {| metav1.GracePeriodSeconds := Some 30;
                 metav1.PropagationPolicy := Some metav1.DeletePropagationForeground |} in
  ret tt.

(** The precondition of a converge pass on a claimed deployment: the
    replicas pointer is set, there is a container, the affinity is set. *)
Definition well_formed (d : Deployment) : Prop :=
  is_Some (dReplicas d) ∧ dContainers d ≠ [] ∧ is_Some (dAffinity d).

(** [copyDp.Labels[k] = v] can run for every label of [desired]: the label
    map of [old] is not nil, or there is no label to write. *)
Definition labels_assignable (desired old : Deployment) : Prop :=
  is_Some (dLabels old) ∨ default ∅ (dLabels desired) = ∅.

(** The merge of [ensureDeployment] in closed form, field by field. *)
Definition merged_labels (desired old : Deployment) : option (gmap string string) :=
  match dLabels old with
  | Some lo => Some (default ∅ (dLabels desired) ∪ lo)
  | None => None
  end.

Definition merged_containers (desired old : Deployment) : list v1.Container :=
  match dContainers old, dContainers desired with
  | c0 :: tl, d0 :: _ => set_Image (v1.Image d0) c0 :: tl
  | cs, _ => cs
  end.

Definition merged_affinity (desired old : Deployment) : option v1.Affinity :=
  match dAffinity old, dAffinity desired with
  | Some a, Some da => Some (set_NodeAffinity (v1.NodeAffinity_ da) a)
  | a, _ => a
  end.

Definition merged (desired old : Deployment) : Deployment :=
  set_Affinity (merged_affinity desired old)
    (set_Containers (merged_containers desired old)
       (set_Replicas (dReplicas desired)
          (set_Labels (merged_labels desired old) old))).

(** The four comparisons of [ensureDeployment] between the merged copy [c]
    and the original [old]. *)
Definition labelChanged (c old : Deployment) : bool :=
  negb (bool_decide (dLabels c = dLabels old)).
Definition replicasChanged (c old : Deployment) : bool :=
  negb (bool_decide (dReplicas c = dReplicas old)).
Definition nodeAffinityChanged (c old : Deployment) : bool :=
  negb (bool_decide (v1.NodeAffinity_ <$> dAffinity c = v1.NodeAffinity_ <$> dAffinity old)).
Definition imageChanged (c old : Deployment) : bool :=
  negb (bool_decide (v1.Image <$> head (dContainers c) = v1.Image <$> head (dContainers old))).

Definition changed_between (c old : Deployment) : bool :=
  labelChanged c old || replicasChanged c old || nodeAffinityChanged c old
  || imageChanged c old.

(** What [ensureDeployment] logs when it has merged [old] into [c]. *)
Definition announcement (c old : Deployment) : list LogRecord :=
  if changed_between c old then
    [ {| level := Info; msg := "Abount to correct ipvsdr provider";
         fields :=
           [ ("dp.name", dName c);
             ("labelChanged", fmt_bool (labelChanged c old));
             ("replicasChanged", fmt_bool (replicasChanged c old));
             ("nodeAffinityChanged", fmt_bool (nodeAffinityChanged c old));
             ("imageChanged", fmt_bool (imageChanged c old)) ] |} ]
  else [].

(** [keeps h0 m Q]: run in a world where the cells [h0] hold what they held
    when the pass began, [m] leaves them so, whether it returns or panics,
    and a value it returns satisfies [Q]. *)
Definition keeps {A} (h0 : gmap loc Deployment) (m : M A) (Q : A → Prop) : Prop :=
  ∀ w, h0 ⊆ heap w →
    h0 ⊆ heap (world_of (m w)) ∧ ∀ a w', m w = Ret a w' → Q a.

(** What [ensureDeployment] needs to run through. *)
Definition mergeable (desired old : Deployment) : Prop :=
  well_formed desired ∧ well_formed old ∧ labels_assignable desired old.

(** The world after the API server has answered [call] with [err]: the call
    is on record, and [store] is applied to the objects when it was
    accepted. *)
Definition answered (call : Call) (err : error)
    (store : gmap (string * string) Deployment → gmap (string * string) Deployment)
    (w : World) : World :=
  with_objects (λ o, match err with None => store o | Some _ => o end)
    (with_calls (λ l, l ++ [call]) w).

(** The client accepts every request that the API server can serve. *)
Definition accepting (c : Clientset) : Prop := ∀ history call, reactor c history call = None.

(** The log records of [sync] for a workload [d] of [lb]. *)
Definition scale_record (lb : LoadBalancer) (d : Deployment) : LogRecord :=
  {| level := Info; msg := "Scale unexpected provider replicas to zero";
     fields := [("d.name", dName d); ("lb.name", lbName lb)] |}.

Definition sync_record (lb : LoadBalancer) (d : Deployment) : LogRecord :=
  {| level := Info; msg := "Sync ipvsdr for lb";
     fields := [("d.name", dName d); ("lb.name", lbName lb)] |}.

Definition create_record (lb : LoadBalancer) (d : Deployment) : LogRecord :=
  {| level := Info; msg := "Create ipvsdr for lb";
     fields := [("d.name", dName d); ("lb.name", lbName lb)] |}.

(** What makes the loop of [sync] panic at a workload [d] that it reaches
    with the loop variable [updated]: a workload that is not the target
    needs its replicas pointer, the target needs all of [well_formed]. *)
Definition unfit (lb : LoadBalancer) (updated : bool) (d : Deployment) : Prop :=
  if negb (prefixed lb (dName d)) || updated then dReplicas d = None
  else ¬ well_formed d.

(** The cache holds the deployments [ds] at the addresses [dps]. *)
Definition cached (w : World) (dps : list loc) (ds : list Deployment) : Prop :=
  Forall2 (λ p d, heap w !! p = Some d) dps ds.

(** The statements of [sync] after the loop. *)
Definition sync_finish (f : ipvsdr) (lb : LoadBalancer) (desiredDeploy : loc)
    (updated : bool) (activeDeploy : loc) : M error :=
  let* err :=
    if negb updated then
      let* desired := load desiredDeploy in
      let* _ := log Info "Create ipvsdr for lb"
                    [("d.name", dName desired); ("lb.name", lbName lb)] in
      Create (client f) (lbNamespace lb) desiredDeploy
    else ret None in
  match err with
  | Some e => ret (Some e)
  | None => syncStatus f lb activeDeploy
  end.

(** A claimed deployment that a pass can work on: well formed, with a label
    map. *)
Definition sound (d : Deployment) : Prop := well_formed d ∧ is_Some (dLabels d).

(** The claimed deployments [ds] are in step with the API server: their
    names differ, and the API server stores each of them as the cache has
    it. *)
Definition in_step (namespace : string) (w : World) (ds : list Deployment) : Prop :=
  NoDup (dName <$> ds)
  ∧ Forall (λ d, objects w !! (namespace, dName d) = Some d) ds.

(** The name that [generateDeployment] gives the desired deployment in [w]. *)
Definition generated_name (pkg : Imports) (f : ipvsdr) (lb : LoadBalancer) (w : World)
    : string :=
  dName (desiredDeployment pkg f lb (RandStringBytesRmndr pkg 5 (draws w))).

(** The name of the workload that a pass over [ds] selects: the first name
    with the generated prefix, or the generated name when there is none. *)
Definition active_name (pkg : Imports) (f : ipvsdr) (lb : LoadBalancer) (w : World)
    (ds : list Deployment) : string :=
  match find (prefixed lb) (dName <$> ds) with
  | Some n => n
  | None => generated_name pkg f lb w
  end.

(** The loop of [sync] on values, for an API server that accepts every
    request: what each claimed workload is afterwards, and the updates that
    are sent. *)
Fixpoint converged (lb : LoadBalancer) (desired : Deployment) (ds : list Deployment)
    (updated : bool) : list Deployment :=
  match ds with
  | [] => []
  | d :: ds =>
    if negb (prefixed lb (dName d)) || updated then
      (if bool_decide (dReplicas d = Some 0) then d else set_Replicas (Some 0) d)
      :: converged lb desired ds updated
    else merged desired d :: converged lb desired ds true
  end.

Fixpoint requested (lb : LoadBalancer) (desired : Deployment) (ds : list Deployment)
    (updated : bool) : list Call :=
  match ds with
  | [] => []
  | d :: ds =>
    if negb (prefixed lb (dName d)) || updated then
      (if bool_decide (dReplicas d = Some 0) then []
       else [UpdateDeployment (lbNamespace lb) (set_Replicas (Some 0) d)])
      ++ requested lb desired ds updated
    else
      (if changed_between (merged desired d) d
       then [UpdateDeployment (lbNamespace lb) (merged desired d)] else [])
      ++ requested lb desired ds true
  end.

(** Storing deployments under their names. *)
Definition put_all (namespace : string) (ds : list Deployment)
    (o : gmap (string * string) Deployment) : gmap (string * string) Deployment :=
  foldl (λ o d, <[(namespace, dName d) := d]> o) o ds.

(** [d] has what [desired] asks for in the four fields that
    [ensureDeployment] merges: the desired labels, the desired replicas, the
    desired image in the first container, the desired node affinity. *)
Definition satisfies (desired d : Deployment) : Prop :=
  (∀ l, dLabels d = Some l → default ∅ (dLabels desired) ∪ l = l)
  ∧ dReplicas d = dReplicas desired
  ∧ v1.Image <$> head (dContainers d) = v1.Image <$> head (dContainers desired)
  ∧ v1.NodeAffinity_ <$> dAffinity d = v1.NodeAffinity_ <$> dAffinity desired.
(** [sends P m]: run in any world, [m] adds requests to the record of the
    API server and takes none away, whether it returns or panics, and every
    request it adds satisfies [P]. *)
Definition sends {A} (P : Call → Prop) (m : M A) : Prop :=
  ∀ w, ∃ sent, calls (world_of (m w)) = calls w ++ sent ∧ Forall P sent.

(** A request that a converge pass for [lb] may make: an update or a create
    of a deployment in the namespace of [lb], or a write of the status of
    [lb]. *)
Definition converge_request (lb : LoadBalancer) (c : Call) : Prop :=
  match c with
  | UpdateDeployment namespace _ => namespace = lbNamespace lb
  | CreateDeployment namespace _ => namespace = lbNamespace lb
  | PatchStatus namespace name _ => namespace = lbNamespace lb ∧ name = lbName lb
  | DeleteDeployment _ _ _ => False
  end.

Definition is_update (c : Call) : Prop :=
  match c with
  | UpdateDeployment _ _ => True
  | _ => False
  end.

(** The record that ends every pass of [syncLoadBalancer] that got past
    validation. *)
Definition finished_record (pkg : Imports) (lb : LoadBalancer) : LogRecord :=
  {| level := Debug; msg := "Finished syncing ipvsdr provider";
     fields := [("lb", (KeyFunc pkg lb).1)] |}.

(** The fields of a deployment that [ensureDeployment] has no business
    with: everything but the labels, the replicas, the image of the first
    container and the node affinity. *)
Definition untouched (d : Deployment) :=
  let m := extensions.Meta d in
  let s := dPodSpec d in
  (metav1.Name m, metav1.Namespace m, metav1.UID m, metav1.OwnerReferences m,
   metav1.DeletionTimestamp m,
   v1.TemplateMeta (extensions.Template (extensions.Spec d)),
   (v1.HostNetwork s, v1.TerminationGracePeriodSeconds s, v1.Tolerations s, v1.Volumes s),
   (set_Image "" <$> head (dContainers d), tail (dContainers d)),
   v1.PodAntiAffinity_ <$> dAffinity d).

(** The requests after the loop of [sync]: nothing, a create, a create and
    a write of the status, or a write of the status. *)
Definition closing (lb : LoadBalancer) (tail : list Call) : Prop :=
  tail = []
  ∨ (∃ d, tail = [CreateDeployment (lbNamespace lb) d])
  ∨ (∃ d a, tail = [CreateDeployment (lbNamespace lb) d;
                    PatchStatus (lbNamespace lb) (lbName lb) a])
  ∨ (∃ a, tail = [PatchStatus (lbNamespace lb) (lbName lb) a]).

(** The value that an outcome returns, if it returns. *)
Definition result {A} (o : Outcome A) : option A :=
  match o with
  | Ret a _ => Some a
  | Panic _ _ => None
  end.

(** [returns m Q]: a value that [m] returns satisfies [Q]. *)
Definition returns {A} (m : M A) (Q : A → Prop) : Prop :=
  ∀ w a w', m w = Ret a w' → Q a.

(** The world in which the loop of [sync] starts: the desired deployment is
    in memory at a new address [q], and one random suffix is drawn. *)
Definition loop_start (pkg : Imports) (f : ipvsdr) (lb : LoadBalancer) (w : World) : World :=
  with_heap (<[fresh (dom (heap w))
               := desiredDeployment pkg f lb (RandStringBytesRmndr pkg 5 (draws w))]>)
    (with_draws S w).

(** As long as no target is found, the loop variables of [sync] are what
    they were. *)
Definition no_target_yet (updated : bool) (activeDeploy : loc) (flow : Flow) : Prop :=
  match flow with
  | Next false a => updated = false ∧ a = activeDeploy
  | _ => True
  end.

(** The 31-bit value that the [i]-th value of the generator gives. *)
Definition draw31 (Uint64 : nat → Z) (i : nat) : Z :=
  Z.shiftr (Z.land (Uint64 i) (2 ^ 63 - 1)) 32.

(** The largest 31-bit value that [rand.Intn(254)] does not draw again
    for. *)
Definition bound254 : Z := 2 ^ 31 - 1 - 2 ^ 31 mod 254.

(** Two worlds that differ in the number of draws at most. *)
Definition same_but_draws (w w' : World) : Prop :=
  heap w' = heap w ∧ objects w' = objects w ∧ calls w' = calls w
  ∧ logs w' = logs w ∧ queue w' = queue w.


(** * Properties *)

(** ** Running monadic code *)

Section Running.

Context {A B : Type}.

Lemma bind_Ret (m : M A) (k : A → M B) w a w' :
  m w = Ret a w' → bind m k w = k a w'.
Proof. intros H. unfold bind. by rewrite H. Qed.

Lemma bind_Panic (m : M A) (k : A → M B) w p w' :
  m w = Panic p w' → bind m k w = Panic p w'.
Proof. intros H. unfold bind. by rewrite H. Qed.

End Running.

Lemma load_Some w p d : heap w !! p = Some d → load p w = Ret d w.
Proof. intros H. unfold load. by rewrite H. Qed.

Lemma load_None w p : heap w !! p = None → load p w = Panic NilPointerDereference w.
Proof. intros H. unfold load. by rewrite H. Qed.

Lemma store_Some w p d d' :
  heap w !! p = Some d' → store p d w = Ret tt (with_heap (<[p := d]>) w).
Proof. intros H. unfold store. by rewrite H. Qed.

Lemma assign_Some w p g d :
  heap w !! p = Some d → assign p g w = Ret tt (with_heap (<[p := g d]>) w).
Proof.
  intros H. unfold assign.
  rewrite (bind_Ret _ _ _ _ _ (load_Some _ _ _ H)).
  by apply store_Some with d.
Qed.

(** A request leaves the memory, the log and the queue alone and records
    itself. *)
Lemma request_spec c call serve w :
  ∃ err w', request c call serve w = Ret err w'
    ∧ heap w' = heap w ∧ logs w' = logs w ∧ queue w' = queue w ∧ draws w' = draws w
    ∧ calls w' = calls w ++ [call].
Proof.
  unfold request. destruct (reactor c (calls w) call) as [e|].
  - by eexists _, _.
  - destruct (serve (objects w)); by eexists _, _.
Qed.

Lemma World_eq w w' :
  heap w = heap w' → objects w = objects w' → calls w = calls w' → logs w = logs w' →
  queue w = queue w' → draws w = draws w' → w = w'.
Proof. destruct w, w'; simpl. by intros -> -> -> -> -> ->. Qed.

Lemma fresh_lookup (h : gmap loc Deployment) : h !! fresh (dom h) = None.
Proof. apply not_elem_of_dom, is_fresh. Qed.

Lemma fresh_ne (h : gmap loc Deployment) p d : h !! p = Some d → fresh (dom h) ≠ p.
Proof. intros H Heq. rewrite <- Heq in H. by rewrite fresh_lookup in H. Qed.

Lemma DeploymentDeepCopy_run w p d :
  heap w !! p = Some d →
  DeploymentDeepCopy p w
  = Ret (inl (fresh (dom (heap w)))) (with_heap (<[fresh (dom (heap w)) := d]>) w).
Proof.
  intros H. unfold DeploymentDeepCopy.
  by rewrite (bind_Ret _ _ _ _ _ (load_Some _ _ _ H)).
Qed.

(** Reading a field after an assignment to a field. *)
Ltac fields :=
  repeat match goal with
  | |- context [dName (set_Labels ?l ?d)] => change (dName (set_Labels l d)) with (dName d)
  | |- context [dName (set_Replicas ?l ?d)] => change (dName (set_Replicas l d)) with (dName d)
  | |- context [dName (set_Containers ?l ?d)] =>
      change (dName (set_Containers l d)) with (dName d)
  | |- context [dName (set_Affinity ?l ?d)] => change (dName (set_Affinity l d)) with (dName d)
  | |- context [dLabels (set_Labels ?l ?d)] => change (dLabels (set_Labels l d)) with l
  | |- context [dLabels (set_Replicas ?l ?d)] =>
      change (dLabels (set_Replicas l d)) with (dLabels d)
  | |- context [dLabels (set_Containers ?l ?d)] =>
      change (dLabels (set_Containers l d)) with (dLabels d)
  | |- context [dLabels (set_Affinity ?l ?d)] =>
      change (dLabels (set_Affinity l d)) with (dLabels d)
  | |- context [dReplicas (set_Labels ?l ?d)] =>
      change (dReplicas (set_Labels l d)) with (dReplicas d)
  | |- context [dReplicas (set_Replicas ?l ?d)] => change (dReplicas (set_Replicas l d)) with l
  | |- context [dReplicas (set_Containers ?l ?d)] =>
      change (dReplicas (set_Containers l d)) with (dReplicas d)
  | |- context [dReplicas (set_Affinity ?l ?d)] =>
      change (dReplicas (set_Affinity l d)) with (dReplicas d)
  | |- context [dContainers (set_Labels ?l ?d)] =>
      change (dContainers (set_Labels l d)) with (dContainers d)
  | |- context [dContainers (set_Replicas ?l ?d)] =>
      change (dContainers (set_Replicas l d)) with (dContainers d)
  | |- context [dContainers (set_Containers ?l ?d)] =>
      change (dContainers (set_Containers l d)) with l
  | |- context [dContainers (set_Affinity ?l ?d)] =>
      change (dContainers (set_Affinity l d)) with (dContainers d)
  | |- context [dAffinity (set_Labels ?l ?d)] =>
      change (dAffinity (set_Labels l d)) with (dAffinity d)
  | |- context [dAffinity (set_Replicas ?l ?d)] =>
      change (dAffinity (set_Replicas l d)) with (dAffinity d)
  | |- context [dAffinity (set_Containers ?l ?d)] =>
      change (dAffinity (set_Containers l d)) with (dAffinity d)
  | |- context [dAffinity (set_Affinity ?l ?d)] => change (dAffinity (set_Affinity l d)) with l
  end.

(** Lookups in a memory built by insertions. *)
Ltac lookup :=
  cbn [heap objects calls logs queue draws with_heap with_objects with_calls with_logs
       with_queue with_draws];
  repeat first
    [ rewrite lookup_insert_eq; reflexivity
    | rewrite lookup_insert_ne by (done || congruence)
    | eassumption ].

(** One step of a run whose result is known. *)
Ltac run :=
  erewrite bind_Ret;
  [| first [ apply load_Some; lookup
           | eapply store_Some; lookup
           | eapply assign_Some; lookup
           | reflexivity ] ].

(** ** The merge of [ensureDeployment] *)

Lemma set_Labels_id d : set_Labels (dLabels d) d = d.
Proof. by destruct d as [[] ?]. Qed.

Lemma insert_fold_union (l : list (string * string)) : ∀ (m : gmap string string),
  NoDup l.*1 →
  foldl (λ acc kv, <[kv.1 := kv.2]> acc) m l = list_to_map l ∪ m.
Proof.
  induction l as [|[k v] l IH]; intros m Hnd; simpl.
  - by rewrite (left_id_L ∅ (∪)).
  - apply NoDup_cons in Hnd as [Hk Hnd]. rewrite IH by done.
    rewrite <- insert_union_l, <- insert_union_r; [done|].
    by apply not_elem_of_list_to_map_1.
Qed.

Lemma label_loop_Some c (l : list (string * string)) : ∀ w d lo,
  heap w !! c = Some d → dLabels d = Some lo →
  for_each l (λ kv, map_assign c kv.1 kv.2) w
  = Ret tt (with_heap
      (<[c := set_Labels (Some (foldl (λ acc kv, <[kv.1 := kv.2]> acc) lo l)) d]>) w).
Proof.
  induction l as [|[k v] l IH]; intros w d lo Hc Hl; simpl.
  - unfold ret. f_equal. apply World_eq; try done. simpl.
    rewrite <- Hl, set_Labels_id. by rewrite insert_id.
  - assert (Hstep : map_assign c k v w
      = Ret tt (with_heap (<[c := set_Labels (Some (<[k := v]> lo)) d]>) w)).
    { unfold map_assign. rewrite (bind_Ret _ _ _ _ _ (load_Some _ _ _ Hc)), Hl.
      by apply store_Some with d. }
    rewrite (bind_Ret _ _ _ _ _ Hstep).
    erewrite IH; [|simpl; apply lookup_insert_eq|reflexivity].
    f_equal. apply World_eq; try done. simpl. by rewrite insert_insert_eq.
Qed.

(** The loop over the desired labels leaves the union of both label maps
    in the copy. *)
Lemma label_loop_run c desired d w :
  heap w !! c = Some d → labels_assignable desired d →
  range_map (dLabels desired) (λ k v, map_assign c k v) w
  = Ret tt (with_heap (<[c := set_Labels (merged_labels desired d) d]>) w).
Proof.
  intros Hc Hassign. unfold range_map, merged_labels.
  destruct (dLabels d) as [lo|] eqn:Hl.
  - erewrite label_loop_Some by done.
    by rewrite insert_fold_union, list_to_map_to_list by apply NoDup_fst_map_to_list.
  - destruct Hassign as [[x Hx]|Hempty]; [congruence|].
    rewrite Hempty, map_to_list_empty. simpl.
    unfold ret. f_equal. apply World_eq; try done. simpl.
    rewrite <- Hl, set_Labels_id. by rewrite insert_id.
Qed.

(** Writing a label into the nil map panics. *)
Lemma label_loop_panic c desired d w :
  heap w !! c = Some d → dLabels d = None → default ∅ (dLabels desired) ≠ ∅ →
  range_map (dLabels desired) (λ k v, map_assign c k v) w = Panic AssignmentToNilMap w.
Proof.
  intros Hc Hl Hne. unfold range_map.
  destruct (map_to_list (default ∅ (dLabels desired))) as [|[k v] l] eqn:El.
  - by apply map_to_list_empty_iff in El.
  - simpl. apply bind_Panic. unfold map_assign.
    by rewrite (bind_Ret _ _ _ _ _ (load_Some _ _ _ Hc)), Hl.
Qed.

Lemma bool_decide_Some_Z (x y : Z) : bool_decide (Some x = Some y) = (x =? y).
Proof.
  case_bool_decide; simplify_eq; [by rewrite Z.eqb_refl|].
  symmetry. apply Z.eqb_neq. congruence.
Qed.

Lemma bool_decide_Some_string (x y : string) :
  bool_decide (Some x = Some y) = String.eqb x y.
Proof.
  case_bool_decide; simplify_eq; [by rewrite String.eqb_refl|].
  symmetry. apply String.eqb_neq. congruence.
Qed.

(** [ensureDeployment] on well-formed deployments: the copy is a new cell
    that holds the merge, the original is not written, and the flag is the
    comparison of the two. *)
Lemma ensureDeployment_run f q p w desired old :
  heap w !! q = Some desired → heap w !! p = Some old →
  well_formed desired → well_formed old → labels_assignable desired old →
  ensureDeployment f q p w
  = Ret (inl (fresh (dom (heap w)), changed_between (merged desired old) old))
      (with_logs (λ l, l ++ announcement (merged desired old) old)
         (with_heap (<[fresh (dom (heap w)) := merged desired old]>) w)).
Proof.
  intros Hq Hp [[rd Hrd] [Hcd [da Hda]]] [[r Hr] [Hco [a Ha]]] Hlo.
  set (c := fresh (dom (heap w))). set (m := merged desired old).
  destruct (dContainers desired) as [|d0 tld] eqn:Ecd; [done|].
  destruct (dContainers old) as [|c0 tl] eqn:Eco; [done|].
  assert (Hcq : c ≠ q) by (by eapply fresh_ne).
  assert (Hcp : c ≠ p) by (by eapply fresh_ne).
  assert (Hm : m = set_Affinity (Some (set_NodeAffinity (v1.NodeAffinity_ da) a))
                    (set_Containers (set_Image (v1.Image d0) c0 :: tl)
                       (set_Replicas (Some rd)
                          (set_Labels (merged_labels desired old) old)))).
  { unfold m, merged, merged_affinity, merged_containers.
    by rewrite Ha, Hda, Eco, Ecd, Hrd. }
  unfold ensureDeployment.
  rewrite (bind_Ret _ _ _ _ _ (DeploymentDeepCopy_run _ _ _ Hp)). fold c.
  run.
  erewrite bind_Ret; [|eapply label_loop_run; [lookup|exact Hlo]].
  run. run. run. run. fields. rewrite Eco, Ecd, Hrd. cbn [index0 tail]. run. run. run.
  run. fields. rewrite Ha. cbn [deref]. run. run. rewrite Hda. cbn [deref]. run. run.
  run. run. fields. cbn [deref]. run. rewrite Ha. cbn [deref]. run.
  cbn [index0]. run. rewrite Eco. cbn [index0]. run. run. rewrite Hr. cbn [deref]. run.
  rewrite <- Hm.
  assert (Hna : bool_decide (v1.NodeAffinity_ (set_NodeAffinity (v1.NodeAffinity_ da) a)
                             = v1.NodeAffinity_ a)
                = negb (nodeAffinityChanged m old)).
  { unfold nodeAffinityChanged. rewrite negb_involutive, Hm. fields. rewrite Ha. simpl.
    apply bool_decide_ext. split; [by intros ->|by intros [=]]. }
  assert (Him : (v1.Image (set_Image (v1.Image d0) c0) =? v1.Image c0)%string
                = negb (imageChanged m old)).
  { unfold imageChanged. rewrite negb_involutive, Hm. fields. rewrite Eco. simpl.
    symmetry. apply bool_decide_Some_string. }
  assert (Hre : (rd =? r) = negb (replicasChanged m old)).
  { unfold replicasChanged. rewrite negb_involutive, Hm. fields. rewrite Hr.
    symmetry. apply bool_decide_Some_Z. }
  assert (Hla : negb (bool_decide (merged_labels desired old = dLabels old))
                = labelChanged m old) by (by rewrite Hm).
  assert (Hnm : dName old = dName m) by (by rewrite Hm).
  rewrite Hna, Him, Hre, Hla, Hnm, !negb_involutive.
  fold (changed_between m old). unfold announcement.
  destruct (changed_between m old); (erewrite bind_Ret; [|reflexivity]);
    unfold ret; f_equal; apply World_eq; try done; simpl;
    rewrite ?insert_insert_eq, ?app_nil_r; done.
Qed.

(** ** The notification hook *)


Lemma log_grows w w' r : logs w' = logs w ++ [r] → w' ≠ w.
Proof.
  intros H ->. apply (f_equal length) in H. rewrite length_app in H. simpl in H. lia.
Qed.

(** What the code skips: a load balancer that is not external and that has
    an ipvsdr block. *)
Lemma OnSync_skips_iff pkg f lb w :
  OnSync pkg f lb w = Ret tt w
  ↔ netv1alpha1.Type_ (netv1alpha1.Spec lb) ≠ LoadBalancerTypeExternal pkg
    ∧ netv1alpha1.Ipvsdr (netv1alpha1.Providers (netv1alpha1.Spec lb)) ≠ None.
Proof.
  unfold OnSync.
  destruct (String.eqb_spec (netv1alpha1.Type_ (netv1alpha1.Spec lb))
              (LoadBalancerTypeExternal pkg)) as [Ht|Ht]; simpl.
  - split; [|by intros [? _]].
    unfold bind, log, Enqueue; simpl. intros H. exfalso.
    destruct (existsb _ _); simplify_eq/=;
      (eapply log_grows; [|exact H]; reflexivity).
  - case_bool_decide as Hp; simpl.
    + by split.
    + split; [|by intros [_ ?]].
      unfold bind, log, Enqueue; simpl. intros H. exfalso.
      destruct (existsb _ _); simplify_eq/=;
      (eapply log_grows; [|exact H]; reflexivity).
Qed.

(** C5, at a load balancer the claim says is skipped: an internal load
    balancer without an ipvsdr block is excluded by type and by provider
    block, and [OnSync] puts it into the work queue. *)
Theorem OnSync_enqueues_excluded_resource :
  spec_excludes_provider Demo.pkg Demo.lb_internal
  ∧ queue (world_of (OnSync Demo.pkg (Demo.provider Demo.accept []) Demo.lb_internal
                       (Demo.world_of_list []))) = [Demo.lb_internal].
Proof. split; [by right | reflexivity]. Qed.

(** ** Validation failures *)

(** C6, as amended: when validation fails, [syncLoadBalancer] writes one
    debug record and returns the validation error, having read and changed
    nothing else; the worker treats it as any failed pass and puts the item
    back into the queue. *)
Theorem validation_failure_is_returned_and_requeued pkg f lb e w pending :
  ValidateLoadBalancer pkg lb = Some e →
  queue w = lb :: pending →
  syncLoadBalancer pkg f (LoadBalancerObj lb) w
    = Ret (Some e)
        (with_logs (λ l, l ++ [ {| level := Debug; msg := "invalid loadbalancer scheme";
                                   fields := [("err", Error e)] |} ]) w)
  ∧ ∃ w', processNextWorkItem pkg f w = Ret true w'
      ∧ (∃ item, item ∈ queue w' ∧ lbNamespace item = lbNamespace lb ∧ lbName item = lbName lb)
      ∧ objects w' = objects w ∧ calls w' = calls w ∧ heap w' = heap w.
Proof.
  intros Hv Hq.
  assert (Hrun : ∀ w0, syncLoadBalancer pkg f (LoadBalancerObj lb) w0
    = Ret (Some e)
        (with_logs (λ l, l ++ [ {| level := Debug; msg := "invalid loadbalancer scheme";
                                   fields := [("err", Error e)] |} ]) w0)).
  { intros w0. unfold syncLoadBalancer. by rewrite Hv. }
  split; [apply Hrun|].
  unfold processNextWorkItem. rewrite Hq, Hrun. eexists. split; [done|].
  unfold Enqueue; simpl.
  destruct (existsb _ pending) eqn:Hex; simpl.
  - split; [|done]. apply existsb_exists in Hex as (x & Hin & Hx).
    apply bool_decide_eq_true in Hx as [??].
    exists x. by rewrite list_elem_of_In.
  - split; [|done]. exists lb. split; [|done]. set_solver.
Qed.

Lemma validation_failure_is_returned_and_requeued_witness :
  ∃ w', processNextWorkItem Demo.pkg (Demo.provider Demo.accept [])
          (with_queue (λ _, [Demo.lb_invalid]) (Demo.world_of_list [])) = Ret true w'
      ∧ (∃ item, item ∈ queue w' ∧ lbNamespace item = lbNamespace Demo.lb_invalid
                 ∧ lbName item = lbName Demo.lb_invalid).
Proof.
  destruct (validation_failure_is_returned_and_requeued Demo.pkg
              (Demo.provider Demo.accept []) Demo.lb_invalid
              (PlainError "name is required")
              (with_queue (λ _, [Demo.lb_invalid]) (Demo.world_of_list [])) [])
    as [_ (w' & Hrun & Hitem & _)]; [reflexivity | reflexivity |].
  exists w'. by split.
Defined.

(** C6, as stated, fails: the worker is handed a load balancer whose
    validation fails, and afterwards the same item is pending again. *)
Lemma invalid_resource_is_retried :
  ValidateLoadBalancer Demo.pkg Demo.lb_invalid ≠ None
  ∧ queue (world_of (processNextWorkItem Demo.pkg (Demo.provider Demo.accept [])
                       (with_queue (λ _, [Demo.lb_invalid]) (Demo.world_of_list []))))
    = [Demo.lb_invalid].
Proof. split; [done | reflexivity]. Qed.

(** ** Cleanup *)



Lemma cleanup_body_spec c d dv w :
  heap w !! d = Some dv →
  ∃ w', cleanup_body c d w = Ret tt w'
    ∧ heap w' = heap w ∧ logs w' = logs w ∧ calls w' = calls w ++ [cleanup_call dv].
Proof.
  intros Hd. unfold cleanup_body.
  rewrite (bind_Ret _ _ _ _ _ (load_Some _ _ _ Hd)). unfold Delete.
  edestruct request_spec as (err & w1 & Hreq & Hh & Hl & _ & _ & Hc).
  rewrite (bind_Ret _ _ _ _ _ Hreq). by exists w1.
Qed.

Lemma cleanup_loop_spec c (ds : list loc) : ∀ w,
  Forall (λ d, is_Some (heap w !! d)) ds →
  ∃ w', for_each ds (cleanup_body c) w = Ret tt w'
    ∧ heap w' = heap w ∧ logs w' = logs w
    ∧ calls w' = calls w ++ omap (λ d, cleanup_call <$> heap w !! d) ds.
Proof.
  induction ds as [|d ds IH]; intros w Hall.
  - exists w. simpl. by rewrite app_nil_r.
  - apply Forall_cons in Hall as [[dv Hd] Hall]. simpl.
    destruct (cleanup_body_spec c d dv w Hd) as (w1 & Hbody & Hh & Hl & Hc).
    rewrite (bind_Ret _ _ _ _ _ Hbody).
    destruct (IH w1) as (w' & Hrun & Hh' & Hl' & Hc'); [by rewrite Hh|].
    exists w'. split; [done|].
    rewrite Hh', Hl', Hc', Hc, Hh, Hd. simpl. by rewrite <- app_assoc.
Qed.

(** C7, as amended: once the claimed set is derived, [cleanup] sends one
    delete per claimed workload, in list order, each with a grace period of
    30 seconds and foreground propagation; whatever the API server answers
    to any of them, the remaining deletes are sent and [cleanup] returns
    nil. *)
Theorem cleanup_deletes_every_claimed_workload pkg f lb w ds w1 :
  getDeploymentsForLoadBalancer pkg f lb w = Ret (ds, None) w1 →
  Forall (λ d, is_Some (heap w1 !! d)) ds →
  ∃ w2, cleanup pkg f lb w = Ret None w2
    ∧ calls w2 = calls w1 ++ omap (λ d, cleanup_call <$> heap w1 !! d) ds.
Proof.
  intros Hclaim Hds. unfold cleanup.
  rewrite (bind_Ret _ _ _ _ _ Hclaim).
  destruct (cleanup_loop_spec (client f) ds w1 Hds) as (w2 & Hrun & _ & _ & Hc).
  exists w2. fold (cleanup_body (client f)). by rewrite (bind_Ret _ _ _ _ _ Hrun).
Qed.

Lemma cleanup_deletes_every_claimed_workload_witness :
  ∃ w2, cleanup Demo.pkg (Demo.provider Demo.reject_writes [1; 2]%positive) Demo.lb1
          (Demo.world_of_list [Demo.d_stray; Demo.d_old]) = Ret None w2
    ∧ calls w2 = [cleanup_call Demo.d_stray; cleanup_call Demo.d_old].
Proof.
  destruct (cleanup_deletes_every_claimed_workload Demo.pkg
              (Demo.provider Demo.reject_writes [1; 2]%positive) Demo.lb1
              (Demo.world_of_list [Demo.d_stray; Demo.d_old]) [1; 2]%positive
              (Demo.world_of_list [Demo.d_stray; Demo.d_old]))
    as (w2 & Hrun & Hcalls).
  - reflexivity.
  - repeat constructor; by eexists.
  - exists w2. split; [exact Hrun|]. rewrite Hcalls. reflexivity.
Defined.

(** C7, as stated, fails on its last part: the API server rejects both
    deletes, both workloads are still there, and [cleanup] has written no
    log record at all. *)
Lemma cleanup_failed_delete_not_logged :
  let w := Demo.world_of_list [Demo.d_stray; Demo.d_old] in
  let out := cleanup Demo.pkg (Demo.provider Demo.reject_writes [1; 2]%positive) Demo.lb1 w in
  (∃ w', out = Ret None w')
  ∧ calls (world_of out) = [cleanup_call Demo.d_stray; cleanup_call Demo.d_old]
  ∧ Forall (λ c, reactor (client (Demo.provider Demo.reject_writes [])) [] c ≠ None)
      (calls (world_of out))
  ∧ objects (world_of out) = objects w
  ∧ logs (world_of out) = [].
Proof.
  intros w out.
  assert (Hcalls : calls (world_of out) = [cleanup_call Demo.d_stray; cleanup_call Demo.d_old])
    by reflexivity.
  split; [exists (world_of out); reflexivity|]. split; [exact Hcalls|].
  split; [rewrite Hcalls; by repeat constructor|].
  split; reflexivity.
Qed.


Lemma ensureDeployment_panics f q p w desired old :
  heap w !! q = Some desired → heap w !! p = Some old →
  ¬ mergeable desired old →
  is_panic (ensureDeployment f q p w) = true.
Proof.
  intros Hq Hp Hbad.
  set (c := fresh (dom (heap w))).
  assert (Hcq : c ≠ q) by (by eapply fresh_ne).
  assert (Hcp : c ≠ p) by (by eapply fresh_ne).
  unfold ensureDeployment.
  rewrite (bind_Ret _ _ _ _ _ (DeploymentDeepCopy_run _ _ _ Hp)). fold c.
  run.
  destruct (decide (is_Some (dLabels old) ∨ default ∅ (dLabels desired) = ∅)) as [Hlo|Hlo].
  2:{ erewrite bind_Panic; [done|]. eapply label_loop_panic; [lookup| |].
      - destruct (dLabels old) eqn:E; [|done]. destruct Hlo. left. by eexists.
      - intros E. destruct Hlo. by right. }
  erewrite bind_Ret; [|eapply label_loop_run; [lookup|exact Hlo]].
  run. run. run. run. fields.
  destruct (dContainers old) as [|c0 tl] eqn:Eco; [by erewrite bind_Panic|].
  cbn [index0 tail]. run.
  destruct (dContainers desired) as [|d0 tld] eqn:Ecd; [by erewrite bind_Panic|].
  cbn [index0]. run. run. run. fields.
  destruct (dAffinity old) as [a|] eqn:Ha; [|by erewrite bind_Panic].
  cbn [deref]. run. run.
  destruct (dAffinity desired) as [da|] eqn:Hda; [|by erewrite bind_Panic].
  cbn [deref]. run. run. run. run. fields. cbn [deref]. run.
  rewrite Ha. cbn [deref]. run. cbn [index0]. run. rewrite Eco. cbn [index0]. run.
  destruct (dReplicas desired) as [rd|] eqn:Hrd; [|by erewrite bind_Panic].
  cbn [deref]. run.
  destruct (dReplicas old) as [r|] eqn:Hr; [|by erewrite bind_Panic].
  destruct Hbad. repeat split; try done; try (by eexists); congruence.
Qed.

Lemma mergeable_dec desired old : Decision (mergeable desired old).
Proof. unfold mergeable, well_formed, labels_assignable. apply _. Qed.

(** When [ensureDeployment] returns, both deployments were fit for the
    merge. *)
Lemma ensureDeployment_inv f q p w desired old r w' :
  heap w !! q = Some desired → heap w !! p = Some old →
  ensureDeployment f q p w = Ret r w' → mergeable desired old.
Proof.
  intros Hq Hp Hrun. destruct (mergeable_dec desired old) as [H|H]; [done|].
  apply (ensureDeployment_panics f q p w) in H; [|done..]. by rewrite Hrun in H.
Qed.


(** C3: for a well-formed target [old] with label map [lo] and a well-formed
    desired descriptor, [ensureDeployment] returns a copy whose label map is
    the union of the desired labels and [lo]: every desired label is there
    with the desired value, and every other key has what [lo] has for it,
    so a label of [old] that the descriptor does not mention is unchanged. *)
Theorem ensureDeployment_unions_labels f q p w desired old lo :
  heap w !! q = Some desired → heap w !! p = Some old →
  well_formed desired → well_formed old → dLabels old = Some lo →
  ∃ copyDp changed w' m,
    ensureDeployment f q p w = Ret (inl (copyDp, changed)) w'
    ∧ heap w' !! copyDp = Some m
    ∧ dLabels m = Some (default ∅ (dLabels desired) ∪ lo)
    ∧ (∀ k v, default ∅ (dLabels desired) !! k = Some v →
              default ∅ (dLabels m) !! k = Some v)
    ∧ (∀ k, default ∅ (dLabels desired) !! k = None →
            default ∅ (dLabels m) !! k = lo !! k).
Proof.
  intros Hq Hp Hwd Hwo Hlo.
  assert (Hm : dLabels (merged desired old) = Some (default ∅ (dLabels desired) ∪ lo)).
  { unfold merged. fields. unfold merged_labels. by rewrite Hlo. }
  eexists _, _, _, (merged desired old). split.
  { apply ensureDeployment_run; try done. left. by rewrite Hlo. }
  split; [lookup|]. split; [done|]. rewrite Hm. simpl. split.
  - intros k v Hk. by apply lookup_union_Some_l.
  - intros k Hk. by apply lookup_union_r.
Qed.

Lemma ensureDeployment_unions_labels_witness :
  ∃ copyDp changed w' m,
    ensureDeployment (Demo.provider Demo.accept []) 2 1 Demo.w_generated
      = Ret (inl (copyDp, changed)) w'
    ∧ heap w' !! copyDp = Some m
    ∧ default ∅ (dLabels m) !! "team" = Some "net".
Proof.
  destruct (ensureDeployment_unions_labels (Demo.provider Demo.accept []) 2 1
              Demo.w_generated Demo.desired Demo.d_old {[ "team" := "net" ]})
    as (c & ch & w' & m & Hrun & Hm & _ & _ & Hkeep).
  - vm_compute. reflexivity.
  - vm_compute. reflexivity.
  - repeat split; [by eexists | done | by eexists].
  - repeat split; [by eexists | done | by eexists].
  - reflexivity.
  - exists c, ch, w', m. split; [exact Hrun|]. split; [exact Hm|].
    rewrite Hkeep; vm_compute; reflexivity.
Defined.

(** ** What a pass writes to *)

Section Frame.

Variable h0 : gmap loc Deployment.

Lemma keeps_ret {A} (a : A) (Q : A → Prop) : Q a → keeps h0 (ret a) Q.
Proof. intros HQ w Hw. split; [done|]. by intros ?? [= <- _]. Qed.

Lemma keeps_panic {A} k (Q : A → Prop) : keeps h0 (panic k) Q.
Proof. intros w Hw. by split. Qed.

Lemma keeps_bind {A B} (m : M A) (k : A → M B) (Q : A → Prop) (R : B → Prop) :
  keeps h0 m Q → (∀ a, Q a → keeps h0 (k a) R) → keeps h0 (bind m k) R.
Proof.
  intros Hm Hk w Hw. destruct (Hm w Hw) as [Hh HQ]. unfold bind.
  destruct (m w) as [a w1|p w1] eqn:E; [|by split].
  apply (Hk a); [by eapply HQ|exact Hh].
Qed.

Lemma keeps_weaken {A} (m : M A) (Q R : A → Prop) :
  keeps h0 m Q → (∀ a, Q a → R a) → keeps h0 m R.
Proof. intros Hm HQR w Hw. destruct (Hm w Hw) as [Hh HQ]. split; [done|]. eauto. Qed.

Lemma keeps_pure {A} (m : M A) :
  (∀ w, world_of (m w) = w) → keeps h0 m (λ _, True).
Proof. intros Hm w Hw. by rewrite Hm. Qed.

Lemma keeps_load p : keeps h0 (load p) (λ _, True).
Proof. apply keeps_pure. intros w. unfold load. by destruct (heap w !! p). Qed.

Lemma keeps_deref {A} (o : option A) : keeps h0 (deref o) (λ _, True).
Proof. apply keeps_pure. intros w. by destruct o. Qed.

Lemma keeps_index0 {A} (s : list A) : keeps h0 (index0 s) (λ _, True).
Proof. apply keeps_pure. intros w. by destruct s. Qed.

Lemma keeps_log lv message fs : keeps h0 (log lv message fs) (λ _, True).
Proof. intros w Hw. by split. Qed.

Lemma keeps_request c call serve : keeps h0 (request c call serve) (λ _, True).
Proof.
  intros w Hw. destruct (request_spec c call serve w) as (e & w' & -> & Hh & _).
  simpl. by rewrite Hh.
Qed.

(** A new cell is none of the cells of [h0]. *)
Lemma keeps_alloc d : keeps h0 (alloc d) (λ c, h0 !! c = None).
Proof.
  intros w Hw.
  assert (Hc : h0 !! fresh (dom (heap w)) = None).
  { destruct (h0 !! fresh (dom (heap w))) as [x|] eqn:E; [|done].
    eapply lookup_weaken in E; [|exact Hw]. by rewrite fresh_lookup in E. }
  split.
  - simpl. by apply insert_subseteq_r.
  - by intros ?? [= <- _].
Qed.

(** A write through a pointer to a cell that is not in [h0]. *)
Lemma keeps_store p d : h0 !! p = None → keeps h0 (store p d) (λ _, True).
Proof.
  intros Hp w Hw. unfold store. destruct (heap w !! p); [|by split].
  split; [|done]. simpl. by apply insert_subseteq_r.
Qed.

Lemma keeps_assign p g : h0 !! p = None → keeps h0 (assign p g) (λ _, True).
Proof.
  intros Hp. eapply keeps_bind; [apply keeps_load|].
  intros d _. by apply keeps_store.
Qed.

Lemma keeps_for_each {A} (l : list A) (body : A → M unit) :
  (∀ a, keeps h0 (body a) (λ _, True)) → keeps h0 (for_each l body) (λ _, True).
Proof.
  intros Hbody. induction l as [|a l IH]; simpl.
  - by apply keeps_ret.
  - eapply keeps_bind; [apply Hbody|]. by intros _ _.
Qed.

Lemma keeps_DeploymentDeepCopy p :
  keeps h0 (DeploymentDeepCopy p)
    (λ r, match r with inl c => h0 !! c = None | inr _ => True end).
Proof.
  eapply keeps_bind; [apply keeps_load|]. intros d _.
  eapply keeps_bind; [apply keeps_alloc|]. intros c Hc. by apply keeps_ret.
Qed.

Lemma keeps_Update c namespace p : keeps h0 (Update c namespace p) (λ _, True).
Proof.
  eapply keeps_bind; [apply keeps_load|]. intros d _. apply keeps_request.
Qed.

Lemma keeps_Create c namespace p : keeps h0 (Create c namespace p) (λ _, True).
Proof.
  eapply keeps_bind; [apply keeps_load|]. intros d _. apply keeps_request.
Qed.

Lemma keeps_syncStatus f lb p : keeps h0 (syncStatus f lb p) (λ _, True).
Proof.
  eapply keeps_bind; [apply keeps_load|]. intros d _. apply keeps_request.
Qed.

Lemma keeps_map_assign p k v : h0 !! p = None → keeps h0 (map_assign p k v) (λ _, True).
Proof.
  intros Hp. eapply keeps_bind; [apply keeps_load|]. intros d _.
  destruct (dLabels d); [by apply keeps_store|apply keeps_panic].
Qed.

Lemma keeps_bind_ret {A B} (a : A) (k : A → M B) (R : B → Prop) :
  keeps h0 (k a) R → keeps h0 (bind (ret a) k) R.
Proof. intros H w Hw. apply (H w Hw). Qed.

(** Chains of binds whose steps keep [h0]. *)
Ltac keep :=
  repeat first
    [ apply keeps_ret; done
    | apply keeps_bind_ret
    | apply keeps_panic
    | apply keeps_load | apply keeps_deref | apply keeps_index0 | apply keeps_log
    | apply keeps_Update | apply keeps_Create | apply keeps_syncStatus
    | apply keeps_store; done | apply keeps_assign; done
    | eapply keeps_bind; [|intros ? ?] ].

Lemma keeps_ensureDeployment f q p :
  keeps h0 (ensureDeployment f q p)
    (λ r, match r with inl (c, _) => h0 !! c = None | inr _ => True end).
Proof.
  unfold ensureDeployment.
  eapply keeps_bind; [apply keeps_DeploymentDeepCopy|].
  intros [c|e] Hc; [|by apply keeps_ret].
  eapply keeps_bind; [apply keeps_load|]. intros d _.
  eapply keeps_bind.
  { apply keeps_for_each. intros kv. by apply keeps_map_assign. }
  intros _ _. keep.
  match goal with |- keeps _ (if ?b then _ else _) _ => destruct b end; keep.
Qed.

Lemma keeps_sync_body f lb q dp updated activeDeploy :
  keeps h0 (sync_body f lb q dp updated activeDeploy) (λ _, True).
Proof.
  unfold sync_body.
  eapply keeps_bind; [apply keeps_load|]. intros d _.
  destruct (negb (prefixed lb (dName d)) || updated).
  - eapply keeps_bind; [apply keeps_deref|]. intros r _.
    destruct (r =? 0); [by apply keeps_ret|].
    eapply keeps_bind; [apply keeps_log|]. intros _ _.
    eapply keeps_bind; [apply keeps_DeploymentDeepCopy|]. intros [c|e] Hc.
    + keep.
    + eapply keeps_bind with (Q := λ _, False); [apply keeps_panic|]. by intros _ [].
  - eapply keeps_bind; [apply keeps_ensureDeployment|].
    intros [[c changed]|e] Hc; [|by apply keeps_ret].
    destruct changed; keep;
      match goal with |- keeps _ (match ?e with _ => _ end) _ => destruct e end; keep.
Qed.

Lemma keeps_sync_loop f lb q dps : ∀ updated activeDeploy,
  keeps h0 (sync_loop f lb q dps updated activeDeploy) (λ _, True).
Proof.
  induction dps as [|dp dps IH]; intros updated activeDeploy; simpl.
  - by apply keeps_ret.
  - eapply keeps_bind; [apply keeps_sync_body|].
    intros [err|u a] _; [by apply keeps_ret|apply IH].
Qed.

Lemma keeps_sync pkg f lb dps : keeps h0 (sync pkg f lb dps) (λ _, True).
Proof.
  unfold sync, generateDeployment.
  eapply keeps_bind.
  { eapply keeps_bind with (Q := λ _, True); [by intros w Hw|].
    intros s _. apply keeps_alloc. }
  intros q Hq.
  eapply keeps_bind; [apply keeps_sync_loop|].
  intros [err|updated a] _; [by apply keeps_ret|].
  destruct updated; simpl; keep;
    match goal with |- keeps _ (match ?e with _ => _ end) _ => destruct e end; keep.
Qed.

End Frame.

(** C10: a converge pass writes to no deployment that was in memory when it
    began.  Whatever [sync] and [ensureDeployment] do, return or panic, every
    cell that existed before holds the same deployment afterwards, so the
    listed objects of the cache are unchanged; the copy that
    [ensureDeployment] returns is a cell that did not exist before, and the
    flag it returns compares that copy with the original as it was. *)
Theorem converge_writes_only_to_copies pkg f lb dps w q p desired old :
  heap w !! q = Some desired → heap w !! p = Some old →
  (∀ dp d, heap w !! dp = Some d → heap (world_of (sync pkg f lb dps w)) !! dp = Some d)
  ∧ (∀ dp d, heap w !! dp = Some d →
             heap (world_of (ensureDeployment f q p w)) !! dp = Some d)
  ∧ ∀ copyDp changed w',
      ensureDeployment f q p w = Ret (inl (copyDp, changed)) w' →
      heap w !! copyDp = None
      ∧ ∃ c, heap w' !! copyDp = Some c ∧ heap w' !! p = Some old
             ∧ changed = changed_between c old.
Proof.
  intros Hq Hp. split; [|split].
  - intros dp d Hd.
    destruct (keeps_sync (heap w) pkg f lb dps w) as [Hsub _]; [done|].
    by eapply lookup_weaken.
  - intros dp d Hd.
    destruct (keeps_ensureDeployment (heap w) f q p w) as [Hsub _]; [done|].
    by eapply lookup_weaken.
  - intros copyDp changed w' Hrun.
    destruct (ensureDeployment_inv _ _ _ _ _ _ _ _ Hq Hp Hrun) as (Hwd & Hwo & Hlo).
    rewrite (ensureDeployment_run f q p w desired old) in Hrun by done.
    injection Hrun as <- <- <-. split; [apply fresh_lookup|].
    exists (merged desired old). split; [lookup|]. split; [|done].
    simpl. rewrite lookup_insert_ne; [done|]. by eapply fresh_ne.
Qed.

Lemma converge_writes_only_to_copies_witness :
  heap (world_of (sync Demo.pkg (Demo.provider Demo.accept []) Demo.lb1 [1%positive]
                    Demo.w_generated)) !! 1%positive = Some Demo.d_old
  ∧ heap (world_of (ensureDeployment (Demo.provider Demo.accept []) 2 1 Demo.w_generated))
      !! 1%positive = Some Demo.d_old.
Proof.
  destruct (converge_writes_only_to_copies Demo.pkg (Demo.provider Demo.accept [])
              Demo.lb1 [1%positive] Demo.w_generated 2 1 Demo.desired Demo.d_old)
    as (Hsync & Hensure & _).
  - vm_compute. reflexivity.
  - vm_compute. reflexivity.
  - split; [apply Hsync | apply Hensure]; vm_compute; reflexivity.
Defined.

(** ** Requests to the API server *)

Lemma Update_run c namespace p d w :
  heap w !! p = Some d →
  ∃ err, Update c namespace p w
         = Ret err (answered (UpdateDeployment namespace d) err
                      (<[(namespace, dName d) := d]>) w)
    ∧ (err = None ↔ reactor c (calls w) (UpdateDeployment namespace d) = None
                     ∧ is_Some (objects w !! (namespace, dName d))).
Proof.
  intros Hp. unfold Update. rewrite (bind_Ret _ _ _ _ _ (load_Some _ _ _ Hp)).
  unfold request, answered.
  destruct (reactor c (calls w) (UpdateDeployment namespace d)) as [e|] eqn:Er.
  - exists (Some e). split; [done|]. split; [done|]. by intros [? _].
  - destruct (objects w !! (namespace, dName d)) as [x|] eqn:Eo.
    + exists None. split; [done|]. split; [|done]. intros _. split; [done|by eexists].
    + eexists (Some _). split; [done|]. split; [done|]. by intros [_ [? ?]].
Qed.

Lemma Create_run c namespace p d w :
  heap w !! p = Some d →
  ∃ err, Create c namespace p w
         = Ret err (answered (CreateDeployment namespace d) err
                      (<[(namespace, dName d) := d]>) w)
    ∧ (err = None ↔ reactor c (calls w) (CreateDeployment namespace d) = None
                     ∧ objects w !! (namespace, dName d) = None).
Proof.
  intros Hp. unfold Create. rewrite (bind_Ret _ _ _ _ _ (load_Some _ _ _ Hp)).
  unfold request, answered.
  destruct (reactor c (calls w) (CreateDeployment namespace d)) as [e|] eqn:Er.
  - exists (Some e). split; [done|]. split; [done|]. by intros [? _].
  - destruct (objects w !! (namespace, dName d)) as [x|] eqn:Eo.
    + eexists (Some _). split; [done|]. split; [done|]. by intros [_ ?].
    + exists None. by split.
Qed.

Lemma syncStatus_run f lb p d w :
  heap w !! p = Some d →
  ∃ err, syncStatus f lb p w
         = Ret err (answered (PatchStatus (lbNamespace lb) (lbName lb) d) err id w).
Proof.
  intros Hp. unfold syncStatus. rewrite (bind_Ret _ _ _ _ _ (load_Some _ _ _ Hp)).
  unfold request, answered.
  destruct (reactor (client f) (calls w) _) as [e|] eqn:Er.
  - by exists (Some e).
  - by exists None.
Qed.

(** ** One iteration of the loop of [sync] *)

(** A workload that is not the target and is already at zero replicas is
    passed over. *)
Lemma sync_body_skip f lb q p updated activeDeploy w d :
  heap w !! p = Some d →
  negb (prefixed lb (dName d)) || updated = true →
  dReplicas d = Some 0 →
  sync_body f lb q p updated activeDeploy w = Ret (Next updated activeDeploy) w.
Proof.
  intros Hp Hcond Hr. unfold sync_body. run. rewrite Hcond, Hr. by cbn [deref].
Qed.

(** A workload that is not the target and has replicas is copied, the copy
    is set to zero replicas and sent to the API server; the answer is
    dropped. *)
Lemma sync_body_scale f lb q p updated activeDeploy w d r :
  heap w !! p = Some d →
  negb (prefixed lb (dName d)) || updated = true →
  dReplicas d = Some r → r ≠ 0 →
  let zeroed := set_Replicas (Some 0) d in
  ∃ err, sync_body f lb q p updated activeDeploy w
         = Ret (Next updated activeDeploy)
             (answered (UpdateDeployment (lbNamespace lb) zeroed) err
                (<[(lbNamespace lb, dName d) := zeroed]>)
                (with_heap (<[fresh (dom (heap w)) := zeroed]>)
                   (with_logs (λ l, l ++ [scale_record lb d]) w)))
    ∧ (err = None ↔ reactor (client f) (calls w) (UpdateDeployment (lbNamespace lb) zeroed) = None
                     ∧ is_Some (objects w !! (lbNamespace lb, dName d))).
Proof.
  intros Hp Hcond Hr Hne zeroed. unfold sync_body. run. rewrite Hcond, Hr. cbn [deref]. run.
  apply Z.eqb_neq in Hne. rewrite Hne. run.
  erewrite bind_Ret; [|apply DeploymentDeepCopy_run; lookup].
  run. run.
  edestruct (Update_run (client f) (lbNamespace lb) (fresh (dom (heap w))) zeroed) as (err & Hrun & Herr);
    [|exists err; split; [erewrite bind_Ret; [|exact Hrun]|exact Herr]].
  - simpl. rewrite insert_insert_eq. apply lookup_insert_eq.
  - unfold ret. f_equal. apply World_eq; try done. simpl. by rewrite insert_insert_eq.
Qed.

(** The first workload with the generated prefix is merged with the desired
    descriptor; the merged copy is sent to the API server when it differs
    from the original, and an error of that update ends the pass. *)
Lemma sync_body_target f lb q p activeDeploy w desired d :
  heap w !! q = Some desired → heap w !! p = Some d →
  prefixed lb (dName d) = true → mergeable desired d →
  let m := merged desired d in
  let c := fresh (dom (heap w)) in
  let w1 := with_logs (λ l, l ++ announcement m d) (with_heap (<[c := m]>) w) in
  if changed_between m d then
    ∃ err, sync_body f lb q p false activeDeploy w
           = Ret (match err with Some e => Return (Some e) | None => Next true c end)
               (answered (UpdateDeployment (lbNamespace lb) m) err
                  (<[(lbNamespace lb, dName d) := m]>)
                  (with_logs (λ l, l ++ [sync_record lb d]) w1))
      ∧ (err = None ↔ reactor (client f) (calls w) (UpdateDeployment (lbNamespace lb) m) = None
                       ∧ is_Some (objects w !! (lbNamespace lb, dName d)))
  else sync_body f lb q p false activeDeploy w = Ret (Next true c) w1.
Proof.
  intros Hq Hp Hpre (Hwd & Hwo & Hlo) m c w1.
  assert (Hname : dName m = dName d) by done.
  pose proof (ensureDeployment_run f q p w desired d Hq Hp Hwd Hwo Hlo) as Hrun.
  fold m c w1 in Hrun. unfold sync_body.
  destruct (changed_between m d) eqn:Hch.
  - edestruct (Update_run (client f) (lbNamespace lb) c m
                 (with_logs (λ l, l ++ [sync_record lb d]) w1)) as (err & Hup & Herr).
    { unfold w1. lookup. }
    exists err. rewrite Hname in Hup, Herr. split; [|exact Herr].
    run. rewrite Hpre. cbn [negb orb]. rewrite (bind_Ret _ _ _ _ _ Hrun).
    erewrite bind_Ret; [|erewrite bind_Ret; [exact Hup|reflexivity]].
    by destruct err.
  - run. rewrite Hpre. cbn [negb orb]. rewrite (bind_Ret _ _ _ _ _ Hrun). by run.
Qed.

Lemma ensureDeployment_nil_map f q p w desired d :
  heap w !! q = Some desired → heap w !! p = Some d →
  ¬ labels_assignable desired d →
  ∃ w', ensureDeployment f q p w = Panic AssignmentToNilMap w'.
Proof.
  intros Hq Hp Hlo.
  assert (Hcq : fresh (dom (heap w)) ≠ q) by (by eapply fresh_ne).
  unfold ensureDeployment.
  rewrite (bind_Ret _ _ _ _ _ (DeploymentDeepCopy_run _ _ _ Hp)).
  run. eexists. apply bind_Panic. eapply label_loop_panic; [lookup| |].
  - destruct (dLabels d) eqn:E; [|done]. destruct Hlo. left. by eexists.
  - intros E. destruct Hlo. by right.
Qed.

(** What makes an iteration panic: a dangling pointer, a nil replicas
    pointer on a workload that is not the target, a target that is not fit
    for the merge. *)
Lemma sync_body_panics f lb q p updated activeDeploy w desired d :
  heap w !! q = Some desired → heap w !! p = Some d →
  (if negb (prefixed lb (dName d)) || updated then dReplicas d = None
   else ¬ mergeable desired d) →
  is_panic (sync_body f lb q p updated activeDeploy w) = true.
Proof.
  intros Hq Hp Hbad. unfold sync_body. run.
  destruct (negb (prefixed lb (dName d)) || updated).
  - rewrite Hbad. by erewrite bind_Panic.
  - pose proof (ensureDeployment_panics f q p w desired d Hq Hp Hbad) as Hpanic.
    destruct (ensureDeployment f q p w) as [r w'|k w'] eqn:E; [done|].
    by erewrite bind_Panic.
Qed.

(** ** The loop of [sync] *)

Lemma sync_loop_app f lb q l1 l2 : ∀ updated activeDeploy w,
  sync_loop f lb q (l1 ++ l2) updated activeDeploy w
  = match sync_loop f lb q l1 updated activeDeploy w with
    | Ret (Next u a) w' => sync_loop f lb q l2 u a w'
    | Ret (Return e) w' => Ret (Return e) w'
    | Panic k w' => Panic k w'
    end.
Proof.
  induction l1 as [|p l1 IH]; intros updated activeDeploy w; [done|].
  simpl. unfold bind.
  destruct (sync_body f lb q p updated activeDeploy w) as [[e|u a] w'|k w']; auto.
Qed.

Lemma generateDeployment_run pkg f lb w :
  generateDeployment pkg f lb w
  = Ret (fresh (dom (heap w)))
      (with_heap (<[fresh (dom (heap w))
                    := desiredDeployment pkg f lb (RandStringBytesRmndr pkg 5 (draws w))]>)
         (with_draws S w)).
Proof. reflexivity. Qed.

Lemma desired_well_formed pkg f lb s : well_formed (desiredDeployment pkg f lb s).
Proof. split; [eexists; reflexivity|]. split; [discriminate|eexists; reflexivity]. Qed.

Lemma cached_weaken w w' dps ds : cached w dps ds → heap w ⊆ heap w' → cached w' dps ds.
Proof.
  intros Hc Hsub. eapply Forall2_impl; [exact Hc|].
  intros p d Hp. eapply lookup_weaken; [exact Hp|exact Hsub].
Qed.

Lemma insert_fresh_subseteq (h : gmap loc Deployment) d : h ⊆ <[fresh (dom h) := d]> h.
Proof. apply insert_subseteq, fresh_lookup. Qed.

(** Under the precondition an iteration dereferences no nil pointer and
    indexes no empty list: it returns, or it panics on a write into a nil
    label map. *)
Lemma sync_body_safe f lb q p updated activeDeploy w desired d :
  heap w !! q = Some desired → heap w !! p = Some d →
  well_formed desired → well_formed d → is_Some (heap w !! activeDeploy) →
  match sync_body f lb q p updated activeDeploy w with
  | Ret (Next u a) w' => heap w ⊆ heap w' ∧ is_Some (heap w' !! a)
  | Ret (Return _) w' => True
  | Panic k _ => k = AssignmentToNilMap ∧ dLabels d = None
  end.
Proof.
  intros Hq Hp Hwd Hwo Ha.
  destruct (negb (prefixed lb (dName d)) || updated) eqn:Hcond.
  - destruct Hwo as [[r Hr] _]. destruct (decide (r = 0)) as [->|Hne].
    + by rewrite (sync_body_skip _ _ _ _ _ _ _ d).
    + destruct (sync_body_scale f lb q p updated activeDeploy w d r) as (err & -> & _);
        [done..|].
      simpl. split; [apply insert_fresh_subseteq|].
      destruct Ha as [x Hx]. exists x.
      eapply lookup_weaken; [exact Hx|apply insert_fresh_subseteq].
  - apply orb_false_iff in Hcond as [Hpre ->]. apply negb_false_iff in Hpre.
    destruct (decide (labels_assignable desired d)) as [Hlo|Hlo].
    + pose proof (sync_body_target f lb q p activeDeploy w desired d Hq Hp Hpre
                    (conj Hwd (conj Hwo Hlo))) as Hrun. simpl in Hrun.
      destruct (changed_between (merged desired d) d).
      * destruct Hrun as ([e|] & -> & _); [done|]. simpl.
        split; [apply insert_fresh_subseteq|]. rewrite lookup_insert_eq. by eexists.
      * rewrite Hrun. simpl.
        split; [apply insert_fresh_subseteq|]. rewrite lookup_insert_eq. by eexists.
    + destruct (ensureDeployment_nil_map f q p w desired d Hq Hp Hlo) as (w' & Hpanic).
      unfold sync_body. run. rewrite Hpre. cbn [negb orb].
      rewrite (bind_Panic _ _ _ _ _ Hpanic). split; [done|].
      destruct (dLabels d) eqn:E; [|done]. destruct Hlo. left. by eexists.
Qed.

Lemma sync_loop_safe f lb q desired dps : ∀ ds updated activeDeploy w,
  heap w !! q = Some desired → well_formed desired → is_Some (heap w !! activeDeploy) →
  cached w dps ds → Forall well_formed ds →
  match sync_loop f lb q dps updated activeDeploy w with
  | Ret (Next u a) w' => heap w ⊆ heap w' ∧ is_Some (heap w' !! a)
  | Ret (Return _) w' => True
  | Panic k _ => k = AssignmentToNilMap ∧ ¬ Forall (λ d, is_Some (dLabels d)) ds
  end.
Proof.
  induction dps as [|p dps IH]; intros ds updated activeDeploy w Hq Hwd Ha Hc Hwf.
  - by simpl.
  - apply Forall2_cons_inv_l in Hc as (d & ds' & Hp & Hc & ->).
    apply Forall_cons in Hwf as [Hw Hwf]. simpl. unfold bind.
    pose proof (sync_body_safe f lb q p updated activeDeploy w desired d Hq Hp Hwd Hw Ha)
      as Hbody.
    destruct (sync_body f lb q p updated activeDeploy w) as [[e|u a] w1|k w1].
    + done.
    + destruct Hbody as [Hsub Ha1].
      specialize (IH ds' u a w1). 
      destruct (sync_loop f lb q dps u a w1) as [[e|u' a'] w2|k w2].
      * done.
      * destruct IH as [Hsub' Ha']; [by eapply lookup_weaken| done | done
                                    | by eapply cached_weaken | done |].
        split; [by etrans|done].
      * destruct IH as [-> Hl]; [by eapply lookup_weaken| done | done
                                | by eapply cached_weaken | done |].
        split; [done|]. intros Hall. apply Hl. by apply Forall_cons in Hall as [_ ?].
    + destruct Hbody as [-> Hl]. split; [done|]. intros Hall.
      apply Forall_cons in Hall as [[x Hx] _]. congruence.
Qed.

(** ** The pass as a whole *)

Lemma sync_unfold pkg f lb dps w :
  let q := fresh (dom (heap w)) in
  let w0 := with_heap (<[q := desiredDeployment pkg f lb (RandStringBytesRmndr pkg 5 (draws w))]>)
              (with_draws S w) in
  sync pkg f lb dps w
  = match sync_loop f lb q dps false q w0 with
    | Ret (Return err) w1 => Ret err w1
    | Ret (Next updated activeDeploy) w1 => sync_finish f lb q updated activeDeploy w1
    | Panic k w1 => Panic k w1
    end.
Proof.
  intros q w0. unfold sync. rewrite (bind_Ret _ _ _ _ _ (generateDeployment_run pkg f lb w)).
  fold q w0. unfold bind at 1.
  by destruct (sync_loop f lb q dps false q w0) as [[e|u a] w1|k w1].
Qed.

(** After the loop: a workload is created when none was selected, and the
    status of the load balancer is written unless the creation failed. *)
Lemma sync_finish_run f lb q updated activeDeploy w desired active :
  heap w !! q = Some desired → heap w !! activeDeploy = Some active →
  let status := PatchStatus (lbNamespace lb) (lbName lb) active in
  match updated return Prop with
  | true =>
    ∃ err, sync_finish f lb q updated activeDeploy w = Ret err (answered status err id w)
  | false =>
    let create := CreateDeployment (lbNamespace lb) desired in
    let w1 := with_logs (λ l, l ++ [create_record lb desired]) w in
    ∃ err1,
      (err1 = None ↔ reactor (client f) (calls w) create = None
                      ∧ objects w !! (lbNamespace lb, dName desired) = None)
      ∧ match err1 with
        | Some e =>
          sync_finish f lb q updated activeDeploy w
          = Ret (Some e) (answered create err1 (<[(lbNamespace lb, dName desired) := desired]>) w1)
        | None =>
          ∃ err, sync_finish f lb q updated activeDeploy w
                 = Ret err (answered status err id
                              (answered create None
                                 (<[(lbNamespace lb, dName desired) := desired]>) w1))
        end
  end.
Proof.
  intros Hq Ha status. unfold sync_finish. destruct updated; cbn [negb].
  - destruct (syncStatus_run f lb activeDeploy active w Ha) as (err & Hrun).
    exists err. by run.
  - destruct (Create_run (client f) (lbNamespace lb) q desired
                (with_logs (λ l, l ++ [create_record lb desired]) w))
      as (err1 & Hrun & Herr); [done|].
    exists err1. split; [exact Herr|].
    destruct err1 as [e|].
    + erewrite bind_Ret; [|run; run; exact Hrun]. reflexivity.
    + edestruct (syncStatus_run f lb activeDeploy active) as (err & Hst); [|exists err].
      2:{ erewrite bind_Ret; [|run; run; exact Hrun]. exact Hst. }
      done.
Qed.

(** C9, as amended.  The loop of [sync] panics at the first workload it
    reaches that is unfit for its role: a workload that is not the target
    with a nil replicas pointer, or the target with a nil replicas pointer,
    no container or a nil affinity.  Under the precondition that every
    claimed deployment has a replicas pointer, a container and an affinity,
    [sync] dereferences no nil pointer and indexes no empty list: the only
    panic left is a write into a nil label map, and when the label maps are
    not nil, [sync] returns. *)
Theorem converge_precondition pkg f lb w :
  (∀ l1 p l2 d q w0 updated activeDeploy w1,
     generateDeployment pkg f lb w = Ret q w0 →
     sync_loop f lb q l1 false q w0 = Ret (Next updated activeDeploy) w1 →
     heap w1 !! p = Some d → unfit lb updated d →
     is_panic (sync pkg f lb (l1 ++ p :: l2) w) = true)
  ∧ (∀ dps ds,
       cached w dps ds → Forall well_formed ds →
       match sync pkg f lb dps w with
       | Ret _ _ => True
       | Panic k _ => k = AssignmentToNilMap
       end
       ∧ (Forall (λ d, is_Some (dLabels d)) ds → ∃ err w', sync pkg f lb dps w = Ret err w')).
Proof.
  split.
  - intros l1 p l2 d q w0 updated activeDeploy w1 Hgen Hloop Hp Hbad.
    rewrite generateDeployment_run in Hgen. injection Hgen as <- <-.
    rewrite sync_unfold. cbv zeta. rewrite sync_loop_app, Hloop.
    set (q := fresh (dom (heap w))) in *.
    set (desired := desiredDeployment pkg f lb (RandStringBytesRmndr pkg 5 (draws w))) in *.
    assert (Hq : heap w1 !! q = Some desired).
    { edestruct keeps_sync_loop as [Hsub _]; [reflexivity|]. rewrite Hloop in Hsub.
      eapply lookup_weaken; [|exact Hsub]. simpl. apply lookup_insert_eq. }
    assert (Hpanic : is_panic (sync_body f lb q p updated activeDeploy w1) = true).
    { eapply sync_body_panics; [exact Hq|exact Hp|]. unfold unfit in Hbad.
      destruct (negb (prefixed lb (dName d)) || updated); [done|].
      by intros (_ & ? & _). }
    simpl. unfold bind at 1.
    by destruct (sync_body f lb q p updated activeDeploy w1).
  - intros dps ds Hc Hwf. rewrite sync_unfold. cbv zeta.
    set (q := fresh (dom (heap w))).
    set (desired := desiredDeployment pkg f lb (RandStringBytesRmndr pkg 5 (draws w))).
    set (w0 := with_heap (<[q := desired]>) (with_draws S w)).
    assert (Hq : heap w0 !! q = Some desired) by apply lookup_insert_eq.
    pose proof (sync_loop_safe f lb q desired dps ds false q w0 Hq
                  (desired_well_formed _ _ _ _) (ex_intro _ _ Hq)) as Hsafe.
    destruct (sync_loop f lb q dps false q w0) as [[e|u a] w1|k w1].
    + split; [done|]. by eexists _, _.
    + destruct Hsafe as [Hsub [active Ha]]; [|done|].
      { eapply cached_weaken; [exact Hc|]. apply insert_fresh_subseteq. }
      assert (Hq1 : heap w1 !! q = Some desired) by (by eapply lookup_weaken).
      pose proof (sync_finish_run f lb q u a w1 desired active Hq1 Ha) as Hfin.
      destruct u; simpl in Hfin.
      * destruct Hfin as (err & ->). split; [done|]. by eexists _, _.
      * destruct Hfin as ([e|] & _ & Hfin).
        -- rewrite Hfin. split; [done|]. by eexists _, _.
        -- destruct Hfin as (err & ->). split; [done|]. by eexists _, _.
    + destruct Hsafe as [-> Hl]; [|done|].
      { eapply cached_weaken; [exact Hc|]. apply insert_fresh_subseteq. }
      split; [done|]. intros Hall. by destruct Hl.
Qed.

(** C9, as stated, fails: a claimed workload that is not the target, stopped
    and with no container and no affinity, does not make the pass panic. *)
Lemma stopped_stray_without_containers_is_harmless :
  dContainers Demo.d_bare = [] ∧ dAffinity Demo.d_bare = None
  ∧ is_panic (sync Demo.pkg (Demo.provider Demo.accept []) Demo.lb1 [1%positive]
                (Demo.world_of_list [Demo.d_bare])) = false.
Proof. split; [done|]. split; [done|]. vm_compute. reflexivity. Qed.

Lemma converge_precondition_witness :
  is_panic (sync Demo.pkg (Demo.provider Demo.accept []) Demo.lb1 [1%positive]
              (Demo.world_of_list [Demo.d_hollow])) = true
  ∧ ∃ err w', sync Demo.pkg (Demo.provider Demo.accept []) Demo.lb1 [1%positive]
                (Demo.world_of_list [Demo.d_old]) = Ret err w'.
Proof.
  split.
  - apply (proj1 (converge_precondition Demo.pkg (Demo.provider Demo.accept []) Demo.lb1
                    (Demo.world_of_list [Demo.d_hollow]))
             [] 1%positive [] Demo.d_hollow 2%positive
             (world_of (generateDeployment Demo.pkg (Demo.provider Demo.accept []) Demo.lb1
                          (Demo.world_of_list [Demo.d_hollow])))
             false 2%positive
             (world_of (generateDeployment Demo.pkg (Demo.provider Demo.accept []) Demo.lb1
                          (Demo.world_of_list [Demo.d_hollow])))).
    + reflexivity.
    + reflexivity.
    + vm_compute. reflexivity.
    + unfold unfit. intros (_ & H & _). by apply H.
  - destruct (proj2 (converge_precondition Demo.pkg (Demo.provider Demo.accept []) Demo.lb1
                       (Demo.world_of_list [Demo.d_old])) [1%positive] [Demo.d_old])
      as [_ Hreturns].
    + by repeat constructor.
    + apply Forall_cons. split; [|by apply Forall_nil].
      split; [by eexists|]. split; [done|by eexists].
    + apply Hreturns. apply Forall_cons. split; [by eexists|by apply Forall_nil].
Defined.

(** ** The loop of [sync] against an API server that accepts every request *)

Lemma set_Image_id c : set_Image (v1.Image c) c = c.
Proof. by destruct c. Qed.

Lemma set_NodeAffinity_id a : set_NodeAffinity (v1.NodeAffinity_ a) a = a.
Proof. by destruct a. Qed.

Lemma set_Replicas_id d : set_Replicas (dReplicas d) d = d.
Proof. by destruct d as [? []]. Qed.

Lemma set_Containers_id d : set_Containers (dContainers d) d = d.
Proof. by destruct d as [? [? [? []]]]. Qed.

Lemma set_Affinity_id d : set_Affinity (dAffinity d) d = d.
Proof. by destruct d as [? [? [? []]]]. Qed.

(** The merge of two deployments that are fit for it, spelled out. *)
Lemma merged_eq desired d rd da d0 tld a c0 tl :
  dReplicas desired = Some rd → dAffinity desired = Some da →
  dContainers desired = d0 :: tld → dAffinity d = Some a → dContainers d = c0 :: tl →
  merged desired d
  = set_Affinity (Some (set_NodeAffinity (v1.NodeAffinity_ da) a))
      (set_Containers (set_Image (v1.Image d0) c0 :: tl)
         (set_Replicas (Some rd) (set_Labels (merged_labels desired d) d))).
Proof.
  intros Hrd Hda Ecd Ha Eco. unfold merged, merged_affinity, merged_containers.
  by rewrite Ha, Hda, Eco, Ecd, Hrd.
Qed.

(** A merge that the comparison finds unchanged is the original. *)
Lemma merged_unchanged desired d :
  mergeable desired d → changed_between (merged desired d) d = false → merged desired d = d.
Proof.
  intros (([rd Hrd] & Hcd & [da Hda]) & ([r Hr] & Hco & [a Ha]) & Hlo) Hch.
  destruct (dContainers desired) as [|d0 tld] eqn:Ecd; [done|].
  destruct (dContainers d) as [|c0 tl] eqn:Eco; [done|].
  pose proof (merged_eq desired d rd da d0 tld a c0 tl Hrd Hda Ecd Ha Eco) as Hm.
  unfold changed_between, labelChanged, replicasChanged, nodeAffinityChanged, imageChanged
    in Hch.
  rewrite Hm in Hch. revert Hch. fields. rewrite Ha, Eco, Hr. simpl.
  rewrite !orb_false_iff, !negb_false_iff, !bool_decide_eq_true.
  intros (((Hl & [= ->]) & [= Hna]) & [= Him]).
  rewrite Hm, Hl, set_Labels_id, <- Hr, set_Replicas_id, Him, set_Image_id, <- Eco,
    set_Containers_id, Hna, set_NodeAffinity_id, <- Ha.
  apply set_Affinity_id.
Qed.

Lemma in_step_head namespace w d ds :
  in_step namespace w (d :: ds) →
  objects w !! (namespace, dName d) = Some d ∧ dName d ∉ dName <$> ds.
Proof.
  intros [Hnd Hall]. rewrite fmap_cons in Hnd.
  apply NoDup_cons in Hnd as [Hd _]. by apply Forall_cons in Hall as [? _].
Qed.

(** The rest of the list stays in step when the head is stored anew. *)
Lemma in_step_tail namespace w w' d ds x :
  in_step namespace w (d :: ds) →
  objects w' = <[(namespace, dName d) := x]> (objects w) →
  in_step namespace w' ds.
Proof.
  intros [Hnd Hall] Ho. rewrite fmap_cons in Hnd.
  apply NoDup_cons in Hnd as [Hd Hnd]. apply Forall_cons in Hall as [_ Hall].
  split; [done|]. rewrite Forall_forall in Hall |- *. intros d' Hin.
  rewrite Ho, lookup_insert_ne; [by apply Hall|].
  intros [= E]. apply Hd. rewrite E. by apply list_elem_of_fmap_2.
Qed.

Lemma in_step_tail_same namespace w w' d ds :
  in_step namespace w (d :: ds) → objects w' = objects w → in_step namespace w' ds.
Proof.
  intros Hstep Ho. destruct (in_step_head _ _ _ _ Hstep) as [Hd _].
  eapply in_step_tail; [exact Hstep|]. by rewrite Ho, insert_id.
Qed.

(** Against an API server that accepts every request, the loop of [sync]
    runs through the list, stores [converged] and sends [requested]. *)
Lemma sync_loop_run f lb q desired :
  accepting (client f) →
  ∀ dps ds updated activeDeploy w,
    heap w !! q = Some desired → is_Some (heap w !! activeDeploy) →
    cached w dps ds → Forall (mergeable desired) ds → in_step (lbNamespace lb) w ds →
    ∃ a w', sync_loop f lb q dps updated activeDeploy w
            = Ret (Next (updated || existsb (prefixed lb) (dName <$> ds)) a) w'
      ∧ heap w ⊆ heap w' ∧ is_Some (heap w' !! a)
      ∧ objects w' = put_all (lbNamespace lb) (converged lb desired ds updated) (objects w)
      ∧ calls w' = calls w ++ requested lb desired ds updated
      ∧ draws w' = draws w.
Proof.
  intros Hacc. induction dps as [|p dps IH];
    intros ds updated activeDeploy w Hq Ha Hc Hm Hstep.
  - apply Forall2_nil_inv_l in Hc as ->. exists activeDeploy, w. simpl.
    by rewrite orb_false_r, app_nil_r.
  - apply Forall2_cons_inv_l in Hc as (d & ds' & Hp & Hc & ->).
    apply Forall_cons in Hm as [Hmd Hm].
    destruct (in_step_head _ _ _ _ Hstep) as [Hstored Hfresh].
    rewrite fmap_cons. cbn [sync_loop converged requested existsb].
    destruct (negb (prefixed lb (dName d)) || updated) eqn:Hcond.
    + assert (Hex : updated || (prefixed lb (dName d) || existsb (prefixed lb) (dName <$> ds'))
                    = updated || existsb (prefixed lb) (dName <$> ds')).
      { destruct updated; [done|]. rewrite orb_false_r in Hcond.
        apply negb_true_iff in Hcond. by rewrite Hcond. }
      rewrite Hex. destruct Hmd as (_ & ([r Hr] & _) & _).
      destruct (decide (r = 0)) as [->|Hne].
      * rewrite (bind_Ret _ _ _ _ _ (sync_body_skip f lb q p updated activeDeploy w d Hp Hcond Hr)).
        rewrite bool_decide_eq_true_2 by done.
        destruct (IH ds' updated activeDeploy w) as (a & w' & Hrun & Hsub & Hav & Ho & Hcalls & Hdr);
          [done| done| done| done| by eapply in_step_tail_same|].
        exists a, w'. split; [done|]. split; [done|]. split; [done|]. split; [|done].
        rewrite Ho. unfold put_all. simpl. by rewrite insert_id.
      * destruct (sync_body_scale f lb q p updated activeDeploy w d r Hp Hcond Hr Hne)
          as (err & Hrun & Herr).
        assert (err = None) as ->.
        { apply Herr. split; [apply Hacc|by eexists]. }
        rewrite (bind_Ret _ _ _ _ _ Hrun).
        rewrite bool_decide_eq_false_2 by (rewrite Hr; intros [= ?]; done).
        match type of Hrun with _ = Ret _ ?w1 =>
          destruct (IH ds' updated activeDeploy w1)
            as (a & w' & Hrun' & Hsub & Hav & Ho & Hcalls & Hdr)
        end.
        { simpl. rewrite lookup_insert_ne; [done|]. by eapply fresh_ne. }
        { destruct Ha as [x Hx]. exists x. simpl.
          rewrite lookup_insert_ne; [done|]. by eapply fresh_ne. }
        { eapply cached_weaken; [exact Hc|]. apply insert_fresh_subseteq. }
        { done. }
        { eapply in_step_tail; [exact Hstep|]. reflexivity. }
        exists a, w'. split; [done|]. split.
        { etrans; [|exact Hsub]. apply insert_fresh_subseteq. }
        split; [done|]. split; [by rewrite Ho|]. split; [|done].
        rewrite Hcalls. simpl. by rewrite <- app_assoc.
    + apply orb_false_iff in Hcond as [Hpre ->]. apply negb_false_iff in Hpre.
      rewrite Hpre. cbn [orb].
      pose proof (sync_body_target f lb q p activeDeploy w desired d Hq Hp Hpre Hmd) as Hrun.
      cbv zeta in Hrun.
      destruct (changed_between (merged desired d) d) eqn:Hch.
      * destruct Hrun as (err & Hrun & Herr).
        assert (err = None) as ->.
        { apply Herr. split; [apply Hacc|by eexists]. }
        rewrite (bind_Ret _ _ _ _ _ Hrun).
        match type of Hrun with _ = Ret (Next _ ?c) ?w1 =>
          destruct (IH ds' true c w1)
            as (a & w' & Hrun' & Hsub & Hav & Ho & Hcalls & Hdr)
        end.
        { simpl. rewrite lookup_insert_ne; [done|]. by eapply fresh_ne. }
        { simpl. rewrite lookup_insert_eq. by eexists. }
        { eapply cached_weaken; [exact Hc|]. apply insert_fresh_subseteq. }
        { done. }
        { eapply in_step_tail; [exact Hstep|]. reflexivity. }
        exists a, w'. split; [done|]. split.
        { etrans; [|exact Hsub]. apply insert_fresh_subseteq. }
        split; [done|]. split; [by rewrite Ho|]. split; [|done].
        rewrite Hcalls. simpl. by rewrite <- app_assoc.
      * rewrite (bind_Ret _ _ _ _ _ Hrun).
        match type of Hrun with _ = Ret (Next _ ?c) ?w1 =>
          destruct (IH ds' true c w1)
            as (a & w' & Hrun' & Hsub & Hav & Ho & Hcalls & Hdr)
        end.
        { simpl. rewrite lookup_insert_ne; [done|]. by eapply fresh_ne. }
        { simpl. rewrite lookup_insert_eq. by eexists. }
        { eapply cached_weaken; [exact Hc|]. apply insert_fresh_subseteq. }
        { done. }
        { by eapply in_step_tail_same. }
        exists a, w'. split; [done|]. split.
        { etrans; [|exact Hsub]. apply insert_fresh_subseteq. }
        split; [done|]. split; [|by split].
        rewrite Ho. unfold put_all. simpl.
        by rewrite (merged_unchanged desired d Hmd Hch), insert_id.
Qed.

(** *** What [converged] and [put_all] store *)

Lemma converged_names lb desired ds : ∀ updated,
  dName <$> converged lb desired ds updated = dName <$> ds.
Proof.
  induction ds as [|d ds IH]; intros updated; [done|]. simpl.
  destruct (negb (prefixed lb (dName d)) || updated); rewrite fmap_cons, IH; [|done].
  by destruct (bool_decide (dReplicas d = Some 0)).
Qed.

Lemma put_all_other namespace cs : ∀ o n,
  n ∉ dName <$> cs → put_all namespace cs o !! (namespace, n) = o !! (namespace, n).
Proof.
  induction cs as [|c cs IH]; intros o n Hn; [done|].
  rewrite fmap_cons in Hn. apply not_elem_of_cons in Hn as [Hne Hn].
  unfold put_all in *. simpl. rewrite IH by done.
  apply lookup_insert_ne. congruence.
Qed.

Lemma put_all_lookup namespace cs : ∀ o c,
  NoDup (dName <$> cs) → c ∈ cs → put_all namespace cs o !! (namespace, dName c) = Some c.
Proof.
  induction cs as [|c0 cs IH]; intros o c Hnd Hin; [by apply elem_of_nil in Hin|].
  rewrite fmap_cons in Hnd. apply NoDup_cons in Hnd as [Hc0 Hnd].
  apply elem_of_cons in Hin as [->|Hin].
  - change (put_all namespace (c0 :: cs) o)
      with (put_all namespace cs (<[(namespace, dName c0) := c0]> o)).
    rewrite put_all_other by done. apply lookup_insert_eq.
  - by apply IH.
Qed.

Lemma find_cons {A} (p : A → bool) x l :
  find p (x :: l) = if p x then Some x else find p l.
Proof. done. Qed.

Lemma find_elem_of {A} (p : A → bool) l x : find p l = Some x → x ∈ l ∧ p x = true.
Proof. intros H. apply find_some in H as [H ?]. by rewrite list_elem_of_In. Qed.

Lemma existsb_find {A} (p : A → bool) l : existsb p l = bool_decide (is_Some (find p l)).
Proof.
  induction l as [|x l IH]; [done|]. rewrite find_cons. simpl.
  destruct (p x); [|done]. symmetry. by apply bool_decide_eq_true_2.
Qed.

(** Every claimed workload has a converged version under the same name: the
    first workload with the generated prefix gets the desired replicas,
    every other one has zero replicas. *)
Lemma converged_elem lb desired : ∀ ds updated d,
  NoDup (dName <$> ds) → d ∈ ds →
  ∃ c, c ∈ converged lb desired ds updated ∧ dName c = dName d
    ∧ dReplicas c
      = if negb updated && bool_decide (find (prefixed lb) (dName <$> ds) = Some (dName d))
        then dReplicas desired else Some 0.
Proof.
  induction ds as [|d0 ds IH]; intros updated d Hnd Hin; [by apply elem_of_nil in Hin|].
  rewrite fmap_cons in Hnd |- *. apply NoDup_cons in Hnd as [Hd0 Hnd].
  rewrite find_cons. cbn [converged].
  destruct (negb (prefixed lb (dName d0)) || updated) eqn:Hcond.
  - assert (Hfind : negb updated
                    && bool_decide ((if prefixed lb (dName d0) then Some (dName d0)
                                     else find (prefixed lb) (dName <$> ds)) = Some (dName d))
                    = negb updated
                      && bool_decide (find (prefixed lb) (dName <$> ds) = Some (dName d))).
    { destruct updated; [done|]. rewrite orb_false_r in Hcond.
      apply negb_true_iff in Hcond. by rewrite Hcond. }
    rewrite Hfind. apply elem_of_cons in Hin as [->|Hin].
    + eexists. split; [apply elem_of_cons; by left|].
      assert (Hno : negb updated
                    && bool_decide (find (prefixed lb) (dName <$> ds) = Some (dName d0)) = false).
      { destruct updated; [done|]. simpl. apply bool_decide_eq_false_2.
        intros Hf. by apply find_elem_of in Hf as [? _]. }
      rewrite Hno. destruct (bool_decide (dReplicas d0 = Some 0)) eqn:E;
        [apply bool_decide_eq_true in E|]; by split.
    + destruct (IH updated d Hnd Hin) as (c & Hc & Hname & Hrep).
      exists c. split; [apply elem_of_cons; by right|done].
  - apply orb_false_iff in Hcond as [Hpre ->]. apply negb_false_iff in Hpre.
    rewrite Hpre. apply elem_of_cons in Hin as [->|Hin].
    + exists (merged desired d0). split; [apply elem_of_cons; by left|].
      split; [done|]. simpl. by rewrite bool_decide_eq_true_2.
    + destruct (IH true d Hnd Hin) as (c & Hc & Hname & Hrep).
      exists c. split; [apply elem_of_cons; by right|]. split; [done|].
      rewrite Hrep. simpl. rewrite bool_decide_eq_false_2; [done|].
      intros [= E]. apply Hd0. rewrite E. by apply list_elem_of_fmap_2.
Qed.

Lemma prefix_app (a b c : string) : String.prefix (a +:+ b) (a +:+ (b +:+ c)) = true.
Proof.
  induction a as [|x a IH]; simpl.
  - induction b as [|y b IHb]; simpl; [by destruct c|].
    destruct (Ascii.ascii_dec y y); [exact IHb|done].
  - destruct (Ascii.ascii_dec x x); [exact IH|done].
Qed.

Lemma generated_name_prefixed pkg f lb w : prefixed lb (generated_name pkg f lb w) = true.
Proof. apply prefix_app. Qed.

Lemma objects_answered_id call err w : objects (answered call err id w) = objects w.
Proof. by destruct err. Qed.

Lemma sound_mergeable pkg f lb s ds :
  Forall sound ds → Forall (mergeable (desiredDeployment pkg f lb s)) ds.
Proof.
  intros Hs. eapply Forall_impl; [exact Hs|]. intros d [Hwf Hl].
  split; [apply desired_well_formed|]. split; [done|by left].
Qed.

(** [sync] in closed form, for a claimed list that is in step with an API
    server that accepts every request. *)
Lemma sync_run pkg f lb w dps ds :
  cached w dps ds → Forall sound ds → in_step (lbNamespace lb) w ds →
  accepting (client f) →
  (find (prefixed lb) (dName <$> ds) = None →
     objects w !! (lbNamespace lb, generated_name pkg f lb w) = None) →
  let desired := desiredDeployment pkg f lb (RandStringBytesRmndr pkg 5 (draws w)) in
  let selected := existsb (prefixed lb) (dName <$> ds) in
  ∃ err w' active,
    sync pkg f lb dps w = Ret err w'
    ∧ objects w'
      = (if selected then id else <[(lbNamespace lb, dName desired) := desired]>)
          (put_all (lbNamespace lb) (converged lb desired ds false) (objects w))
    ∧ calls w'
      = calls w ++ requested lb desired ds false
          ++ (if selected then [] else [CreateDeployment (lbNamespace lb) desired])
          ++ [PatchStatus (lbNamespace lb) (lbName lb) active].
Proof.
  intros Hc Hsound Hstep Hacc Hfree desired selected.
  set (q := fresh (dom (heap w))).
  set (w0 := with_heap (<[q := desired]>) (with_draws S w)).
  assert (Hq : heap w0 !! q = Some desired) by apply lookup_insert_eq.
  destruct (sync_loop_run f lb q desired Hacc dps ds false q w0)
    as (a & w1 & Hloop & Hsub & [active Ha] & Ho & Hcalls & _).
  { done. } { by eexists. }
  { eapply cached_weaken; [exact Hc|]. apply insert_fresh_subseteq. }
  { by apply sound_mergeable. } { exact Hstep. }
  assert (Hq1 : heap w1 !! q = Some desired) by (by eapply lookup_weaken).
  pose proof (sync_finish_run f lb q (false || existsb (prefixed lb) (dName <$> ds)) a w1
                desired active Hq1 Ha) as Hfin.
  rewrite sync_unfold. cbv zeta. fold desired q w0. rewrite Hloop.
  cbn [orb] in Hfin |- *. fold selected in Hfin |- *.
  destruct selected eqn:Hsel.
  - destruct Hfin as (err & Hfin). exists err, (answered
      (PatchStatus (lbNamespace lb) (lbName lb) active) err id w1), active.
    split; [done|]. rewrite objects_answered_id. split; [done|].
    destruct err; simpl; rewrite Hcalls; simpl; by rewrite <- !app_assoc.
  - assert (Hfind : find (prefixed lb) (dName <$> ds) = None).
    { unfold selected in Hsel. rewrite existsb_find in Hsel.
      apply bool_decide_eq_false in Hsel.
      destruct (find (prefixed lb) (dName <$> ds)); [|done]. destruct Hsel. by eexists. }
    assert (Hnew : dName desired ∉ dName <$> ds).
    { intros Hin. apply list_elem_of_In in Hin.
      pose proof (find_none _ _ Hfind _ Hin) as Hno.
      pose proof (generated_name_prefixed pkg f lb w) as Hyes.
      unfold generated_name in Hyes. fold desired in Hyes. congruence. }
    assert (Habsent : objects w1 !! (lbNamespace lb, dName desired) = None).
    { rewrite Ho, put_all_other by (by rewrite converged_names). by apply Hfree. }
    destruct Hfin as (err1 & Herr1 & Hfin).
    assert (err1 = None) as ->.
    { apply Herr1. split; [apply Hacc|exact Habsent]. }
    destruct Hfin as (err & Hfin). eexists err, _, active.
    split; [exact Hfin|]. rewrite objects_answered_id. split; [simpl; by rewrite Ho|].
    destruct err; simpl; rewrite Hcalls; simpl; by rewrite <- !app_assoc.
Qed.






(** ** A second pass *)

(** A deployment that has what the descriptor asks for comes out of the
    merge unchanged. *)
Lemma satisfied_unchanged desired d :
  mergeable desired d → satisfies desired d → changed_between (merged desired d) d = false.
Proof.
  intros (([rd Hrd] & Hcd & [da Hda]) & ([r Hr] & Hco & [a Ha]) & Hlo) (Hl & Hrep & Him & Hna).
  destruct (dContainers desired) as [|d0 tld] eqn:Ecd; [done|].
  destruct (dContainers d) as [|c0 tl] eqn:Eco; [done|].
  rewrite (merged_eq desired d rd da d0 tld a c0 tl Hrd Hda Ecd Ha Eco).
  unfold changed_between, labelChanged, replicasChanged, nodeAffinityChanged, imageChanged.
  fields. rewrite Eco, Ha, Hr. rewrite Hda, Ha in Hna. rewrite Hrd, Hr in Hrep.
  simpl in *. injection Hrep as ->. injection Hna as Hna. injection Him as Him.
  rewrite !orb_false_iff, !negb_false_iff, !bool_decide_eq_true.
  repeat split; try done; try congruence.
  unfold merged_labels. destruct (dLabels d) as [l|]; [|done]. f_equal. by apply Hl.
Qed.

(** The merge has what the descriptor asks for. *)
Lemma merged_satisfies desired d : mergeable desired d → satisfies desired (merged desired d).
Proof.
  intros (([rd Hrd] & Hcd & [da Hda]) & ([r Hr] & Hco & [a Ha]) & Hlo).
  destruct (dContainers desired) as [|d0 tld] eqn:Ecd; [done|].
  destruct (dContainers d) as [|c0 tl] eqn:Eco; [done|].
  rewrite (merged_eq desired d rd da d0 tld a c0 tl Hrd Hda Ecd Ha Eco).
  unfold satisfies. fields. rewrite Ecd, Hda. repeat split; try done.
  unfold merged_labels. destruct (dLabels d) as [lo|]; [|done].
  intros l [= <-]. by rewrite (assoc_L (∪)), (idemp_L (∪)).
Qed.









(** ** Errors that a pass drops *)

Lemma returns_nil (out : Outcome error) :
  match out with Ret None _ => true | _ => false end = true →
  out = Ret None (world_of out).
Proof. by destruct out as [[e|] w|k w]. Qed.

(** C2, at an input where the claim fails: the API server rejects the update
    that scales a stray workload to zero; [sync] goes on, creates the desired
    deployment, and returns nil, and the stray workload keeps its three
    replicas. *)
Theorem scale_down_error_is_absorbed :
  let w := Demo.world_of_list [Demo.d_stray] in
  let f := Demo.provider Demo.reject_writes [] in
  let zeroed := set_Replicas (Some 0) Demo.d_stray in
  let out := sync Demo.pkg f Demo.lb1 [1%positive] w in
  reactor (client f) [] (UpdateDeployment "default" zeroed)
    = Some (StatusError StatusReasonConflict "conflict")
  ∧ calls (world_of out) !! 0%nat = Some (UpdateDeployment "default" zeroed)
  ∧ out = Ret None (world_of out)
  ∧ objects (world_of out) !! ("default", "stray") = Some Demo.d_stray.
Proof.
  intros w f zeroed out.
  split; [vm_compute; reflexivity|]. split; [vm_compute; reflexivity|].
  split; [apply returns_nil|]; vm_compute; reflexivity.
Qed.

(** C8, at inputs where the claim fails.  The API server rejects the update
    that scales a stray workload to zero: [sync] returns nil and logs exactly
    what it logs when the update is accepted.  The API server rejects the
    deletes of [cleanup]: [cleanup] returns nil and logs nothing.  In both
    runs neither the return value nor the log shows the error. *)
Theorem dropped_errors_leave_no_trace :
  let w := Demo.world_of_list [Demo.d_stray] in
  let rejected := sync Demo.pkg (Demo.provider Demo.reject_writes []) Demo.lb1 [1%positive] w in
  let accepted := sync Demo.pkg (Demo.provider Demo.accept []) Demo.lb1 [1%positive] w in
  let cw := Demo.world_of_list [Demo.d_stray; Demo.d_old] in
  let cleaned :=
    cleanup Demo.pkg (Demo.provider Demo.reject_writes [1; 2]%positive) Demo.lb1 cw in
  (rejected = Ret None (world_of rejected)
   ∧ accepted = Ret None (world_of accepted)
   ∧ objects (world_of rejected) ≠ objects (world_of accepted)
   ∧ logs (world_of rejected) = logs (world_of accepted))
  ∧ (cleaned = Ret None (world_of cleaned)
     ∧ objects (world_of cleaned) = objects cw
     ∧ logs (world_of cleaned) = []).
Proof.
  intros w rejected accepted cw cleaned. split.
  - split; [apply returns_nil; vm_compute; reflexivity|].
    split; [apply returns_nil; vm_compute; reflexivity|].
    split; [|vm_compute; reflexivity].
    assert (Hr : dReplicas <$> objects (world_of rejected) !! ("default", "stray")
                 = Some (Some 3)) by (vm_compute; reflexivity).
    assert (Ha : dReplicas <$> objects (world_of accepted) !! ("default", "stray")
                 = Some (Some 0)) by (vm_compute; reflexivity).
    intros Heq. rewrite Heq, Ha in Hr. discriminate Hr.
  - split; [apply returns_nil; vm_compute; reflexivity|].
    split; reflexivity.
Qed.
(** ** The event filters *)

Lemma Matches_spec s ls :
  Matches s ls = true ↔ ∀ k v, s !! k = Some v → default ∅ ls !! k = Some v.
Proof.
  unfold Matches. rewrite forallb_forall. split.
  - intros Hall k v Hkv.
    apply (bool_decide_eq_true_1 _), (Hall (k, v)), list_elem_of_In.
    by apply elem_of_map_to_list.
  - intros Hall [k v] Hin. apply bool_decide_eq_true_2, Hall.
    by apply elem_of_map_to_list, list_elem_of_In.
Qed.

Lemma filteredByLabel_false pkg {A} `{ObjectMetaAccessor A} (obj : A) :
  filteredByLabel pkg obj = false
  ↔ default ∅ (metav1.Labels (GetObjectMeta obj)) !! LabelKeyProvider pkg = Some providerName.
Proof.
  unfold filteredByLabel. rewrite negb_false_iff, Matches_spec. unfold GetLabels. split.
  - intros Hall. apply Hall, lookup_singleton_eq.
  - intros Hl k v [<- <-]%lookup_singleton_Some. exact Hl.
Qed.

Lemma selector_provider pkg lb : selector pkg lb !! LabelKeyProvider pkg = Some providerName.
Proof. apply lookup_insert_eq. Qed.

(** X1: the event filters let through exactly the objects that carry the
    provider label with the value [ipvsdr]: a deployment or a pod is
    filtered out unless its label map has that entry, and so is every object
    without a label map. *)
Theorem filters_pass_exactly_the_provider_label pkg :
  (∀ d, deploymentFiltered pkg d = false
        ↔ default ∅ (dLabels d) !! LabelKeyProvider pkg = Some providerName)
  ∧ (∀ p, podFiltered pkg p = false
          ↔ default ∅ (metav1.Labels (PodMeta p)) !! LabelKeyProvider pkg = Some providerName)
  ∧ (∀ d, dLabels d = None → deploymentFiltered pkg d = true)
  ∧ (∀ p, metav1.Labels (PodMeta p) = None → podFiltered pkg p = true).
Proof.
  split; [intros d; apply (filteredByLabel_false pkg d)|].
  split; [intros p; apply (filteredByLabel_false pkg p)|].
  split.
  - intros d Hnil. apply not_false_iff_true.
    intros Hpass%(filteredByLabel_false pkg d).
    change (metav1.Labels (GetObjectMeta d)) with (dLabels d) in Hpass.
    by rewrite Hnil in Hpass.
  - intros p Hnil. apply not_false_iff_true.
    intros Hpass%(filteredByLabel_false pkg p).
    change (metav1.Labels (GetObjectMeta p)) with (metav1.Labels (PodMeta p)) in Hpass.
    by rewrite Hnil in Hpass.
Qed.

(** X2: what [generateDeployment] builds comes back to the provider.  The
    deployment passes the deployment filter, a pod made from its template
    passes the pod filter, the selector with which
    [getDeploymentsForLoadBalancer] lists matches the deployment, and the
    label selector of its pod anti-affinity matches its own pods. *)
Theorem generated_deployment_passes_the_filters pkg f lb suffix :
  let d := desiredDeployment pkg f lb suffix in
  let template := extensions.Template (extensions.Spec d) in
  deploymentFiltered pkg d = false
  ∧ (∀ spec, podFiltered pkg {| PodMeta := v1.TemplateMeta template; PodSpec_ := spec |}
             = false)
  ∧ Matches (selector pkg lb) (dLabels d) = true
  ∧ ∀ a anti term ml,
      dAffinity d = Some a → v1.PodAntiAffinity_ a = Some anti →
      term ∈ v1.AntiRequiredDuringSchedulingIgnoredDuringExecution anti →
      v1.MatchLabels term = Some ml →
      Matches ml (metav1.Labels (v1.TemplateMeta template)) = true.
Proof.
  intros d template.
  split; [apply (filteredByLabel_false pkg d), selector_provider|].
  split.
  { intros spec.
    apply (filteredByLabel_false pkg {| PodMeta := v1.TemplateMeta template; PodSpec_ := spec |}),
      selector_provider. }
  split; [by apply Matches_spec|].
  intros a anti term ml [= <-] [= <-] Hterm Hml. simpl in Hterm.
  apply list_elem_of_singleton in Hterm as ->. injection Hml as <-.
  apply Matches_spec. intros k v [<- <-]%lookup_singleton_Some. apply selector_provider.
Qed.
(** ** More on the merge of [ensureDeployment] *)

Lemma merged_well_formed desired d : mergeable desired d → well_formed (merged desired d).
Proof.
  intros (([rd Hrd] & Hcd & [da Hda]) & ([r Hr] & Hco & [a Ha]) & Hlo).
  destruct (dContainers desired) as [|d0 tld] eqn:Ecd; [done|].
  destruct (dContainers d) as [|c0 tl] eqn:Eco; [done|].
  rewrite (merged_eq desired d rd da d0 tld a c0 tl Hrd Hda Ecd Ha Eco).
  unfold well_formed. fields. split; [by eexists|]. split; [done|by eexists].
Qed.

Lemma merged_mergeable desired d : mergeable desired d → mergeable desired (merged desired d).
Proof.
  intros Hm. split; [apply Hm|]. split; [by apply merged_well_formed|].
  destruct Hm as (([rd Hrd] & Hcd & [da Hda]) & ([r Hr] & Hco & [a Ha]) & Hlo).
  destruct (dContainers desired) as [|d0 tld] eqn:Ecd; [done|].
  destruct (dContainers d) as [|c0 tl] eqn:Eco; [done|].
  rewrite (merged_eq desired d rd da d0 tld a c0 tl Hrd Hda Ecd Ha Eco).
  unfold labels_assignable in *. fields. unfold merged_labels.
  destruct Hlo as [[lo Hlo]|Hempty]; [|by right]. rewrite Hlo. left. by eexists.
Qed.

Lemma changed_between_refl d : changed_between d d = false.
Proof.
  unfold changed_between, labelChanged, replicasChanged, nodeAffinityChanged, imageChanged.
  by rewrite !bool_decide_eq_true_2.
Qed.

Lemma announcement_unchanged c old : changed_between c old = false → announcement c old = [].
Proof. unfold announcement. by intros ->. Qed.

(** X3: a deployment that went through the merge with a generated
    descriptor passes the deployment filter and matches the selector of the
    load balancer, whatever labels it had before: the next event about it
    reaches the provider, and the next pass lists it again. *)
Theorem converged_copy_passes_the_filter pkg f lb s q p w old :
  heap w !! q = Some (desiredDeployment pkg f lb s) → heap w !! p = Some old →
  sound old →
  ∃ c changed w' m,
    ensureDeployment f q p w = Ret (inl (c, changed)) w'
    ∧ heap w' !! c = Some m
    ∧ deploymentFiltered pkg m = false
    ∧ Matches (selector pkg lb) (dLabels m) = true.
Proof.
  intros Hq Hp [Hwo [lo Hlo]].
  assert (Hm : mergeable (desiredDeployment pkg f lb s) old).
  { split; [apply desired_well_formed|]. split; [done|]. left. by eexists. }
  destruct Hm as (Hwd & _ & Hassign).
  rewrite (ensureDeployment_run f q p w _ old Hq Hp Hwd Hwo Hassign).
  eexists _, _, _, _. split; [reflexivity|]. split; [lookup|].
  assert (Hlabels : dLabels (merged (desiredDeployment pkg f lb s) old)
                    = Some (selector pkg lb ∪ lo)).
  { destruct Hwd as ([rd Hrd] & Hcd & [da Hda]). destruct Hwo as ([r Hr] & Hco & [a Ha]).
    destruct (dContainers (desiredDeployment pkg f lb s)) as [|d0 tld] eqn:Ecd; [done|].
    destruct (dContainers old) as [|c0 tl] eqn:Eco; [done|].
    rewrite (merged_eq _ old rd da d0 tld a c0 tl Hrd Hda Ecd Ha Eco). fields.
    unfold merged_labels. by rewrite Hlo. }
  split.
  - apply (filteredByLabel_false pkg (merged (desiredDeployment pkg f lb s) old)).
    change (metav1.Labels (GetObjectMeta ?d)) with (dLabels d). rewrite Hlabels. simpl.
    apply lookup_union_Some_l, selector_provider.
  - apply Matches_spec. intros k v Hkv. rewrite Hlabels. simpl.
    by apply lookup_union_Some_l.
Qed.

Lemma converged_copy_passes_the_filter_witness :
  ∃ c changed w' m,
    ensureDeployment (Demo.provider Demo.accept []) 2 1 Demo.w_generated
      = Ret (inl (c, changed)) w'
    ∧ heap w' !! c = Some m
    ∧ deploymentFiltered Demo.pkg m = false.
Proof.
  destruct (converged_copy_passes_the_filter Demo.pkg (Demo.provider Demo.accept []) Demo.lb1
              "abcde" 2 1 Demo.w_generated Demo.d_old)
    as (c & ch & w' & m & Hrun & Hm & Hpass & _).
  - vm_compute. reflexivity.
  - vm_compute. reflexivity.
  - split; [|by eexists]. split; [by eexists|]. split; [done|by eexists].
  - exists c, ch, w', m. split; [exact Hrun|]. split; [exact Hm|exact Hpass].
Defined.

(** X4: the merge writes four fields and no other.  In the copy that
    [ensureDeployment] returns, the replicas, the image of the first
    container and the node affinity are the descriptor's; the name, the
    owner references, the pod template's other fields, the first
    container's other fields, the other containers and the pod
    anti-affinity are the original's. *)
Theorem ensureDeployment_replaces_three_fields f q p w desired old :
  heap w !! q = Some desired → heap w !! p = Some old → mergeable desired old →
  ∃ c changed w' m,
    ensureDeployment f q p w = Ret (inl (c, changed)) w'
    ∧ heap w' !! c = Some m
    ∧ dReplicas m = dReplicas desired
    ∧ v1.Image <$> head (dContainers m) = v1.Image <$> head (dContainers desired)
    ∧ v1.NodeAffinity_ <$> dAffinity m = v1.NodeAffinity_ <$> dAffinity desired
    ∧ untouched m = untouched old.
Proof.
  intros Hq Hp Hm. pose proof Hm as (Hwd & Hwo & Hassign).
  rewrite (ensureDeployment_run f q p w desired old Hq Hp Hwd Hwo Hassign).
  eexists _, _, _, _. split; [reflexivity|]. split; [lookup|].
  destruct (merged_satisfies desired old Hm) as (_ & Hr & Hi & Hn).
  split; [exact Hr|]. split; [exact Hi|]. split; [exact Hn|].
  destruct Hwd as ([rd Hrd] & Hcd & [da Hda]). destruct Hwo as ([r Hr'] & Hco & [a Ha]).
  destruct (dContainers desired) as [|d0 tld] eqn:Ecd; [done|].
  destruct (dContainers old) as [|c0 tl] eqn:Eco; [done|].
  rewrite (merged_eq desired old rd da d0 tld a c0 tl Hrd Hda Ecd Ha Eco).
  unfold untouched. fields. rewrite Eco, Ha. reflexivity.
Qed.

Lemma ensureDeployment_replaces_three_fields_witness :
  ∃ c changed w' m,
    ensureDeployment (Demo.provider Demo.accept []) 2 1 Demo.w_generated
      = Ret (inl (c, changed)) w'
    ∧ heap w' !! c = Some m
    ∧ dReplicas m = Some 2
    ∧ dName m = "lb1-provider-ipvsdr-zzzzz".
Proof.
  destruct (ensureDeployment_replaces_three_fields (Demo.provider Demo.accept []) 2 1
              Demo.w_generated Demo.desired Demo.d_old)
    as (c & ch & w' & m & Hrun & Hm & Hr & _ & _ & Hu).
  - vm_compute. reflexivity.
  - vm_compute. reflexivity.
  - split; [|split]; [| |by left; eexists]; (split; [by eexists|]; split; [done|by eexists]).
  - exists c, ch, w', m. split; [exact Hrun|]. split; [exact Hm|]. split; [exact Hr|].
    apply (f_equal (λ t, t.1.1.1.1.1.1.1.1)) in Hu. exact Hu.
Defined.

(** X5: the flag that [ensureDeployment] returns is false exactly when the
    copy equals the original, so a pass that sends no update has nothing
    that differs from what is stored; in that case it logs nothing. *)
Theorem unchanged_flag_means_equal_copy f q p w desired old c changed w' :
  heap w !! q = Some desired → heap w !! p = Some old →
  ensureDeployment f q p w = Ret (inl (c, changed)) w' →
  ∃ m, heap w' !! c = Some m
    ∧ (changed = false ↔ m = old)
    ∧ (changed = false → logs w' = logs w).
Proof.
  intros Hq Hp Hrun.
  pose proof (ensureDeployment_inv f q p w desired old _ _ Hq Hp Hrun) as Hm.
  pose proof Hm as (Hwd & Hwo & Hassign).
  rewrite (ensureDeployment_run f q p w desired old Hq Hp Hwd Hwo Hassign) in Hrun.
  injection Hrun as <- <- <-.
  exists (merged desired old). split; [lookup|]. split; [split|].
  - by apply merged_unchanged.
  - intros Heq. rewrite Heq. apply changed_between_refl.
  - intros Hch. simpl. by rewrite (announcement_unchanged _ _ Hch), app_nil_r.
Qed.

Lemma unchanged_flag_means_equal_copy_witness :
  ∃ c changed w' m,
    ensureDeployment (Demo.provider Demo.accept []) 2 1 Demo.w_generated
      = Ret (inl (c, changed)) w'
    ∧ heap w' !! c = Some m
    ∧ (changed = false ↔ m = Demo.d_old).
Proof.
  assert (Hq : heap Demo.w_generated !! 2%positive = Some Demo.desired)
    by (vm_compute; reflexivity).
  assert (Hp : heap Demo.w_generated !! 1%positive = Some Demo.d_old)
    by (vm_compute; reflexivity).
  assert (Hwd : well_formed Demo.desired) by apply desired_well_formed.
  assert (Hwo : well_formed Demo.d_old) by (split; [by eexists|]; split; [done|by eexists]).
  assert (Hassign : labels_assignable Demo.desired Demo.d_old) by (left; by eexists).
  pose proof (ensureDeployment_run (Demo.provider Demo.accept []) 2 1 Demo.w_generated
                Demo.desired Demo.d_old Hq Hp Hwd Hwo Hassign) as Hrun.
  destruct (unchanged_flag_means_equal_copy _ _ _ _ _ _ _ _ _ Hq Hp Hrun) as (m & Hm & Hiff & _).
  eexists _, _, _, m. split; [exact Hrun|]. split; [exact Hm|exact Hiff].
Defined.

(** X6: the merge is idempotent.  When [ensureDeployment] is run on the copy
    that it returned, with the same descriptor, it reports no change, logs
    nothing, and its new copy equals the first one. *)
Theorem ensureDeployment_twice_is_once f q p w desired old :
  heap w !! q = Some desired → heap w !! p = Some old → mergeable desired old →
  ∃ c changed w1,
    ensureDeployment f q p w = Ret (inl (c, changed)) w1
    ∧ ∃ c2 w2,
        ensureDeployment f q c w1 = Ret (inl (c2, false)) w2
        ∧ heap w2 !! c2 = heap w1 !! c
        ∧ logs w2 = logs w1.
Proof.
  intros Hq Hp Hm. pose proof Hm as (Hwd & Hwo & Hassign).
  rewrite (ensureDeployment_run f q p w desired old Hq Hp Hwd Hwo Hassign).
  eexists _, _, _. split; [reflexivity|].
  set (w1 := with_logs _ _).
  assert (Hq1 : heap w1 !! q = Some desired).
  { unfold w1. simpl. rewrite lookup_insert_ne; [done|]. by eapply fresh_ne. }
  assert (Hc1 : heap w1 !! fresh (dom (heap w)) = Some (merged desired old)).
  { unfold w1. simpl. apply lookup_insert_eq. }
  pose proof (merged_mergeable desired old Hm) as Hm1.
  pose proof Hm1 as (_ & Hwm & Hassign1).
  rewrite (ensureDeployment_run f q _ w1 desired _ Hq1 Hc1 Hwd Hwm Hassign1).
  pose proof (satisfied_unchanged desired _ Hm1 (merged_satisfies desired old Hm)) as Hsame.
  rewrite Hsame, (announcement_unchanged _ _ Hsame).
  eexists _, _. split; [reflexivity|].
  rewrite (merged_unchanged desired _ Hm1 Hsame). split.
  - simpl. rewrite lookup_insert_eq. symmetry. exact Hc1.
  - simpl. by rewrite app_nil_r.
Qed.

Lemma ensureDeployment_twice_is_once_witness :
  ∃ c changed w1 c2 w2,
    ensureDeployment (Demo.provider Demo.accept []) 2 1 Demo.w_generated
      = Ret (inl (c, changed)) w1
    ∧ ensureDeployment (Demo.provider Demo.accept []) 2 c w1 = Ret (inl (c2, false)) w2
    ∧ heap w2 !! c2 = heap w1 !! c.
Proof.
  destruct (ensureDeployment_twice_is_once (Demo.provider Demo.accept []) 2 1
              Demo.w_generated Demo.desired Demo.d_old)
    as (c & ch & w1 & Hrun & c2 & w2 & Hrun2 & Hsame & _).
  - vm_compute. reflexivity.
  - vm_compute. reflexivity.
  - split; [|split]; [| |by left; eexists]; (split; [by eexists|]; split; [done|by eexists]).
  - exists c, ch, w1, c2, w2. split; [exact Hrun|]. split; [exact Hrun2|exact Hsame].
Defined.
(** ** What a pass sends *)

Section Sends.

Context (P : Call → Prop).

Lemma sends_pure {A} (m : M A) : (∀ w, calls (world_of (m w)) = calls w) → sends P m.
Proof. intros Hm w. exists []. by rewrite Hm, app_nil_r. Qed.

Lemma sends_ret {A} (a : A) : sends P (ret a).
Proof. by apply sends_pure. Qed.

Lemma sends_panic {A} k : sends P (panic (A := A) k).
Proof. by apply sends_pure. Qed.

Lemma sends_bind {A B} (m : M A) (k : A → M B) :
  sends P m → (∀ a, sends P (k a)) → sends P (bind m k).
Proof.
  intros Hm Hk w. destruct (Hm w) as (s1 & Hs1 & HP1). unfold bind.
  destruct (m w) as [a w1|p w1]; [|by exists s1].
  destruct (Hk a w1) as (s2 & Hs2 & HP2). exists (s1 ++ s2).
  simpl in Hs1. rewrite Hs2, Hs1, (assoc_L (++)). split; [done|]. by apply Forall_app.
Qed.

Lemma sends_load p : sends P (load p).
Proof. apply sends_pure. intros w. unfold load. by destruct (heap w !! p). Qed.

Lemma sends_store p d : sends P (store p d).
Proof. apply sends_pure. intros w. unfold store. by destruct (heap w !! p). Qed.

Lemma sends_alloc d : sends P (alloc d).
Proof. by apply sends_pure. Qed.

Lemma sends_deref {A} (o : option A) : sends P (deref o).
Proof. apply sends_pure. intros w. by destruct o. Qed.

Lemma sends_index0 {A} (s : list A) : sends P (index0 s).
Proof. apply sends_pure. intros w. by destruct s. Qed.

Lemma sends_log lv message fs : sends P (log lv message fs).
Proof. by apply sends_pure. Qed.

Lemma sends_assign p g : sends P (assign p g).
Proof. apply sends_bind; [apply sends_load|intros d; apply sends_store]. Qed.

Lemma sends_for_each {A} (l : list A) (body : A → M unit) :
  (∀ a, sends P (body a)) → sends P (for_each l body).
Proof.
  intros Hbody. induction l as [|a l IH]; [apply sends_ret|].
  simpl. apply sends_bind; [apply Hbody|by intros _].
Qed.

Lemma sends_request c call serve : P call → sends P (request c call serve).
Proof.
  intros HP w. exists [call]. split; [|by apply Forall_singleton].
  unfold request. destruct (reactor c (calls w) call); [done|].
  by destruct (serve (objects w)).
Qed.

Lemma sends_DeploymentDeepCopy p : sends P (DeploymentDeepCopy p).
Proof.
  apply sends_bind; [apply sends_load|intros d].
  apply sends_bind; [apply sends_alloc|intros c; apply sends_ret].
Qed.

Lemma sends_map_assign p k v : sends P (map_assign p k v).
Proof.
  apply sends_bind; [apply sends_load|intros d].
  destruct (dLabels d); [apply sends_store|apply sends_panic].
Qed.

Lemma sends_Update c namespace p :
  (∀ d, P (UpdateDeployment namespace d)) → sends P (Update c namespace p).
Proof. intros HP. apply sends_bind; [apply sends_load|intros d; by apply sends_request]. Qed.

Lemma sends_Create c namespace p :
  (∀ d, P (CreateDeployment namespace d)) → sends P (Create c namespace p).
Proof. intros HP. apply sends_bind; [apply sends_load|intros d; by apply sends_request]. Qed.

Lemma sends_syncStatus f lb p :
  (∀ d, P (PatchStatus (lbNamespace lb) (lbName lb) d)) → sends P (syncStatus f lb p).
Proof. intros HP. apply sends_bind; [apply sends_load|intros d; by apply sends_request]. Qed.

Lemma sends_ensureDeployment f q p : sends P (ensureDeployment f q p).
Proof.
  unfold ensureDeployment.
  apply sends_bind; [apply sends_DeploymentDeepCopy|intros [c|e]; [|apply sends_ret]].
  repeat first
    [ apply sends_ret | apply sends_load | apply sends_store | apply sends_assign
    | apply sends_deref | apply sends_index0 | apply sends_log
    | apply sends_for_each; intros [??]; apply sends_map_assign
    | match goal with |- sends _ (if ?b then _ else _) => destruct b end
    | apply sends_bind; [|intros ?] ].
Qed.

End Sends.

Lemma sends_weaken {A} (P Q : Call → Prop) (m : M A) :
  sends P m → (∀ c, P c → Q c) → sends Q m.
Proof.
  intros Hm HPQ w. destruct (Hm w) as (s & Hs & HP). exists s. split; [done|].
  eapply Forall_impl; [exact HP|exact HPQ].
Qed.

Lemma sends_sync_body f lb q dp updated activeDeploy :
  sends (λ c, ∃ d, c = UpdateDeployment (lbNamespace lb) d)
    (sync_body f lb q dp updated activeDeploy).
Proof.
  unfold sync_body. apply sends_bind; [apply sends_load|intros d].
  destruct (negb (prefixed lb (dName d)) || updated).
  - apply sends_bind; [apply sends_deref|intros r]. destruct (r =? 0); [apply sends_ret|].
    apply sends_bind; [apply sends_log|intros _].
    apply sends_bind; [apply sends_DeploymentDeepCopy|intros copied].
    apply sends_bind; [destruct copied; [apply sends_ret|apply sends_panic]|intros c].
    apply sends_bind; [apply sends_assign|intros _].
    apply sends_bind; [apply sends_Update; by eexists|intros _; apply sends_ret].
  - apply sends_bind; [apply sends_ensureDeployment|intros [[c changed]|e]; [|apply sends_ret]].
    apply sends_bind; [|intros [e|]; apply sends_ret].
    destruct changed; [|apply sends_ret].
    apply sends_bind; [apply sends_log|intros _; apply sends_Update; by eexists].
Qed.

Lemma sends_sync_loop f lb q dps : ∀ updated activeDeploy,
  sends (λ c, ∃ d, c = UpdateDeployment (lbNamespace lb) d)
    (sync_loop f lb q dps updated activeDeploy).
Proof.
  induction dps as [|dp dps IH]; intros updated activeDeploy; [apply sends_ret|].
  simpl. apply sends_bind; [apply sends_sync_body|intros [e|u a]]; [apply sends_ret|apply IH].
Qed.

Lemma syncStatus_calls f lb a w :
  calls (world_of (syncStatus f lb a w)) = calls w
  ∨ ∃ d, calls (world_of (syncStatus f lb a w))
         = calls w ++ [PatchStatus (lbNamespace lb) (lbName lb) d].
Proof.
  unfold syncStatus, bind, load. destruct (heap w !! a) as [d|]; [|by left].
  right. exists d. unfold request. by destruct (reactor _ _ _).
Qed.

Lemma sync_finish_calls f lb q updated a w :
  ∃ tail, calls (world_of (sync_finish f lb q updated a w)) = calls w ++ tail
          ∧ closing lb tail.
Proof.
  unfold sync_finish. destruct updated; simpl.
  - unfold bind at 1, ret at 1.
    destruct (syncStatus_calls f lb a w) as [Hs|[d Hs]]; rewrite Hs.
    + exists []. split; [by rewrite app_nil_r|by left].
    + eexists. split; [done|]. right. right. right. by eexists.
  - unfold bind at 1. unfold bind at 1, load.
    destruct (heap w !! q) as [desired|] eqn:Hq;
      [|exists []; split; [by rewrite app_nil_r|by left]].
    unfold bind at 1, log. unfold Create, bind at 1, load. simpl. rewrite Hq.
    unfold request. simpl.
    destruct (reactor _ _ _) as [e|]; simpl.
    { eexists. split; [done|]. right. left. by eexists. }
    destruct (objects w !! _); simpl.
    { eexists. split; [done|]. right. left. by eexists. }
    match goal with |- context [syncStatus f lb a ?w1] =>
      destruct (syncStatus_calls f lb a w1) as [Hs|[d' Hs]]; rewrite Hs end; simpl.
    + eexists. split; [done|]. right. left. by eexists.
    + eexists. split; [by rewrite <- (assoc_L (++))|]. right. right. left. by eexists _, _.
Qed.

(** X7: what a converge pass asks of the API server, on every input and
    whether it returns or panics.  It takes no request off the record; what
    it adds is a run of updates of deployments in the namespace of the load
    balancer, followed by at most one create in that namespace and at most
    one write of the status of that load balancer, in this order.  It never
    deletes. *)
Theorem sync_sends_updates_then_create_then_status pkg f lb dps w :
  ∃ updates tail,
    calls (world_of (sync pkg f lb dps w)) = calls w ++ updates ++ tail
    ∧ Forall (λ c, ∃ d, c = UpdateDeployment (lbNamespace lb) d) updates
    ∧ closing lb tail
    ∧ Forall (converge_request lb) (updates ++ tail).
Proof.
  assert (Hshape : ∃ updates tail,
             calls (world_of (sync pkg f lb dps w)) = calls w ++ updates ++ tail
             ∧ Forall (λ c, ∃ d, c = UpdateDeployment (lbNamespace lb) d) updates
             ∧ closing lb tail).
  { rewrite sync_unfold. cbv zeta.
    set (q := fresh (dom (heap w))). set (w0 := with_heap _ _).
    destruct (sends_sync_loop f lb q dps false q w0) as (ups & Hups & Hall).
    change (calls w0) with (calls w) in Hups.
    destruct (sync_loop f lb q dps false q w0) as [[e|u a] w1|k w1]; simpl in Hups.
    - exists ups, []. rewrite app_nil_r. split; [done|]. split; [done|by left].
    - destruct (sync_finish_calls f lb q u a w1) as (tail & Htail & Hclosing).
      exists ups, tail. rewrite Htail, Hups, (assoc_L (++)). by split.
    - exists ups, []. rewrite app_nil_r. split; [done|]. split; [done|by left]. }
  destruct Hshape as (ups & tail & Hcalls & Hups & Hclosing).
  exists ups, tail. split; [done|]. split; [done|]. split; [done|].
  apply Forall_app. split.
  - eapply Forall_impl; [exact Hups|]. by intros c [d ->].
  - destruct Hclosing as [->|[[d ->]|[(d & a & ->)|[a ->]]]];
      repeat (apply Forall_cons; split; [done|]); by apply Forall_nil.
Qed.
(** ** Errors that end a pass *)

Lemma returns_ret {A} (a : A) (Q : A → Prop) : Q a → returns (ret a) Q.
Proof. by intros HQ w a' w' [= <- _]. Qed.

Lemma returns_bind {A B} (m : M A) (k : A → M B) (Q : A → Prop) (R : B → Prop) :
  returns m Q → (∀ a, Q a → returns (k a) R) → returns (bind m k) R.
Proof.
  intros Hm Hk w b w' Hrun. unfold bind in Hrun.
  destruct (m w) as [a w1|] eqn:Hmw; [|done]. exact (Hk a (Hm _ _ _ Hmw) _ _ _ Hrun).
Qed.

Lemma returns_any {A} (m : M A) : returns m (λ _, True).
Proof. by intros w a w' _. Qed.

Lemma returns_panic {A} k (Q : A → Prop) : returns (panic k) Q.
Proof. by intros w a w'. Qed.

Lemma sync_body_no_target f lb q dp updated activeDeploy :
  returns (sync_body f lb q dp updated activeDeploy) (no_target_yet updated activeDeploy).
Proof.
  unfold sync_body. eapply returns_bind; [apply returns_any|intros d _].
  destruct (negb (prefixed lb (dName d)) || updated) eqn:Hcond.
  - assert (Hret : returns (ret (A := Flow) (Next updated activeDeploy))
                     (no_target_yet updated activeDeploy)).
    { apply returns_ret. by destruct updated. }
    eapply returns_bind; [apply returns_any|intros r _].
    destruct (r =? 0); [exact Hret|].
    repeat (eapply returns_bind; [apply returns_any|intros ? _]). exact Hret.
  - eapply returns_bind; [apply returns_any|intros [[c changed]|e] _];
      [|by apply returns_ret].
    eapply returns_bind; [apply returns_any|intros [e|] _]; by apply returns_ret.
Qed.

Lemma sync_loop_no_target f lb q dps : ∀ updated activeDeploy,
  returns (sync_loop f lb q dps updated activeDeploy) (no_target_yet updated activeDeploy).
Proof.
  induction dps as [|dp dps IH]; intros updated activeDeploy.
  - apply returns_ret. by destruct updated.
  - simpl. eapply returns_bind; [apply sync_body_no_target|intros [e|u a] Hbody].
    + by apply returns_ret.
    + intros w flow w' Hrun. pose proof (IH u a w flow w' Hrun) as Hrest.
      destruct flow as [e|[] a']; try done. destruct Hrest as [-> ->]. exact Hbody.
Qed.

Lemma loop_start_desired pkg f lb w :
  heap (loop_start pkg f lb w) !! fresh (dom (heap w))
  = Some (desiredDeployment pkg f lb (RandStringBytesRmndr pkg 5 (draws w))).
Proof. apply lookup_insert_eq. Qed.

(** The desired deployment stays in memory, as it is, while the loop
    runs. *)
Lemma sync_loop_keeps_desired pkg f lb w dps u a flow w1 :
  sync_loop f lb (fresh (dom (heap w))) dps u a (loop_start pkg f lb w) = Ret flow w1 →
  heap w1 !! fresh (dom (heap w))
  = Some (desiredDeployment pkg f lb (RandStringBytesRmndr pkg 5 (draws w))).
Proof.
  intros Hrun.
  set (q := fresh (dom (heap w))).
  set (desired := desiredDeployment pkg f lb (RandStringBytesRmndr pkg 5 (draws w))).
  destruct (keeps_sync_loop {[ q := desired ]} f lb q dps u a (loop_start pkg f lb w))
    as [Hkeep _].
  { apply map_singleton_subseteq_l, loop_start_desired. }
  fold q in Hrun. rewrite Hrun in Hkeep. simpl in Hkeep.
  by apply map_singleton_subseteq_l in Hkeep.
Qed.

Lemma sync_from_loop pkg f lb dps w :
  sync pkg f lb dps w
  = match sync_loop f lb (fresh (dom (heap w))) dps false (fresh (dom (heap w)))
            (loop_start pkg f lb w) with
    | Ret (Return err) w1 => Ret err w1
    | Ret (Next updated activeDeploy) w1 =>
        sync_finish f lb (fresh (dom (heap w))) updated activeDeploy w1
    | Panic k w1 => Panic k w1
    end.
Proof. apply sync_unfold. Qed.

(** X8: an error of the create ends the pass.  When the loop has found no
    target and the API server rejects the create of the desired deployment
    with [e], [sync] returns [e]: the create is the last request of the
    pass, nothing is stored, and the status of the load balancer is not
    written. *)
Theorem create_error_ends_the_pass pkg f lb dps w a w1 e :
  let q := fresh (dom (heap w)) in
  let desired := desiredDeployment pkg f lb (RandStringBytesRmndr pkg 5 (draws w)) in
  let create := CreateDeployment (lbNamespace lb) desired in
  sync_loop f lb q dps false q (loop_start pkg f lb w) = Ret (Next false a) w1 →
  reactor (client f) (calls w1) create = Some e →
  ∃ w', sync pkg f lb dps w = Ret (Some e) w'
    ∧ calls w' = calls w1 ++ [create]
    ∧ objects w' = objects w1
    ∧ logs w' = logs w1 ++ [create_record lb desired].
Proof.
  intros q desired create Hloop Hreject.
  pose proof (sync_loop_keeps_desired pkg f lb w dps false q _ w1 Hloop) as Hq.
  rewrite sync_from_loop. fold q. rewrite Hloop.
  unfold sync_finish. simpl negb. cbv iota.
  assert (Hcreate : (let* desired0 := load q in
                     let* _ := log Info "Create ipvsdr for lb"
                                   [("d.name", dName desired0); ("lb.name", lbName lb)] in
                     Create (client f) (lbNamespace lb) q) w1
                    = Ret (Some e)
                        (with_calls (λ l, l ++ [create])
                           (with_logs (λ l, l ++ [create_record lb desired]) w1))).
  { run. run. unfold Create. run. unfold request. simpl. fold desired create.
    by rewrite Hreject. }
  erewrite bind_Ret; [|exact Hcreate].
  eexists. split; [reflexivity|]. by repeat split.
Qed.

Lemma create_error_ends_the_pass_witness :
  let f := Cases.provider_with Demo.no_lister (Demo.lister_of []) Cases.reject_creates in
  ∃ w', sync Demo.pkg f Demo.lb1 [1%positive] (Demo.world_of_list [Demo.d_stray])
        = Ret (Some (StatusError StatusReasonUnknown "quota exceeded")) w'
    ∧ ∀ namespace name a, PatchStatus namespace name a ∉ calls w'.
Proof.
  intros f.
  set (w := Demo.world_of_list [Demo.d_stray]).
  set (out := sync_loop f Demo.lb1 (fresh (dom (heap w))) [1%positive] false
                (fresh (dom (heap w))) (loop_start Demo.pkg f Demo.lb1 w)).
  assert (Hloop : out = Ret (Next false (fresh (dom (heap w)))) (world_of out)).
  { assert (Hres : result out = Some (Next false (fresh (dom (heap w)))))
      by (vm_compute; reflexivity).
    destruct out as [flow wo|]; [|done]. injection Hres as ->. reflexivity. }
  assert (Hreject : ∀ d, reactor (client f) (calls (world_of out))
                           (CreateDeployment (lbNamespace Demo.lb1) d)
                         = Some (StatusError StatusReasonUnknown "quota exceeded")) by done.
  destruct (create_error_ends_the_pass Demo.pkg f Demo.lb1 [1%positive] w _ _ _
              Hloop (Hreject _)) as (w' & Hrun & Hcalls & _).
  exists w'. split; [exact Hrun|].
  intros namespace name a Hin. rewrite Hcalls in Hin.
  apply elem_of_app in Hin as [Hin|Hin].
  - assert (Hsent : calls (world_of out)
                    = [UpdateDeployment "default" (set_Replicas (Some 0) Demo.d_stray)])
      by (vm_compute; reflexivity).
    rewrite Hsent in Hin. apply list_elem_of_singleton in Hin. discriminate Hin.
  - apply list_elem_of_singleton in Hin. discriminate Hin.
Defined.
Lemma Update_rejected c namespace p d w e :
  heap w !! p = Some d →
  reactor c (calls w) (UpdateDeployment namespace d) = Some e →
  Update c namespace p w
  = Ret (Some e) (with_calls (λ l, l ++ [UpdateDeployment namespace d]) w).
Proof. intros Hp Hreject. unfold Update. run. unfold request. by rewrite Hreject. Qed.

(** X9: an error of the update of the target ends the pass.  When the loop
    reaches the first workload with the generated prefix, the merge changes
    it, and the API server rejects the update with [e], [sync] returns [e]
    at once: the update is the last request of the pass, nothing is stored,
    and the workloads further down the list are not looked at. *)
Theorem target_update_error_ends_the_pass pkg f lb l1 p l2 w a w1 d e :
  let q := fresh (dom (heap w)) in
  let desired := desiredDeployment pkg f lb (RandStringBytesRmndr pkg 5 (draws w)) in
  let update := UpdateDeployment (lbNamespace lb) (merged desired d) in
  sync_loop f lb q l1 false q (loop_start pkg f lb w) = Ret (Next false a) w1 →
  heap w1 !! p = Some d → prefixed lb (dName d) = true → sound d →
  changed_between (merged desired d) d = true →
  reactor (client f) (calls w1) update = Some e →
  ∃ w', sync pkg f lb (l1 ++ p :: l2) w = Ret (Some e) w'
    ∧ calls w' = calls w1 ++ [update]
    ∧ objects w' = objects w1.
Proof.
  intros q desired update Hloop Hp Hpre [Hwo Hlo] Hch Hreject.
  pose proof (sync_loop_keeps_desired pkg f lb w l1 false q _ w1 Hloop) as Hq.
  fold q desired in Hq.
  assert (Hwd : well_formed desired) by apply desired_well_formed.
  assert (Hassign : labels_assignable desired d) by (by left).
  set (c := fresh (dom (heap w1))).
  set (w2 := with_logs (λ l, l ++ announcement (merged desired d) d)
               (with_heap (<[c := merged desired d]>) w1)).
  assert (Hsend : (let* _ := log Info "Sync ipvsdr for lb"
                                 [("d.name", dName d); ("lb.name", lbName lb)] in
                   Update (client f) (lbNamespace lb) c) w2
                  = Ret (Some e)
                      (with_calls (λ l, l ++ [update])
                         (with_logs (λ l, l ++ [sync_record lb d]) w2))).
  { run. apply Update_rejected; [unfold w2; simpl; apply lookup_insert_eq|exact Hreject]. }
  assert (Hbody : sync_body f lb q p false a w1
                  = Ret (Return (Some e))
                      (with_calls (λ l, l ++ [update])
                         (with_logs (λ l, l ++ [sync_record lb d]) w2))).
  { unfold sync_body. run. rewrite Hpre. change (negb true || false) with false. cbv iota.
    erewrite bind_Ret; [|apply (ensureDeployment_run f q p w1 desired d Hq Hp Hwd Hwo Hassign)].
    rewrite Hch. cbv iota. fold c w2. erewrite bind_Ret; [|exact Hsend]. reflexivity. }
  rewrite sync_from_loop. fold q. rewrite sync_loop_app, Hloop.
  cbn [sync_loop]. erewrite bind_Ret; [|exact Hbody].
  eexists. split; [reflexivity|]. by split.
Qed.

Lemma target_update_error_ends_the_pass_witness :
  let f := Demo.provider Demo.reject_writes [] in
  ∃ w', sync Demo.pkg f Demo.lb1 [1; 2]%positive (Demo.world_of_list [Demo.d_old; Demo.d_twin])
        = Ret (Some (StatusError StatusReasonConflict "conflict")) w'
    ∧ length (calls w') = 1%nat.
Proof.
  intros f.
  set (w := Demo.world_of_list [Demo.d_old; Demo.d_twin]).
  assert (Hp : heap (loop_start Demo.pkg f Demo.lb1 w) !! 1%positive = Some Demo.d_old)
    by (vm_compute; reflexivity).
  assert (Hsound : sound Demo.d_old).
  { split; [|by eexists]. split; [by eexists|]. split; [done|by eexists]. }
  assert (Hch : changed_between
                  (merged (desiredDeployment Demo.pkg f Demo.lb1
                             (RandStringBytesRmndr Demo.pkg 5 (draws w))) Demo.d_old)
                  Demo.d_old = true) by (vm_compute; reflexivity).
  destruct (target_update_error_ends_the_pass Demo.pkg f Demo.lb1 [] 1 [2%positive] w
              _ _ Demo.d_old (StatusError StatusReasonConflict "conflict")
              eq_refl Hp eq_refl Hsound Hch eq_refl) as (w' & Hrun & Hcalls & _).
  exists w'. split; [exact Hrun|]. rewrite Hcalls. reflexivity.
Defined.
(** ** The paths of [syncLoadBalancer] *)

Lemma defer_log_Ret {A} lv message fs (body : M A) w a w' :
  body w = Ret a w' →
  defer (log lv message fs) body w
  = Ret a (with_logs (λ l, l ++ [{| level := lv; msg := message; fields := fs |}]) w').
Proof. intros Hbody. unfold defer. by rewrite Hbody. Qed.

Lemma defer_log_logs {A} lv message fs (body : M A) w :
  logs (world_of (defer (log lv message fs) body w))
  = logs (world_of (body w)) ++ [{| level := lv; msg := message; fields := fs |}].
Proof. unfold defer. by destruct (body w). Qed.

Lemma cached_calls w dps ds :
  cached w dps ds → omap (λ d, cleanup_call <$> heap w !! d) dps = cleanup_call <$> ds.
Proof.
  induction 1 as [|p d dps ds Hp _ IH]; [done|]. simpl. rewrite Hp. simpl. f_equal. exact IH.
Qed.

Lemma cached_is_Some w dps ds : cached w dps ds → Forall (λ d, is_Some (heap w !! d)) dps.
Proof.
  induction 1 as [|p d dps ds Hp _ IH]; [by apply Forall_nil|].
  apply Forall_cons. split; [by eexists|done].
Qed.

(** X11: every pass that gets past validation ends with the record
    "Finished syncing ipvsdr provider" as the last record of the log, on
    every path, also when the pass panics. *)
Theorem every_pass_logs_that_it_finished pkg f lb w :
  ValidateLoadBalancer pkg lb = None →
  last (logs (world_of (syncLoadBalancer pkg f (LoadBalancerObj lb) w)))
  = Some (finished_record pkg lb).
Proof.
  intros Hvalid. unfold syncLoadBalancer. rewrite Hvalid.
  rewrite defer_log_logs. apply last_snoc.
Qed.

Lemma every_pass_logs_that_it_finished_witness :
  last (logs (world_of (syncLoadBalancer Demo.pkg (Demo.provider Demo.accept [1%positive])
                          (LoadBalancerObj Demo.lb1) (Demo.world_of_list [Demo.d_hollow]))))
  = Some (finished_record Demo.pkg Demo.lb1)
  ∧ is_panic (syncLoadBalancer Demo.pkg
                (Cases.provider_with (Cases.lister_with Demo.lb1) (Demo.lister_of [1%positive])
                   Demo.accept)
                (LoadBalancerObj Demo.lb1) (Demo.world_of_list [Demo.d_hollow])) = true
  ∧ last (logs (world_of (syncLoadBalancer Demo.pkg
                (Cases.provider_with (Cases.lister_with Demo.lb1) (Demo.lister_of [1%positive])
                   Demo.accept)
                (LoadBalancerObj Demo.lb1) (Demo.world_of_list [Demo.d_hollow]))))
    = Some (finished_record Demo.pkg Demo.lb1).
Proof.
  split; [|split].
  - apply (every_pass_logs_that_it_finished Demo.pkg). reflexivity.
  - vm_compute. reflexivity.
  - apply (every_pass_logs_that_it_finished Demo.pkg). reflexivity.
Defined.

(** X12: a notification about a load balancer that has been made again
    under the same name is dropped.  When the cache holds a load balancer
    with another UID, the pass returns nil and leaves memory, the API
    server and the work queue alone: it lists nothing, claims nothing and
    sends nothing. *)
Theorem stale_notification_is_dropped pkg f lb nlb w :
  ValidateLoadBalancer pkg lb = None →
  Get (lbLister f) (lbNamespace lb) (lbName lb) w = inl nlb →
  lbUID lb ≠ lbUID nlb →
  syncLoadBalancer pkg f (LoadBalancerObj lb) w
  = Ret None (with_logs (λ l, l ++ [finished_record pkg lb]) w).
Proof.
  intros Hvalid Hget Huid. unfold syncLoadBalancer. rewrite Hvalid.
  apply defer_log_Ret. unfold bind. rewrite Hget.
  apply String.eqb_neq in Huid. by rewrite Huid.
Qed.

Lemma stale_notification_is_dropped_witness :
  let f := Cases.provider_with (Cases.lister_with Cases.lb1_remade)
             (Demo.lister_of [1%positive]) Demo.accept in
  let w := Demo.world_of_list [Demo.d_old] in
  syncLoadBalancer Demo.pkg f (LoadBalancerObj Demo.lb1) w
  = Ret None (with_logs (λ l, l ++ [finished_record Demo.pkg Demo.lb1]) w).
Proof.
  intros f w. apply (stale_notification_is_dropped Demo.pkg f Demo.lb1 Cases.lb1_remade w).
  - reflexivity.
  - reflexivity.
  - discriminate.
Defined.

(** X13: when the cache of load balancers cannot be read, for another
    reason than that the load balancer is gone, the error is handed to
    [HandleError] with the key of the load balancer and returned; nothing
    else happens. *)
Theorem lister_failure_is_reported_and_returned pkg f lb e w :
  ValidateLoadBalancer pkg lb = None →
  Get (lbLister f) (lbNamespace lb) (lbName lb) w = inr e →
  IsNotFound e = false →
  syncLoadBalancer pkg f (LoadBalancerObj lb) w
  = Ret (Some e)
      (with_logs (λ l, l ++ [finished_record pkg lb])
         (with_logs (λ l, l ++ [ {| level := ErrorLevel;
                                    msg := "Unable to retrieve LoadBalancer "
                                           +:+ (KeyFunc pkg lb).1
                                           +:+ " from store: " +:+ Error e;
                                    fields := [] |} ]) w)).
Proof.
  intros Hvalid Hget Hother. unfold syncLoadBalancer. rewrite Hvalid.
  apply defer_log_Ret. unfold bind at 1. rewrite Hget, Hother. reflexivity.
Qed.

Lemma lister_failure_is_reported_and_returned_witness :
  let f := Cases.provider_with Cases.broken_lister (Demo.lister_of [1%positive]) Demo.accept in
  ∃ w', syncLoadBalancer Demo.pkg f (LoadBalancerObj Demo.lb1) (Demo.world_of_list [Demo.d_old])
        = Ret (Some (PlainError "cache is down")) w'
    ∧ calls w' = [].
Proof.
  intros f. eexists. split.
  - apply (lister_failure_is_reported_and_returned Demo.pkg f Demo.lb1
             (PlainError "cache is down")); reflexivity.
  - reflexivity.
Defined.

(** X14: a load balancer that is being deleted is not converged.  When the
    load balancer of the cache has a deletion timestamp, the pass claims
    its deployments and returns nil: no deployment is generated, nothing is
    created, updated or scaled, and the status is not written. *)
Theorem terminating_resource_is_not_converged pkg f lb nlb w dps w1 :
  ValidateLoadBalancer pkg lb = None →
  Get (lbLister f) (lbNamespace lb) (lbName lb) w = inl nlb →
  lbUID lb = lbUID nlb →
  getDeploymentsForLoadBalancer pkg f nlb w = Ret (dps, None) w1 →
  is_Some (metav1.DeletionTimestamp (netv1alpha1.Meta nlb)) →
  syncLoadBalancer pkg f (LoadBalancerObj lb) w
  = Ret None (with_logs (λ l, l ++ [finished_record pkg lb]) w1).
Proof.
  intros Hvalid Hget Huid Hclaim [t Ht]. unfold syncLoadBalancer. rewrite Hvalid.
  apply defer_log_Ret. unfold bind at 1. rewrite Hget.
  apply String.eqb_eq in Huid. rewrite Huid. change (negb true) with false. cbv iota.
  rewrite (bind_Ret _ _ _ _ _ Hclaim). by rewrite Ht.
Qed.

Lemma terminating_resource_is_not_converged_witness :
  let f := Cases.provider_with (Cases.lister_with Cases.lb1_terminating)
             (Demo.lister_of [1%positive]) Demo.accept in
  let w := Demo.world_of_list [Demo.d_old] in
  syncLoadBalancer Demo.pkg f (LoadBalancerObj Demo.lb1) w
  = Ret None (with_logs (λ l, l ++ [finished_record Demo.pkg Demo.lb1]) w).
Proof.
  intros f w.
  apply (terminating_resource_is_not_converged Demo.pkg f Demo.lb1 Cases.lb1_terminating w
           [1%positive] w).
  - reflexivity.
  - reflexivity.
  - reflexivity.
  - reflexivity.
  - by eexists.
Defined.

(** X15: when the deployments cannot be listed, the pass ends with the
    error of the lister before anything is claimed, whether the load
    balancer is in the cache or gone: no request is sent, and memory and
    the API server are as before. *)
Theorem list_failure_aborts_the_pass pkg f lb e w :
  ValidateLoadBalancer pkg lb = None →
  (∀ namespace sel w0, (ListDeployments (dLister f) namespace sel w0).2 = Some e) →
  match Get (lbLister f) (lbNamespace lb) (lbName lb) w with
  | inl nlb => lbUID lb = lbUID nlb
  | inr err => IsNotFound err = true
  end →
  ∃ w', syncLoadBalancer pkg f (LoadBalancerObj lb) w = Ret (Some e) w'
    ∧ calls w' = calls w ∧ objects w' = objects w ∧ heap w' = heap w.
Proof.
  intros Hvalid Hlist Hget.
  assert (Hclaim : ∀ lb0 w0, getDeploymentsForLoadBalancer pkg f lb0 w0 = Ret ([], Some e) w0).
  { intros lb0 w0. unfold getDeploymentsForLoadBalancer, bind.
    pose proof (Hlist (lbNamespace lb0) (selector pkg lb0) w0) as Hl.
    destruct (ListDeployments _ _ _ _) as [l err]. simpl in Hl. by rewrite Hl. }
  unfold syncLoadBalancer. rewrite Hvalid.
  destruct (Get (lbLister f) (lbNamespace lb) (lbName lb) w) as [nlb|err] eqn:Hg.
  - eexists. split.
    + apply defer_log_Ret. unfold bind at 1. rewrite Hg.
      apply String.eqb_eq in Hget. rewrite Hget. change (negb true) with false. cbv iota.
      rewrite (bind_Ret _ _ _ _ _ (Hclaim nlb w)). reflexivity.
    + done.
  - eexists. split.
    + apply defer_log_Ret. unfold bind at 1. rewrite Hg, Hget.
      erewrite bind_Ret; [|reflexivity]. unfold cleanup.
      rewrite (bind_Ret _ _ _ _ _ (Hclaim lb _)). reflexivity.
    + done.
Qed.

Lemma list_failure_aborts_the_pass_witness :
  ∃ w', syncLoadBalancer Demo.pkg
          (Cases.provider_with (Cases.lister_with Demo.lb1) Cases.broken_list Demo.accept)
          (LoadBalancerObj Demo.lb1) (Demo.world_of_list [Demo.d_old])
        = Ret (Some (PlainError "list failed")) w'
    ∧ calls w' = [].
Proof.
  destruct (list_failure_aborts_the_pass Demo.pkg
              (Cases.provider_with (Cases.lister_with Demo.lb1) Cases.broken_list Demo.accept)
              Demo.lb1 (PlainError "list failed") (Demo.world_of_list [Demo.d_old]))
    as (w' & Hrun & Hcalls & _).
  - reflexivity.
  - reflexivity.
  - reflexivity.
  - exists w'. split; [exact Hrun|exact Hcalls].
Defined.

(** X16: a load balancer that is gone from the cache is cleaned up.  The
    pass logs a warning, claims the deployments of the load balancer as the
    notification has it, sends one delete for each, and returns nil. *)
Theorem deleted_resource_is_cleaned_up pkg f lb e w dps ds w1 :
  ValidateLoadBalancer pkg lb = None →
  Get (lbLister f) (lbNamespace lb) (lbName lb) w = inr e →
  IsNotFound e = true →
  getDeploymentsForLoadBalancer pkg f lb
    (with_logs (λ l, l ++ [ {| level := Warn;
                                msg := "LoadBalancer has been deleted, clean up provider";
                                fields := [("lb", (KeyFunc pkg lb).1)] |} ]) w)
  = Ret (dps, None) w1 →
  cached w1 dps ds →
  ∃ w2, syncLoadBalancer pkg f (LoadBalancerObj lb) w = Ret None w2
    ∧ calls w2 = calls w1 ++ (cleanup_call <$> ds)
    ∧ logs w2 = logs w1 ++ [finished_record pkg lb]
    ∧ heap w2 = heap w1.
Proof.
  intros Hvalid Hget Hgone Hclaim Hcached. unfold syncLoadBalancer. rewrite Hvalid.
  destruct (cleanup_loop_spec (client f) dps w1 (cached_is_Some _ _ _ Hcached))
    as (w2 & Hrun & Hh & Hl & Hc).
  eexists. split.
  - apply defer_log_Ret. unfold bind at 1. rewrite Hget, Hgone.
    erewrite bind_Ret; [|reflexivity]. unfold cleanup.
    rewrite (bind_Ret _ _ _ _ _ Hclaim). fold (cleanup_body (client f)).
    rewrite (bind_Ret _ _ _ _ _ Hrun). reflexivity.
  - simpl. rewrite Hc, Hl, Hh, (cached_calls _ _ _ Hcached). done.
Qed.

Lemma deleted_resource_is_cleaned_up_witness :
  ∃ w2, syncLoadBalancer Demo.pkg (Demo.provider Demo.accept [1; 2]%positive)
          (LoadBalancerObj Demo.lb1) (Demo.world_of_list [Demo.d_stray; Demo.d_old])
        = Ret None w2
    ∧ calls w2 = [cleanup_call Demo.d_stray; cleanup_call Demo.d_old].
Proof.
  destruct (deleted_resource_is_cleaned_up Demo.pkg (Demo.provider Demo.accept [1; 2]%positive)
              Demo.lb1 (StatusError StatusReasonNotFound "not found")
              (Demo.world_of_list [Demo.d_stray; Demo.d_old]) [1; 2]%positive
              [Demo.d_stray; Demo.d_old]
              (with_logs (λ l, l ++ [ {| level := Warn;
                                         msg := "LoadBalancer has been deleted, clean up provider";
                                         fields := [("lb", (KeyFunc Demo.pkg Demo.lb1).1)] |} ])
                 (Demo.world_of_list [Demo.d_stray; Demo.d_old])))
    as (w2 & Hrun & Hcalls & _).
  - reflexivity.
  - reflexivity.
  - reflexivity.
  - reflexivity.
  - by repeat constructor.
  - exists w2. split; [exact Hrun|exact Hcalls].
Defined.
(** ** The precondition of a pass is an invariant *)

Lemma set_Replicas_sound r d : sound d → sound (set_Replicas (Some r) d).
Proof. intros [(_ & Hc & Ha) Hl]. split; [|done]. split; [by eexists|done]. Qed.

Lemma merged_sound desired d : well_formed desired → sound d → sound (merged desired d).
Proof.
  intros Hwd [Hwo [lo Hlo]].
  assert (Hm : mergeable desired d) by (split; [done|]; split; [done|]; left; by eexists).
  split; [by apply merged_well_formed|].
  destruct Hwd as ([rd Hrd] & Hcd & [da Hda]). destruct Hwo as ([r Hr] & Hco & [a Ha]).
  destruct (dContainers desired) as [|d0 tld] eqn:Ecd; [done|].
  destruct (dContainers d) as [|c0 tl] eqn:Eco; [done|].
  rewrite (merged_eq desired d rd da d0 tld a c0 tl Hrd Hda Ecd Ha Eco). fields.
  unfold merged_labels. rewrite Hlo. by eexists.
Qed.

Lemma converged_sound lb desired : well_formed desired → ∀ ds updated,
  Forall sound ds → Forall sound (converged lb desired ds updated).
Proof.
  intros Hwd. induction ds as [|d ds IH]; intros updated Hall; [by apply Forall_nil|].
  apply Forall_cons in Hall as [Hd Hall]. cbn [converged].
  destruct (negb (prefixed lb (dName d)) || updated).
  - apply Forall_cons. split; [|by apply IH].
    destruct (bool_decide _); [done|by apply set_Replicas_sound].
  - apply Forall_cons. split; [by apply merged_sound|by apply IH].
Qed.

Lemma desired_sound pkg f lb s : sound (desiredDeployment pkg f lb s).
Proof. split; [apply desired_well_formed|by eexists]. Qed.

(** X17: what [generateDeployment] builds is fit for the passes to come.
    Its name has the prefix by which [sync] picks the target, and it has a
    replicas pointer, a container, an affinity and a label map: in neither
    role, target or not, does the loop of [sync] panic at it. *)
Theorem generated_deployment_is_fit_for_the_next_pass pkg f lb suffix :
  let d := desiredDeployment pkg f lb suffix in
  prefixed lb (dName d) = true
  ∧ sound d
  ∧ (∀ lb' updated, ¬ unfit lb' updated d)
  ∧ dReplicas d = Some (CalculateReplicas pkg lb).1.
Proof.
  intros d. split; [apply prefix_app|]. split; [apply desired_sound|]. split; [|done].
  intros lb' updated. unfold unfit.
  destruct (negb (prefixed lb' (dName d)) || updated); [done|].
  intros Hbad. apply Hbad, desired_well_formed.
Qed.

(** X18: the precondition of a pass is an invariant of a pass.  When the
    claimed deployments are sound, in step with an API server that accepts
    every request, then after [sync] the API server stores a sound
    deployment under the name of every claimed deployment and under the
    name of the active one; every deployment that the pass has sent in an
    update or a create is sound. *)
Theorem sound_deployments_stay_sound pkg f lb w dps ds :
  cached w dps ds → Forall sound ds → in_step (lbNamespace lb) w ds →
  accepting (client f) →
  (find (prefixed lb) (dName <$> ds) = None →
     objects w !! (lbNamespace lb, generated_name pkg f lb w) = None) →
  ∃ err w',
    sync pkg f lb dps w = Ret err w'
    ∧ (∀ n, n = active_name pkg f lb w ds ∨ (n ∈ dName <$> ds) →
         ∃ d', objects w' !! (lbNamespace lb, n) = Some d' ∧ dName d' = n ∧ sound d').
Proof.
  intros Hc Hsound Hstep Hacc Hfree.
  destruct (sync_run pkg f lb w dps ds Hc Hsound Hstep Hacc Hfree)
    as (err & w' & active & Hrun & Ho & _).
  set (desired := desiredDeployment pkg f lb (RandStringBytesRmndr pkg 5 (draws w))) in *.
  exists err, w'. split; [exact Hrun|].
  destruct Hstep as [Hnd Hstored].
  assert (Hnd' : NoDup (dName <$> converged lb desired ds false))
    by (by rewrite converged_names).
  pose proof (converged_sound lb desired (desired_well_formed pkg f lb _) ds false Hsound)
    as Hall.
  assert (Hclaimed : ∀ n, (n ∈ dName <$> ds) →
    ∃ c, put_all (lbNamespace lb) (converged lb desired ds false) (objects w)
           !! (lbNamespace lb, n) = Some c ∧ dName c = n ∧ sound c).
  { intros n Hn. apply list_elem_of_fmap in Hn as (d & -> & Hd).
    destruct (converged_elem lb desired ds false d Hnd Hd) as (c & Hin & Hname & _).
    exists c. split; [rewrite <- Hname; by apply put_all_lookup|]. split; [done|].
    by apply (proj1 (Forall_forall _ _) Hall). }
  rewrite existsb_find in Ho. unfold active_name.
  destruct (find (prefixed lb) (dName <$> ds)) as [t0|] eqn:Hfind.
  - rewrite bool_decide_eq_true_2 in Ho by (by eexists). simpl in Ho. rewrite Ho.
    destruct (find_elem_of _ _ _ Hfind) as [Hin _].
    intros n [->|Hn]; by apply Hclaimed.
  - rewrite bool_decide_eq_false_2 in Ho by (by intros [? ?]). simpl in Ho. rewrite Ho.
    assert (Hnew : dName desired ∉ dName <$> ds).
    { intros Hin. apply list_elem_of_In in Hin.
      pose proof (find_none _ _ Hfind _ Hin) as Hno.
      pose proof (generated_name_prefixed pkg f lb w) as Hyes.
      unfold generated_name in Hyes. fold desired in Hyes. congruence. }
    intros n [->|Hn].
    + exists desired. unfold generated_name. fold desired.
      split; [apply lookup_insert_eq|]. split; [done|apply desired_sound].
    + rewrite lookup_insert_ne; [by apply Hclaimed|].
      intros [= E]. apply Hnew. by rewrite E.
Qed.

Lemma sound_deployments_stay_sound_witness :
  ∃ err w',
    sync Demo.pkg (Demo.provider Demo.accept []) Demo.lb1 [1; 2; 3]%positive
      (Demo.world_of_list [Demo.d_stray; Demo.d_old; Demo.d_twin]) = Ret err w'
    ∧ ∃ d', objects w' !! ("default", "stray") = Some d' ∧ sound d'.
Proof.
  set (ds := [Demo.d_stray; Demo.d_old; Demo.d_twin]).
  set (f := Demo.provider Demo.accept []).
  assert (H1 : cached (Demo.world_of_list ds) [1; 2; 3]%positive ds)
    by repeat constructor.
  assert (H2 : Forall sound ds).
  { repeat (apply Forall_cons; split;
              [split; [split; [by eexists|split; [done|by eexists]]|by eexists]|]).
    by apply Forall_nil. }
  assert (H3 : in_step (lbNamespace Demo.lb1) (Demo.world_of_list ds) ds).
  { split.
    - apply (bool_decide_unpack _). vm_compute. exact I.
    - repeat (apply Forall_cons; split; [reflexivity|]). by apply Forall_nil. }
  assert (H4 : accepting (client f)) by (by intros ??).
  assert (H5 : find (prefixed Demo.lb1) (dName <$> ds) = None →
               objects (Demo.world_of_list ds)
                 !! (lbNamespace Demo.lb1,
                     generated_name Demo.pkg f Demo.lb1 (Demo.world_of_list ds)) = None).
  { vm_compute. discriminate. }
  pose proof (sound_deployments_stay_sound Demo.pkg f Demo.lb1 (Demo.world_of_list ds)
                [1; 2; 3]%positive ds H1 H2 H3 H4 H5) as (err & w' & Hrun & Hall).
  exists err, w'. split; [exact Hrun|].
  destruct (Hall "stray") as (d' & Hd' & _ & Hs).
  { right. apply elem_of_cons. by left. }
  exists d'. split; [exact Hd'|exact Hs].
Defined.

(** ** Notifications, set-up, virtual router ids *)

(** X19: what [OnSync] does with a load balancer.  It leaves the load
    balancers that are not external and have an ipvsdr block alone; for
    every other load balancer it writes one record with the name and the
    namespace of the load balancer and hands the load balancer to the work
    queue, and it touches neither memory nor the API server. *)
Theorem OnSync_logs_unless_skipped pkg f lb w :
  let skipped :=
    netv1alpha1.Type_ (netv1alpha1.Spec lb) ≠ LoadBalancerTypeExternal pkg
    ∧ netv1alpha1.Ipvsdr (netv1alpha1.Providers (netv1alpha1.Spec lb)) ≠ None in
  let record :=
    {| level := Info; msg := "Syncing providers, triggered by lb controller";
       fields := [("lb", lbName lb); ("namespace", lbNamespace lb)] |} in
  (skipped → OnSync pkg f lb w = Ret tt w)
  ∧ (¬ skipped →
     ∃ w', OnSync pkg f lb w = Ret tt w'
       ∧ w' = world_of (Enqueue lb (with_logs (λ l, l ++ [record]) w))
       ∧ logs w' = logs w ++ [record]
       ∧ heap w' = heap w ∧ objects w' = objects w ∧ calls w' = calls w).
Proof.
  intros skipped record. split; [by apply OnSync_skips_iff|].
  intros Hno. unfold OnSync.
  destruct (negb _ && bool_decide _) eqn:Hcond.
  { exfalso. apply Hno. apply andb_true_iff in Hcond as [Ht Hi].
    apply negb_true_iff, String.eqb_neq in Ht. by apply bool_decide_eq_true in Hi. }
  erewrite bind_Ret; [|reflexivity]. fold record. unfold Enqueue.
  cbn [queue with_logs log heap objects calls logs].
  destruct (existsb _ (queue w)); eexists; (split; [reflexivity|]); by repeat split.
Qed.

(** X20: [Init] happens once.  Whatever the provider was, after [Init] it
    is initialized, and every later call of [Init], with whatever
    configuration and informers, returns the provider as it is and changes
    nothing: no record is logged, no event handler is added a second time,
    and the work queue with what is pending in it is kept.  The first call
    takes the image and the client from the configuration and adds one
    handler to the deployment informer and one to the pod informer. *)
Theorem Init_happens_once pkg cfg sif f w :
  ∃ f1 sif1 w1,
    Init pkg cfg sif f w = Ret (f1, sif1) w1
    ∧ initialized f1 = true
    ∧ (∀ cfg' sif' w', Init pkg cfg' sif' f1 w' = Ret (f1, sif') w')
    ∧ match initialized f return Prop with
      | true => f1 = f ∧ sif1 = sif ∧ w1 = w
      | false =>
        image f1 = config.ProvidersIpvsdrImage cfg ∧ client f1 = config.Client cfg
        ∧ lbLister f1 = informers.LoadBalancerLister_ sif
        ∧ dLister f1 = informers.DeploymentLister_ sif
        ∧ length (informers.DeploymentHandlers sif1)
          = S (length (informers.DeploymentHandlers sif))
        ∧ length (informers.PodHandlers sif1) = S (length (informers.PodHandlers sif))
        ∧ queue w1 = []
      end.
Proof.
  unfold Init. destruct (initialized f) eqn:Hinit.
  - exists f, sif, w. split; [done|]. split; [done|]. split; [|done].
    intros cfg' sif' w'. by rewrite Hinit.
  - eexists _, _, _. split; [reflexivity|]. split; [done|]. split; [done|].
    simpl. rewrite !length_app. simpl. rewrite !Nat.add_1_r. by repeat split.
Qed.

Lemma draw31_nonneg Uint64 i : 0 ≤ draw31 Uint64 i.
Proof. unfold draw31. apply Z.shiftr_nonneg, Z.land_nonneg. right. done. Qed.

Lemma Int31_run Uint64 w :
  Int31 Uint64 w = Ret (draw31 Uint64 (draws w)) (with_draws S w).
Proof. reflexivity. Qed.

Lemma same_but_draws_refl w : same_but_draws w w.
Proof. by repeat split. Qed.

Lemma same_but_draws_step w w' : same_but_draws (with_draws S w) w' → same_but_draws w w'.
Proof. by intros (? & ? & ? & ? & ?). Qed.

(** The loop of [Int31n] ends at the first value that is not above [max],
    when the fuel reaches that far. *)
Lemma redraw_run Uint64 max : ∀ k fuel w v,
  (k ≤ fuel)%nat →
  (∀ j, (j < k)%nat →
        match j with O => v | S j' => draw31 Uint64 (draws w + j') end > max) →
  match k with O => v | S k' => draw31 Uint64 (draws w + k') end ≤ max →
  ∃ w', redraw fuel (Int31 Uint64) max v w
        = Ret (Some match k with O => v | S k' => draw31 Uint64 (draws w + k') end) w'
    ∧ draws w' = (draws w + k)%nat ∧ same_but_draws w w'.
Proof.
  induction k as [|k IH]; intros fuel w v Hfuel Hrejected Haccepted.
  - exists w. assert (Hle : (v >? max) = false) by lia.
    destruct fuel; simpl; rewrite Hle; (split; [done|]);
      (split; [by rewrite Nat.add_0_r|apply same_but_draws_refl]).
  - destruct fuel as [|fuel]; [lia|]. simpl.
    assert (Hgt : (v >? max) = true) by (pose proof (Hrejected O); lia).
    rewrite Hgt. rewrite (bind_Ret _ _ _ _ _ (Int31_run Uint64 w)).
    destruct (IH fuel (with_draws S w) (draw31 Uint64 (draws w))) as (w' & Hrun & Hd & Hsame).
    + lia.
    + intros j Hj. pose proof (Hrejected (S j)) as Hr. simpl in Hr |- *.
      destruct j as [|j'].
      * rewrite Nat.add_0_r in Hr. apply Hr. lia.
      * rewrite Nat.add_succ_r in Hr. apply Hr. lia.
    + simpl. destruct k as [|k'].
      * by rewrite Nat.add_0_r in Haccepted.
      * by rewrite Nat.add_succ_r in Haccepted.
    + exists w'. split.
      * rewrite Hrun. f_equal. f_equal. simpl. destruct k as [|k'].
        -- by rewrite Nat.add_0_r.
        -- by rewrite Nat.add_succ_r.
      * split; [simpl in Hd; lia|by apply same_but_draws_step].
Qed.

(** What the loop returns is a value that it was given or has drawn, and
    not above [max]; the loop does not panic. *)
Lemma redraw_sound Uint64 max : ∀ fuel w v,
  0 ≤ v →
  match redraw fuel (Int31 Uint64) max v w with
  | Ret (Some r) _ => 0 ≤ r ≤ max
  | Ret None _ => True
  | Panic _ _ => False
  end.
Proof.
  induction fuel as [|fuel IH]; intros w v Hv; simpl.
  - destruct (v >? max) eqn:Hcmp; simpl; [done|lia].
  - destruct (v >? max) eqn:Hcmp; simpl; [|lia].
    rewrite (bind_Ret _ _ _ _ _ (Int31_run Uint64 w)). apply IH, draw31_nonneg.
Qed.

Lemma getValidVRID_unfold Uint64 fuel f w :
  getValidVRID Uint64 fuel f w
  = match redraw fuel (Int31 Uint64) bound254 (draw31 Uint64 (draws w)) (with_draws S w) with
    | Ret r w' => Ret ((λ r, r + 1) <$> ((λ v, Z.rem v 254) <$> r)) w'
    | Panic k w' => Panic k w'
    end.
Proof.
  unfold getValidVRID, Intn. change (Z.pos 254 <=? 2 ^ 31 - 1) with true. cbv iota.
  unfold Int31n. change (Z.land 254 (254 - 1) =? 0) with false. cbv iota.
  unfold bind at 1. unfold bind at 1. unfold bind at 1. rewrite Int31_run.
  fold bound254. by destruct (redraw _ _ _ _ _).
Qed.

(** X21: a virtual router id that [getValidVRID] hands out lies between 1
    and 254, and [getValidVRID] does not panic.  [rand.Intn(254)] draws
    31-bit values until one is not above its bound: when [k] values are
    above the bound and the next one is not, [getValidVRID] takes [k + 1]
    values from the generator and returns the remainder of the last one by
    254, plus one. *)
Theorem getValidVRID_in_range Uint64 fuel f w :
  is_panic (getValidVRID Uint64 fuel f w) = false
  ∧ (∀ v w', getValidVRID Uint64 fuel f w = Ret (Some v) w' → 1 ≤ v ≤ 254)
  ∧ (∀ k, (∀ j, (j < k)%nat → draw31 Uint64 (draws w + j) > bound254) →
          draw31 Uint64 (draws w + k) ≤ bound254 → (k ≤ fuel)%nat →
          ∃ w', getValidVRID Uint64 fuel f w
                = Ret (Some (Z.rem (draw31 Uint64 (draws w + k)) 254 + 1)) w'
            ∧ draws w' = (draws w + S k)%nat ∧ same_but_draws w w').
Proof.
  rewrite getValidVRID_unfold.
  pose proof (redraw_sound Uint64 bound254 fuel (with_draws S w) (draw31 Uint64 (draws w))
                (draw31_nonneg _ _)) as Hsound.
  split; [|split].
  - by destruct (redraw _ _ _ _ _) as [[r|] w'|].
  - intros v w' Hrun. destruct (redraw _ _ _ _ _) as [[r|] w1|]; try done.
    injection Hrun as <- _. pose proof (Z.rem_bound_pos r 254). lia.
  - intros k Hrejected Haccepted Hfuel.
    destruct (redraw_run Uint64 bound254 k fuel (with_draws S w) (draw31 Uint64 (draws w)))
      as (w' & Hrun & Hd & Hsame).
    + exact Hfuel.
    + intros j Hj. pose proof (Hrejected j Hj) as Hr. destruct j as [|j']; simpl.
      * by rewrite Nat.add_0_r in Hr.
      * by rewrite Nat.add_succ_r in Hr.
    + destruct k as [|k']; simpl.
      * by rewrite Nat.add_0_r in Haccepted.
      * by rewrite Nat.add_succ_r in Haccepted.
    + exists w'. rewrite Hrun. split.
      * f_equal. simpl. f_equal. f_equal. f_equal. destruct k as [|k']; simpl.
        -- by rewrite Nat.add_0_r.
        -- by rewrite Nat.add_succ_r.
      * split; [simpl in Hd; lia|by apply same_but_draws_step].
Qed.

Lemma getValidVRID_in_range_witness :
  ∃ w', getValidVRID Cases.source 1 Cases.new_provider (Demo.world_of_list [])
        = Ret (Some 6) w'
    ∧ draws w' = 2%nat.
Proof.
  destruct (getValidVRID_in_range Cases.source 1 Cases.new_provider (Demo.world_of_list []))
    as (_ & _ & Hrun).
  destruct (Hrun 1%nat) as (w' & Hw' & Hd & _).
  - intros j Hj. assert (j = O) as -> by lia. vm_compute. reflexivity.
  - vm_compute. discriminate.
  - lia.
  - exists w'. split; [exact Hw'|exact Hd].
Defined.
Lemma defer_log_world {A} lv message fs (body : M A) w :
  world_of (defer (log lv message fs) body w)
  = with_logs (λ l, l ++ [{| level := lv; msg := message; fields := fs |}])
      (world_of (body w)).
Proof. unfold defer. by destruct (body w). Qed.

Lemma defer_log_result {A} lv message fs (body : M A) w :
  result (defer (log lv message fs) body w) = result (body w).
Proof. unfold defer. by destruct (body w). Qed.

(** X22: a load balancer that is alive is converged as the cache has it.
    When the cache holds the load balancer under the UID of the
    notification and without a deletion timestamp, the pass is [sync] run
    on the load balancer of the cache and on the claimed deployments: it
    returns what [sync] returns, panics when [sync] panics, and leaves the
    world of [sync] with the closing record added. *)
Theorem live_resource_is_converged_from_the_cache pkg f lb nlb w dps w1 :
  ValidateLoadBalancer pkg lb = None →
  Get (lbLister f) (lbNamespace lb) (lbName lb) w = inl nlb →
  lbUID lb = lbUID nlb →
  getDeploymentsForLoadBalancer pkg f nlb w = Ret (dps, None) w1 →
  metav1.DeletionTimestamp (netv1alpha1.Meta nlb) = None →
  let pass := syncLoadBalancer pkg f (LoadBalancerObj lb) w in
  result pass = result (sync pkg f nlb dps w1)
  ∧ world_of pass
    = with_logs (λ l, l ++ [finished_record pkg lb]) (world_of (sync pkg f nlb dps w1)).
Proof.
  intros Hvalid Hget Huid Hclaim Halive pass. unfold pass, syncLoadBalancer.
  rewrite Hvalid, defer_log_result, defer_log_world.
  assert (Hbody : ∀ k1 k2,
            (let* got := (λ w0, Ret (Get (lbLister f) (lbNamespace lb) (lbName lb) w0) w0) in
             match got with
             | inr err => k1 err
             | inl nlb0 =>
               if negb (String.eqb (lbUID lb) (lbUID nlb0)) then k2
               else
                 let* claimed := getDeploymentsForLoadBalancer pkg f nlb0 in
                 match claimed with
                 | (_, Some err) => ret (Some err)
                 | (ds, None) =>
                   match metav1.DeletionTimestamp (netv1alpha1.Meta nlb0) with
                   | Some _ => ret None
                   | None => sync pkg f nlb0 ds
                   end
                 end
             end) w = sync pkg f nlb dps w1).
  { intros k1 k2. unfold bind at 1. rewrite Hget.
    apply String.eqb_eq in Huid. rewrite Huid. change (negb true) with false. cbv iota.
    rewrite (bind_Ret _ _ _ _ _ Hclaim). by rewrite Halive. }
  by rewrite Hbody.
Qed.

Lemma live_resource_is_converged_from_the_cache_witness :
  let f := Cases.provider_with (Cases.lister_with Demo.lb1) (Demo.lister_of [1%positive])
             Demo.accept in
  let w := Demo.world_of_list [Demo.d_old] in
  result (syncLoadBalancer Demo.pkg f (LoadBalancerObj Demo.lb1) w)
  = result (sync Demo.pkg f Demo.lb1 [1%positive] w).
Proof.
  intros f w.
  apply (live_resource_is_converged_from_the_cache Demo.pkg f Demo.lb1 Demo.lb1 w
           [1%positive] w); reflexivity.
Defined.
